(** * DirectCryptoPay SDK: balance ranking, payment modal and webhook check

    A shallow embedding of the TypeScript sources of the SDK
    ([src/core/logic.ts], [src/ui/Modal.tsx], [src/core/api.ts],
    [src/core/config.ts], [src/core/wallet.ts], [src/ui/index.tsx] and the
    [DCP] class) and of the platform and library functions they call,
    followed by the properties proved about them. *)

From Stdlib Require Import ZArith List String Ascii Bool Lia.
From Stdlib Require Import Permutation Sorted DecimalString DecimalZ.
From Stdlib Require DecimalPos.
Import ListNotations.

Local Open Scope string_scope.
Local Open Scope list_scope.
Local Open Scope Z_scope.

(* ================================================================== *)
(** * JavaScript values and control *)
(* ================================================================== *)

Module Js.

(** [new Error(message)]. *)
Record Error := mkError { message : string }.

(** The completion of an evaluation: a value, or a thrown error.  An
    awaited promise that rejects is a [Throw] at the [await]. *)
Inductive completion (A : Type) : Type :=
| Normal (a : A)
| Throw (e : Error).
Arguments Normal {A} a.
Arguments Throw {A} e.

Definition bind {A B} (c : completion A) (k : A -> completion B) : completion B :=
  match c with
  | Normal a => k a
  | Throw e => Throw e
  end.

(** [try { c } catch (e) { handler e }] *)
Definition try_catch {A} (c : completion A) (handler : Error -> A) : A :=
  match c with
  | Normal a => a
  | Throw e => handler e
  end.

(** [bigint.toString()]: decimal digits, a leading minus sign for a
    negative value. *)
Definition toString (z : Z) : string := DecimalString.NilZero.string_of_int (Z.to_int z).

(** [BigInt(string)] on the literals this program builds: the empty
    string is [0n], otherwise an optional sign and decimal digits;
    anything else is a SyntaxError.  (Radix prefixes and surrounding
    white space, which the program never produces, are not read.) *)
Definition BigInt (s : string) : completion Z :=
  match s with
  | EmptyString => Normal 0
  | String c rest =>
      match DecimalString.NilZero.int_of_string (if Ascii.eqb c "+" then rest else s) with
      | Some d =>
          if andb (Ascii.eqb c "+") (String.prefix "-" rest)
          then Throw (mkError ("Cannot convert " ++ s ++ " to a BigInt")%string)
          else Normal (Z.of_int d)
      | None => Throw (mkError ("Cannot convert " ++ s ++ " to a BigInt")%string)
      end
  end.

(** [Promise.all]: fulfils with all the values, in the order of the
    promises, or rejects as soon as one of them rejects. *)
Fixpoint PromiseAll {A} (ps : list (completion A)) : completion (list A) :=
  match ps with
  | [] => Normal []
  | p :: rest =>
      match p, PromiseAll rest with
      | Throw e, _ => Throw e
      | Normal _, Throw e => Throw e
      | Normal a, Normal l => Normal (a :: l)
      end
  end.

(** [array.find(pred)] *)
Definition find {A} (pred : A -> bool) (array : list A) : option A :=
  List.find pred array.

End Js.

Import Js.

Notation "x <- c ;; k" := (Js.bind c (fun x => k))
  (at level 61, c at next level, right associativity).
Notation "' pat <- c ;; k" := (Js.bind c (fun x => match x with pat => k end))
  (at level 61, pat pattern, c at next level, right associativity).

(* ================================================================== *)
(** * Array.prototype.sort *)
(* ================================================================== *)

(** [Array.prototype.sort] with a comparator is specified by ECMAScript
    only for a consistent comparator; the one of [fetchTokenBalances] is
    not (it answers [-1] both ways round for two equal balances), so the
    order it gives depends on the engine.  This is the algorithm of V8
    (Chrome, Edge, Node.js), [third_party/v8/builtins/array-sort.tq]: on an
    array of fewer than 64 elements, [ArrayTimSortImpl] finds the run at the
    start of the array with [CountAndMakeRun] and extends it to the whole
    array with [BinaryInsertionSort].  Longer arrays are cut in several
    runs that are merged; that part is not modelled, and the theorems on
    the order of the result assume fewer than 64 elements. *)

Module V8.
Section ArraySort.

Context {A : Type}.
Variable comparefn : A -> A -> completion Z.

(** The loop of [CountAndMakeRun]: how many elements after
    [previousElement] continue the run. *)
Fixpoint runTail (isDescending : bool) (previousElement : A) (rest : list A)
  : completion nat :=
  match rest with
  | [] => Normal 0%nat
  | currentElement :: rest' =>
      order <- comparefn currentElement previousElement ;;
      if isDescending then
        if 0 <=? order then Normal 0%nat
        else n <- runTail isDescending currentElement rest' ;; Normal (S n)
      else
        if order <? 0 then Normal 0%nat
        else n <- runTail isDescending currentElement rest' ;; Normal (S n)
  end.

(** [CountAndMakeRun(0, length)]: the length of the run that starts the
    array; a strictly descending run is reversed in place. *)
Definition CountAndMakeRun (workArray : list A) : completion (list A * nat) :=
  match workArray with
  | [] => Normal ([], 0%nat)
  | [_] => Normal (workArray, 1%nat)
  | elementHigh :: elementLow :: rest =>
      order <- comparefn elementLow elementHigh ;;
      let isDescending := order <? 0 in
      n <- runTail isDescending elementLow rest ;;
      let runLength := S (S n) in
      Normal (if isDescending
              then rev (firstn runLength workArray) ++ skipn runLength workArray
              else workArray,
              runLength)
  end.

(** The binary search of [BinaryInsertionSort]:
    [while (left < right) { mid = left + ((right - left) >> 1); ... }].
    The loop runs at most [right - left] times, which is the fuel. *)
Fixpoint findInsertionPoint (fuel : nat) (pivot : A) (sorted : list A)
  (left right : nat) : completion nat :=
  match fuel with
  | O => Normal left
  | S fuel' =>
      if (left <? right)%nat then
        let mid := (left + Nat.div2 (right - left))%nat in
        order <- comparefn pivot (nth mid sorted pivot) ;;
        if order <? 0
        then findInsertionPoint fuel' pivot sorted left mid
        else findInsertionPoint fuel' pivot sorted (S mid) right
      else Normal left
  end.

(** The outer loop of [BinaryInsertionSort(0, start, length)]: [sorted]
    is [workArray[0..start)], [rest] is [workArray[start..length)]. *)
Fixpoint insertAll (sorted rest : list A) : completion (list A) :=
  match rest with
  | [] => Normal sorted
  | pivot :: rest' =>
      left <- findInsertionPoint (List.length sorted) pivot sorted 0 (List.length sorted) ;;
      insertAll (firstn left sorted ++ pivot :: skipn left sorted) rest'
  end.

Definition BinaryInsertionSort (workArray : list A) (start : nat)
  : completion (list A) :=
  insertAll (firstn start workArray) (skipn start workArray).

(** [ArrayTimSortImpl] for [length < 64], where [ComputeMinRunLength]
    is the length itself. *)
Definition ArrayPrototypeSort (array : list A) : completion (list A) :=
  if (List.length array <? 2)%nat then Normal array
  else
    '(workArray, runLength) <- CountAndMakeRun array ;;
    BinaryInsertionSort workArray runLength.

End ArraySort.
End V8.

(* ================================================================== *)
(** * String helpers of the JavaScript library *)
(* ================================================================== *)

Module Str.

Fixpoint repeat (c : ascii) (n : nat) : string :=
  match n with
  | O => EmptyString
  | S n' => String c (repeat c n')
  end.

(** [s.padStart(n, '0')] *)
Definition padStart (n : nat) (s : string) : string :=
  (repeat "0" (n - String.length s) ++ s)%string.

(** [s.padEnd(n, '0')] *)
Definition padEnd (n : nat) (s : string) : string :=
  (s ++ repeat "0" (n - String.length s))%string.

(** [s.slice(from)] and [s.slice(0, to)], for indices that are not
    negative. *)
Definition sliceFrom (from : nat) (s : string) : string :=
  String.substring from (String.length s - from) s.
Definition sliceTo (to : nat) (s : string) : string :=
  String.substring 0 to s.

(** [s.replace(/(0+)$/, '')] *)
Fixpoint stripTrailingZeros (s : string) : string :=
  match s with
  | EmptyString => EmptyString
  | String c rest =>
      match stripTrailingZeros rest with
      | EmptyString => if Ascii.eqb c "0" then EmptyString else String c EmptyString
      | rest' => String c rest'
      end
  end.

Definition isDigit (c : ascii) : bool :=
  let n := nat_of_ascii c in andb (48 <=? n)%nat (n <=? 57)%nat.

Fixpoint all (p : ascii -> bool) (s : string) : bool :=
  match s with
  | EmptyString => true
  | String c rest => andb (p c) (all p rest)
  end.

(** The index of the first occurrence of [c], as [s.indexOf(c)]. *)
Fixpoint indexOf (c : ascii) (s : string) : option nat :=
  match s with
  | EmptyString => None
  | String d rest =>
      if Ascii.eqb d c then Some O else option_map S (indexOf c rest)
  end.

(** [s.split(c)] for a one-character separator. *)
Fixpoint split (c : ascii) (s : string) : list string :=
  match s with
  | EmptyString => [EmptyString]
  | String d rest =>
      if Ascii.eqb d c then EmptyString :: split c rest
      else match split c rest with
           | [] => [String d EmptyString]
           | piece :: pieces => String d piece :: pieces
           end
  end.

End Str.

(* ================================================================== *)
(** * viem: formatUnits *)
(* ================================================================== *)

Module Viem.

(** [formatUnits(value, decimals)] of viem ([utils/unit/formatUnits.ts]):
    the decimal rendering of [value / 10^decimals], without trailing
    zeros in the fraction. *)
Definition formatUnits (value : Z) (decimals : nat) : string :=
  let display := toString value in
  let negative := String.prefix "-" display in
  let display := if negative then Str.sliceFrom 1 display else display in
  let display := Str.padStart decimals display in
  let integer := Str.sliceTo (String.length display - decimals) display in
  let fraction := Str.sliceFrom (String.length display - decimals) display in
  let fraction := Str.stripTrailingZeros fraction in
  ((if negative then "-" else EmptyString)
     ++ (if String.eqb integer EmptyString then "0" else integer)
     ++ (if String.eqb fraction EmptyString then EmptyString else "." ++ fraction))%string.

(** ** Number and Math.round

    [parseUnits] rounds a fraction that has more digits than the token
    with [Math.round(Number(text))].  [Number] of a decimal literal is
    the nearest IEEE 754 binary64 value, ties to the even mantissa;
    [Math.round] is the nearest integer, ties upward.  Both are
    computed here exactly, on integers: a binary64 value is a mantissa
    [m] below [2^53] and an exponent [e], standing for [m * 2^e]. *)

(** The binary64 nearest to [num / den], for [0 <= num] and [0 < den]
    (the literals rounded by [parseUnits] are below ten, far from the
    overflow threshold). *)
Definition nearestDouble (num den : Z) : Z * Z :=
  if num =? 0 then (0, 0)
  else
    let t := Z.log2 num - Z.log2 den in
    let below := if 0 <=? t then num <? den * 2 ^ t else num * 2 ^ (- t) <? den in
    let e0 := if below then t - 1 else t in
    let e := Z.max e0 (-1022) - 52 in
    let n' := if 0 <=? e then num else num * 2 ^ (- e) in
    let d' := if 0 <=? e then den * 2 ^ e else den in
    let q := n' / d' in
    let r := n' mod d' in
    let m := if 2 * r <? d' then q
             else if d' <? 2 * r then q + 1
             else if Z.even q then q else q + 1 in
    (m, e).

(** [Math.round] of the binary64 [m * 2^e]: [floor(x + 1/2)]. *)
Definition MathRound (x : Z * Z) : Z :=
  let '(m, e) := x in
  if 0 <=? e then m * 2 ^ e
  else (2 * m + 2 ^ (- e)) / 2 ^ (1 - e).

(** The value of a string of decimal digits ([0] for the empty one). *)
Definition digitsValue (digits : string) : Z :=
  match DecimalString.NilEmpty.uint_of_string digits with
  | Some d => Z.of_uint d
  | None => 0
  end.

(** [Math.round(Number(`${unit}.${right}`))] for two strings of digits
    that are not both empty; [Number(".")] is [NaN], and so is its
    rounding: [None]. *)
Definition roundNumber (unit right : string) : option Z :=
  if andb (String.eqb unit EmptyString) (String.eqb right EmptyString) then None
  else Some (MathRound (nearestDouble (digitsValue (unit ++ right)%string)
                                      (10 ^ Z.of_nat (String.length right)))).

(** ** parseUnits *)

(** The test of the pattern for decimal numbers: an optional minus
    sign, digits, an optional point, digits. *)
Definition isDecimalNumber (value : string) : bool :=
  let unsigned := if String.prefix "-" value then Str.sliceFrom 1 value else value in
  match Str.split "." unsigned with
  | [integer] => Str.all Str.isDigit integer
  | [integer; fraction] => andb (Str.all Str.isDigit integer) (Str.all Str.isDigit fraction)
  | _ => false
  end.

(** [parseUnits(value, decimals)] of viem ([utils/unit/parseUnits.ts]). *)
Definition parseUnits (value : string) (decimals : nat) : completion Z :=
  if negb (isDecimalNumber value)
  then Throw (mkError ("Number `" ++ value ++ "` is not a valid decimal number.")%string)
  else
    (* let [integer, fraction = '0'] = value.split('.') *)
    let '(integer, fraction) :=
      match Str.split "." value with
      | integer :: fraction :: _ => (integer, fraction)
      | [integer] => (integer, "0")
      | [] => (EmptyString, "0")
      end in
    let negative := String.prefix "-" integer in
    let integer := if negative then Str.sliceFrom 1 integer else integer in
    let fraction := Str.stripTrailingZeros fraction in
    '(integer, fraction) <-
      (if (decimals =? 0)%nat then
         match roundNumber EmptyString fraction with
         | Some 1 => i <- BigInt integer ;; Normal (toString (i + 1), EmptyString)
         | _ => Normal (integer, EmptyString)
         end
       else if (decimals <? String.length fraction)%nat then
         let left := Str.sliceTo (decimals - 1) fraction in
         let unit := String.substring (decimals - 1) 1 fraction in
         let right := Str.sliceFrom decimals fraction in
         let rounded := match roundNumber unit right with Some r => r | None => 0 end in
         fraction <-
           (if 9 <? rounded then
              l <- BigInt left ;;
              Normal (Str.padStart (String.length left + 1) (toString (l + 1) ++ "0")%string)
            else Normal (left ++ toString rounded)%string) ;;
         '(integer, fraction) <-
           (if (decimals <? String.length fraction)%nat then
              i <- BigInt integer ;; Normal (toString (i + 1), Str.sliceFrom 1 fraction)
            else Normal (integer, fraction)) ;;
         Normal (integer, Str.sliceTo decimals fraction)
       else Normal (integer, Str.padEnd decimals fraction)) ;;
    BigInt ((if negative then "-" else EmptyString) ++ integer ++ fraction)%string.

(** ** encodeFunctionData for the ERC-20 [transfer] *)

(** The shape of an address: 0x and forty hexadecimal digits. *)
Definition isHexDigit (c : ascii) : bool :=
  let n := nat_of_ascii c in
  orb (andb (48 <=? n)%nat (n <=? 57)%nat)
      (orb (andb (97 <=? n)%nat (n <=? 102)%nat) (andb (65 <=? n)%nat (n <=? 70)%nat)).

Definition addressShape (a : string) : bool :=
  andb (String.prefix "0x" a)
       (andb (String.length a =? 42)%nat (Str.all isHexDigit (Str.sliceFrom 2 a))).

Definition toLowerChar (c : ascii) : ascii :=
  let n := nat_of_ascii c in
  if andb (65 <=? n)%nat (n <=? 90)%nat then ascii_of_nat (n + 32) else c.

Fixpoint toLowerCase (s : string) : string :=
  match s with
  | EmptyString => EmptyString
  | String c rest => String (toLowerChar c) (toLowerCase rest)
  end.

(** [isAddress(a)]: the shape, and for an address that is not all
    lower case its EIP-55 checksum.  The checksum is a Keccak-256
    computation, taken as [checksumAddress]. *)
Definition isAddress (checksumAddress : string -> string) (a : string) : bool :=
  andb (addressShape a)
       (orb (String.eqb (toLowerCase a) a) (String.eqb (checksumAddress a) a)).

Definition hexChar (d : Z) : ascii :=
  ascii_of_nat (Z.to_nat (if d <? 10 then 48 + d else 87 + d)).

(** The hexadecimal digits of [n] in front of [acc], most significant
    first; nothing for zero.  [fuel] bounds the number of digits. *)
Fixpoint hexDigitsOf (fuel : nat) (n : Z) (acc : string) : string :=
  match fuel with
  | O => acc
  | S fuel' =>
      if n =? 0 then acc
      else hexDigitsOf fuel' (n / 16) (String (hexChar (n mod 16)) acc)
  end.

(** [n.toString(16)] for [0 <= n]. *)
Definition toHex (n : Z) : string :=
  if n =? 0 then "0" else hexDigitsOf (S (Z.to_nat (Z.log2 n))) n EmptyString.

Definition hexDigitValue (c : ascii) : option Z :=
  let n := Z.of_nat (nat_of_ascii c) in
  if andb (48 <=? n) (n <=? 57) then Some (n - 48)
  else if andb (97 <=? n) (n <=? 102) then Some (n - 87)
  else None.

(** The number written by a string of lowercase hexadecimal digits,
    continuing from [acc]. *)
Fixpoint hexValue (s : string) (acc : Z) : option Z :=
  match s with
  | EmptyString => Some acc
  | String c rest =>
      match hexDigitValue c with
      | Some d => hexValue rest (16 * acc + d)
      | None => None
      end
  end.

(** One 32-byte word of ABI data, as 64 hexadecimal digits. *)
Definition word (digits : string) : string := Str.padStart 64 digits.

(** The 4-byte selector of [transfer(address,uint256)]. *)
Definition transferSelector : string := "a9059cbb".

(** [encodeFunctionData({abi: erc20Abi, functionName: 'transfer',
    args: [recipient, amount]})]: the selector and the two arguments,
    each in a word; an invalid address or an amount outside
    [uint256] throws. *)
Definition encodeTransfer (checksumAddress : string -> string)
  (recipient : string) (amount : Z) : completion string :=
  if negb (isAddress checksumAddress recipient)
  then Throw (mkError ("Address " ++ recipient ++ " is invalid.")%string)
  else if negb (andb (0 <=? amount) (amount <? 2 ^ 256))
  then Throw (mkError ("Number " ++ toString amount
                         ++ " is not in safe 256-bit unsigned integer range")%string)
  else Normal ("0x" ++ transferSelector
                 ++ word (Str.sliceFrom 2 (toLowerCase recipient))
                 ++ word (toHex amount))%string.

(** Reading call data back as a call of [transfer]: the recipient and
    the amount it carries, when it has the selector and two words. *)
Definition decodeTransfer (data : string) : option (string * Z) :=
  if andb (String.prefix ("0x" ++ transferSelector)%string data)
          (String.length data =? 138)%nat
  then
    let recipientWord := String.substring 10 64 data in
    let amountWord := String.substring 74 64 data in
    match hexValue amountWord 0 with
    | Some amount =>
        if String.eqb (String.substring 0 24 recipientWord) (Str.repeat "0" 24)
        then Some (("0x" ++ String.substring 24 40 recipientWord)%string, amount)
        else None
    | None => None
    end
  else None.

End Viem.

(* ================================================================== *)
(** * src/types.ts *)
(* ================================================================== *)

(** [TokenConfig].  [address] is [string | null]; [decimals] is a count
    of digits. *)
Record TokenConfig := {
  symbol : string;
  name : string;
  address : option string;
  decimals : nat;
  isNative : bool
}.

(** [TokenWithBalance extends TokenConfig]: the fields of the token
    (the spread [...token]) and the three added ones. *)
Record TokenWithBalance := {
  config :> TokenConfig;
  balance : string;
  balanceFormatted : string;
  hasBalance : bool
}.

(* ================================================================== *)
(** * src/core/logic.ts *)
(* ================================================================== *)

Module Logic.

(** What the chain answers to the two reads of [fetchTokenBalances]:
    [getBalance(wagmiConfig, {address, chainId})] gives [res.value],
    [readContract(wagmiConfig, {address: token.address, functionName:
    'balanceOf', args: [walletAddress], chainId})] gives the balance;
    either may reject. *)
Record Chain := {
  getBalance : string -> Z -> completion Z;
  readContract_balanceOf : option string -> string -> Z -> completion Z
}.

(** A call of [console.error(text, error)]. *)
Record ConsoleError := { text : string; logged : Error }.

(** The body of the [async (token) => { try ... catch ... }] mapped over
    the tokens: what it logs and how its promise settles. *)
Definition resolveBalance (chain : Chain) (walletAddress : string) (chainId : Z)
  (token : TokenConfig) : list ConsoleError * completion TokenWithBalance :=
  let attempt : completion TokenWithBalance :=
    balance <- (if isNative token
                then getBalance chain walletAddress chainId
                else readContract_balanceOf chain (address token) walletAddress chainId) ;;
    let balanceFormatted := Viem.formatUnits balance (decimals token) in
    Normal {| config := token;
              balance := toString balance;
              balanceFormatted := balanceFormatted;
              hasBalance := balance >? 0 |}
  in
  match attempt with
  | Normal result => ([], Normal result)
  | Throw error =>
      ([ {| text := ("Failed to fetch balance for " ++ symbol token ++ ":")%string;
            logged := error |} ],
       Normal {| config := token;
                 balance := "0";
                 balanceFormatted := "0";
                 hasBalance := false |})
  end.

(** The comparator given to [balances.sort]. *)
Definition compareBalances (a b : TokenWithBalance) : completion Z :=
  if andb (hasBalance a) (negb (hasBalance b)) then Normal (-1)
  else if andb (negb (hasBalance a)) (hasBalance b) then Normal 1
  else if andb (hasBalance a) (hasBalance b) then
    bb <- BigInt (balance b) ;;
    ba <- BigInt (balance a) ;;
    Normal (if bb >? ba then 1 else -1)
  else Normal 0.

(** [fetchTokenBalances(tokens, walletAddress, chainId)]: the lines
    written to the console (in the order of the tokens; the reads run
    concurrently, so the order of the lines is one of the possible
    ones) and the settlement of the returned promise. *)
Definition fetchTokenBalances (chain : Chain) (tokens : list TokenConfig)
  (walletAddress : string) (chainId : Z)
  : list ConsoleError * completion (list TokenWithBalance) :=
  let settled := map (resolveBalance chain walletAddress chainId) tokens in
  (List.concat (map fst settled),
   balances <- PromiseAll (map snd settled) ;;
   V8.ArrayPrototypeSort compareBalances balances).

End Logic.


(** [ToolData] *)
Record ToolData := {
  tool_id : string;
  tool_amount : string;
  currency_id : string;
  chain_id : Z;
  recipient_address : string;
  available_tokens : list TokenConfig;
  metadata_name : string;
  metadata_type : string
}.

(** [BackendIntentResponse] *)
Record BackendIntentResponse := {
  intent_id : string;
  amount : string;
  currency : string;
  intent_chainId : Z;
  tokenAddress : string;
  merchantAddress : string;
  expiresAt : string;
  signature : string;
  nonce : string
}.

(* ================================================================== *)
(** * src/core/api.ts *)
(* ================================================================== *)

Module Api.

Inductive Status := pending | confirmed | failed.

(** [SubmitPaymentRequest]; [metadata] is [{ toolId }]. *)
Record SubmitPaymentRequest := {
  tx_hash : string;
  req_chain_id : Z;
  amount_wei : string;
  token_address : string;
  recipient : string;
  metadata_toolId : string
}.

Record SubmitPaymentResponse := {
  payment_id : string;
  submitted_tx_hash : string;
  submitted_status : Status;
  submitted_message : string
}.

Record PaymentStatusResponse := {
  status_payment_id : string;
  status_tx_hash : string;
  status_chain_id : Z;
  status : Status;
  verified_at : option string
}.

(** What [fetch] resolves with, as far as the client looks at it. *)
Record Response (A : Type) := {
  ok : bool;
  statusText : string;
  json : completion A
}.
Arguments ok {A} r.
Arguments statusText {A} r.
Arguments json {A} r.

(** The configuration and the server: [apiUrl] is [None] before
    [DCP.init]; each [fetch] may reject.  The answer to a status
    request depends on when it is asked, here on the number of
    requests made before it. *)
Record Network := {
  apiUrl : option string;
  fetch_tool : string -> completion (Response ToolData);
  fetch_intent : string -> string -> completion (Response BackendIntentResponse);
  fetch_submit : string -> option string -> SubmitPaymentRequest
                 -> completion (Response SubmitPaymentResponse);
  fetch_status : nat -> string -> option string
                 -> completion (Response PaymentStatusResponse)
}.

(** [config.get()] *)
Definition config_get (net : Network) : completion string :=
  match apiUrl net with
  | Some url => Normal url
  | None => Throw (mkError "DirectCryptoPay: SDK not initialized. Call DCP.init() first")
  end.

Definition orFail {A} (what : string) (response : Response A) : completion A :=
  if negb (ok response)
  then Throw (mkError (what ++ statusText response)%string)
  else json response.

Definition fetchTool (net : Network) (toolId : string) : completion ToolData :=
  cfg <- config_get net ;;
  response <- fetch_tool net (cfg ++ "/payment-tools/public/" ++ toolId)%string ;;
  orFail "Failed to fetch payment tool: " response.

Definition createIntent (net : Network) (toolId tokenSymbol : string)
  : completion BackendIntentResponse :=
  cfg <- config_get net ;;
  response <- fetch_intent net
                (cfg ++ "/payment-tools/public/" ++ toolId ++ "/create-intent")%string
                tokenSymbol ;;
  orFail "Failed to create intent: " response.

(** The [X-Tool-Id] header is set when [toolId] is a non-empty string. *)
Definition toolHeader (toolId : string) : option string :=
  if String.eqb toolId EmptyString then None else Some toolId.

Definition submitPayment (net : Network) (request : SubmitPaymentRequest)
  (toolId : string) : completion SubmitPaymentResponse :=
  cfg <- config_get net ;;
  response <- fetch_submit net (cfg ++ "/payments")%string (toolHeader toolId) request ;;
  orFail "Failed to submit payment: " response.

Definition getPaymentStatus (net : Network) (asked : nat) (paymentId toolId : string)
  : completion PaymentStatusResponse :=
  cfg <- config_get net ;;
  response <- fetch_status net asked (cfg ++ "/payments/" ++ paymentId)%string
                (toolHeader toolId) ;;
  orFail "Failed to get payment status: " response.

End Api.

(* ================================================================== *)
(** * src/core/wallet.ts, as the modal uses it *)
(* ================================================================== *)

Module Wallet.

(** The object sent to [walletManager.sendTransaction]: the keys the
    modal sets; an absent key is [None]. *)
Record Transaction := {
  to : string;
  value : option Z;
  data : option string;
  chainId : Z
}.

(** [getAccount(wagmiConfig)]: the address and chain of the connected
    account.  The modal reads them after [isConnected()] answered
    true, when both are defined. *)
Record Account := {
  account_address : string;
  account_chainId : Z
}.

(** The wallet behind [walletManager]: each method throws when the
    manager is not initialised, and the asynchronous ones may reject. *)
Record Provider := {
  isConnected : bool;
  getAccount : completion Account;
  connect : completion unit;
  switchNetwork : Z -> completion unit;
  sendTransaction : Transaction -> completion string
}.

End Wallet.

(* ================================================================== *)
(** * src/ui/Modal.tsx *)
(* ================================================================== *)

Module Modal.

Inductive PaymentState :=
| FETCHING_TOOL
| CONNECT_WALLET
| FETCHING_BALANCES
| SELECT_TOKEN
| REVIEW
| PROCESSING
| POLLING
| SUCCESS
| ERROR.

(** The values held by the [useState] hooks of the component. *)
Record Hooks := {
  state : PaymentState;
  toolData : option ToolData;
  tokens : list TokenWithBalance;
  selectedToken : option TokenWithBalance;
  error : option string;
  txHash : option string
}.

(** [useState] initial values. *)
Definition initial : Hooks :=
  {| state := FETCHING_TOOL; toolData := None; tokens := [];
     selectedToken := None; error := None; txHash := None |}.

(** What the component does to the outside, in order: the callbacks of
    [PaymentCallbacks] it invokes ([callbacks?.onError?.(e)] and the
    like: the call happens when the host registered the callback), the
    calls of [api] and [walletManager], the timers it arms and the
    lines of [fetchTokenBalances] on the console. *)
Inductive Effect :=
| onOpen
| onError (e : Error)
| onTxSubmitted (hash : string)
| onSuccess (receipt : Api.PaymentStatusResponse)
| api_fetchTool (toolId : string)
| api_createIntent (toolId tokenSymbol : string)
| api_submitPayment (request : Api.SubmitPaymentRequest) (toolId : string)
| api_getPaymentStatus (paymentId toolId : string)
| wallet_connect
| wallet_switchNetwork (chainId : Z)
| wallet_sendTransaction (tx : Wallet.Transaction)
| setTimeout_poll
| console_error (line : Logic.ConsoleError).

(** Everything outside the component. *)
Record World := {
  net : Api.Network;
  wallet : Wallet.Provider;
  chain : Logic.Chain;
  checksumAddress : string -> string
}.

(** ** The monad of the handlers

    A handler reads and writes the hooks, acts on the outside and may
    throw.  What it wrote and did before it threw stays. *)
Definition M (A : Type) : Type := Hooks -> Hooks * list Effect * completion A.

Definition ret {A} (a : A) : M A := fun h => (h, [], Normal a).

Definition bindM {A B} (m : M A) (k : A -> M B) : M B :=
  fun h =>
    match m h with
    | (h1, effects1, Normal a) =>
        match k a h1 with
        | (h2, effects2, r) => (h2, effects1 ++ effects2, r)
        end
    | (h1, effects1, Throw e) => (h1, effects1, Throw e)
    end.

(** An outside effect. *)
Definition emit (e : Effect) : M unit := fun h => (h, [e], Normal tt).

(** The completion of an awaited call. *)
Definition await {A} (c : completion A) : M A := fun h => (h, [], c).

(** [try { body } catch (e) { handler e }] *)
Definition tryCatch {A} (body : M A) (handler : Error -> M A) : M A :=
  fun h =>
    match body h with
    | (h1, effects1, Normal a) => (h1, effects1, Normal a)
    | (h1, effects1, Throw e) =>
        match handler e h1 with
        | (h2, effects2, r) => (h2, effects1 ++ effects2, r)
        end
    end.

Definition setState (s : PaymentState) : M unit :=
  fun h => ({| state := s; toolData := toolData h; tokens := tokens h;
               selectedToken := selectedToken h; error := error h;
               txHash := txHash h |}, [], Normal tt).
Definition setToolData (d : ToolData) : M unit :=
  fun h => ({| state := state h; toolData := Some d; tokens := tokens h;
               selectedToken := selectedToken h; error := error h;
               txHash := txHash h |}, [], Normal tt).
Definition setTokens (l : list TokenWithBalance) : M unit :=
  fun h => ({| state := state h; toolData := toolData h; tokens := l;
               selectedToken := selectedToken h; error := error h;
               txHash := txHash h |}, [], Normal tt).
Definition setSelectedToken (t : option TokenWithBalance) : M unit :=
  fun h => ({| state := state h; toolData := toolData h; tokens := tokens h;
               selectedToken := t; error := error h;
               txHash := txHash h |}, [], Normal tt).
Definition setError (msg : string) : M unit :=
  fun h => ({| state := state h; toolData := toolData h; tokens := tokens h;
               selectedToken := selectedToken h; error := Some msg;
               txHash := txHash h |}, [], Normal tt).
Definition setTxHash (hash : string) : M unit :=
  fun h => ({| state := state h; toolData := toolData h; tokens := tokens h;
               selectedToken := selectedToken h; error := error h;
               txHash := Some hash |}, [], Normal tt).

Notation "'let*' x ':=' m 'in' k" := (bindM m (fun x => k))
  (at level 10, x name, m at level 100, k at level 200).
Notation "m ;;; k" := (bindM m (fun _ => k))
  (at level 100, k at level 200, right associativity).

Fixpoint emitAll (effects : list Effect) : M unit :=
  match effects with
  | [] => ret tt
  | e :: rest => emit e ;;; emitAll rest
  end.

(** The [catch] block shared by [loadTool], [checkBalances] and
    [handlePay]: [setError(e.message); setState('ERROR');
    callbacks?.onError?.(e)]. *)
Definition fail (e : Error) : M unit :=
  setError (message e) ;;; setState ERROR ;;; emit (onError e).

(** [balances.find(t => t.hasBalance) || balances[0]] *)
Definition defaultToken (balances : list TokenWithBalance) : option TokenWithBalance :=
  match Js.find hasBalance balances with
  | Some t => Some t
  | None => nth_error balances 0
  end.

(** [checkBalances(data)] *)
Definition checkBalances (w : World) (data : ToolData) : M unit :=
  setState FETCHING_BALANCES ;;;
  tryCatch
    (let* account := await (Wallet.getAccount (wallet w)) in
     (if Wallet.account_chainId account =? chain_id data then ret tt
      else emit (wallet_switchNetwork (chain_id data)) ;;;
           await (Wallet.switchNetwork (wallet w) (chain_id data))) ;;;
     let fetched := Logic.fetchTokenBalances (chain w) (available_tokens data)
                      (Wallet.account_address account) (chain_id data) in
     emitAll (map console_error (fst fetched)) ;;;
     let* balances := await (snd fetched) in
     setTokens balances ;;;
     setSelectedToken (defaultToken balances) ;;;
     setState SELECT_TOKEN)
    fail.

(** [loadTool()] *)
Definition loadTool (w : World) (toolId : string) : M unit :=
  tryCatch
    (emit onOpen ;;;
     setState FETCHING_TOOL ;;;
     emit (api_fetchTool toolId) ;;;
     let* data := await (Api.fetchTool (net w) toolId) in
     setToolData data ;;;
     if Wallet.isConnected (wallet w) then checkBalances w data
     else setState CONNECT_WALLET)
    fail.

(** [connectWallet()]: a rejected [connect] is swallowed; one second
    after a fulfilled one the balances are checked if the wallet is
    connected by then. *)
Definition connectWallet (w : World) : M unit :=
  let* opened := tryCatch (emit wallet_connect ;;;
                           await (Wallet.connect (wallet w)) ;;;
                           ret true)
                          (fun _ => ret false) in
  if opened then
    fun h =>
      match toolData h with
      | Some data => if Wallet.isConnected (wallet w) then checkBalances w data h
                     else ret tt h
      | None => ret tt h
      end
  else ret tt.

(** One tick of the interval of the second [useEffect]. *)
Definition tick (w : World) : M unit :=
  fun h =>
    match state h, toolData h with
    | CONNECT_WALLET, Some data =>
        if Wallet.isConnected (wallet w) then checkBalances w data h else ret tt h
    | _, _ => ret tt h
    end.

(** Lines 124-144 of [handlePay]: the transaction given to
    [walletManager.sendTransaction], and the hash it answers. *)
Definition sendPayment (w : World) (selectedToken : TokenWithBalance)
  (intent : BackendIntentResponse) (wei : Z) (toolData : ToolData) : M string :=
  if isNative selectedToken then
    let tx := {| Wallet.to := merchantAddress intent;
                 Wallet.value := Some wei;
                 Wallet.data := None;
                 Wallet.chainId := chain_id toolData |} in
    emit (wallet_sendTransaction tx) ;;;
    await (Wallet.sendTransaction (wallet w) tx)
  else
    let* data := await (Viem.encodeTransfer (checksumAddress w)
                          (merchantAddress intent) wei) in
    let tx := {| Wallet.to := tokenAddress intent;
                 Wallet.value := None;
                 Wallet.data := Some data;
                 Wallet.chainId := chain_id toolData |} in
    emit (wallet_sendTransaction tx) ;;;
    await (Wallet.sendTransaction (wallet w) tx).

(** [poll()], the closure of [handlePay]: one status request.  The
    result tells whether it armed the timer for another one. *)
Definition poll (w : World) (toolId paymentId : string) (asked : nat) : M bool :=
  tryCatch
    (emit (api_getPaymentStatus paymentId toolId) ;;;
     let* status := await (Api.getPaymentStatus (net w) asked paymentId toolId) in
     match Api.status status with
     | Api.confirmed => setState SUCCESS ;;; emit (onSuccess status) ;;; ret false
     | Api.failed => await (Throw (mkError "Payment failed verification"))
     | Api.pending => emit setTimeout_poll ;;; ret true
     end)
    (fun e => setError (message e) ;;; setState ERROR ;;; ret false).

(** The first [poll()] and those the timer starts, as long as each arms
    the timer again; [polls] bounds how many are observed. *)
Fixpoint polling (w : World) (toolId paymentId : string) (asked polls : nat) : M unit :=
  match polls with
  | O => ret tt
  | S polls' =>
      let* armed := poll w toolId paymentId asked in
      if armed then polling w toolId paymentId (S asked) polls' else ret tt
  end.

(** [handlePay()], followed for [polls] status requests.
    [String(intent.amount)] is [intent.amount], which is a string. *)
Definition handlePay (w : World) (toolId : string) (polls : nat) : M unit :=
  fun h =>
    match toolData h, selectedToken h with
    | Some toolData, Some selectedToken =>
        tryCatch
          (setState PROCESSING ;;;
           emit (api_createIntent toolId (symbol selectedToken)) ;;;
           let* intent := await (Api.createIntent (net w) toolId (symbol selectedToken)) in
           let* wei := await (Viem.parseUnits (amount intent) (decimals selectedToken)) in
           let* hash := sendPayment w selectedToken intent wei toolData in
           setTxHash hash ;;;
           emit (onTxSubmitted hash) ;;;
           setState POLLING ;;;
           let request := {| Api.tx_hash := hash;
                             Api.req_chain_id := chain_id toolData;
                             Api.amount_wei := toString wei;
                             Api.token_address := tokenAddress intent;
                             Api.recipient := merchantAddress intent;
                             Api.metadata_toolId := toolId |} in
           emit (api_submitPayment request toolId) ;;;
           let* submitRes := await (Api.submitPayment (net w) request toolId) in
           polling w toolId (Api.payment_id submitRes) 0 polls)
          fail h
    | _, _ => ret tt h
    end.

(** The [onClick] of a token row and of the Retry button. *)
Definition selectToken (t : TokenWithBalance) : M unit := setSelectedToken (Some t).
Definition retry : M unit := setState FETCHING_TOOL.

(** ** The component and its first effect

    [useEffect(() => { loadTool(); }, [toolId])] runs [loadTool] after
    the first render and after a render in which [toolId] differs from
    the one of the previous render.  [effectDeps] is the [toolId] of
    the previous render, [None] before the first. *)
Record Component := {
  toolId : string;
  hooks : Hooks;
  effectDeps : option string
}.

Definition depsChanged (c : Component) : bool :=
  match effectDeps c with
  | None => true
  | Some previous => negb (String.eqb previous (toolId c))
  end.

(** The effects after a render. *)
Definition afterRender (w : World) (c : Component) : Component * list Effect :=
  if depsChanged c then
    match loadTool w (toolId c) (hooks c) with
    | (h, effects, _) =>
        ({| toolId := toolId c; hooks := h; effectDeps := Some (toolId c) |}, effects)
    end
  else (c, []).

(** The first render of [Modal({ toolId, ... })]. *)
Definition mount (w : World) (id : string) : Component * list Effect :=
  afterRender w {| toolId := id; hooks := initial; effectDeps := None |}.

(** An event handler run on the hooks, the render it causes, and the
    effects after that render. *)
Definition handle (w : World) (handler : M unit) (c : Component)
  : Component * list Effect :=
  match handler (hooks c) with
  | (h, effects1, _) =>
      match afterRender w {| toolId := toolId c; hooks := h;
                             effectDeps := effectDeps c |} with
      | (c', effects2) => (c', effects1 ++ effects2)
      end
  end.

Definition clickRetry (w : World) : Component -> Component * list Effect :=
  handle w retry.
Definition clickPay (w : World) (polls : nat) (c : Component) : Component * list Effect :=
  handle w (handlePay w (toolId c) polls) c.

End Modal.

(* ================================================================== *)
(** * src/core/config.ts *)
(* ================================================================== *)

Module Config.

Inductive Env := test | prod.

(** [DCPInitConfig]: a key that is left out is [None]. *)
Record DCPInitConfig := {
  init_apiUrl : option string;
  init_widgetUrl : option string;
  init_projectId : string;
  init_env : option Env;
  init_defaultChainId : option Z;
  init_gasWarningThreshold : option Z
}.

(** [DCPConfig extends DCPInitConfig], with the three keys that [init]
    always sets. *)
Record DCPConfig := {
  apiUrl : string;
  widgetUrl : string;
  projectId : string;
  env : option Env;
  defaultChainId : option Z;
  gasWarningThreshold : Z
}.

(** [value || fallback] on an optional string: the fallback stands for
    a key left out and for the empty string. *)
Definition orDefault (value : option string) (fallback : string) : string :=
  match value with
  | Some s => if String.eqb s EmptyString then fallback else s
  | None => fallback
  end.

(** [value ?? fallback]: the fallback stands for a key left out only. *)
Definition nullish {A : Type} (value : option A) (fallback : A) : A :=
  match value with
  | Some a => a
  | None => fallback
  end.

(** The private field [config] of the class [Config]: [null] until
    [init] is called. *)
Definition State : Type := option DCPConfig.

Definition uninitialized : State := None.

(** [init(config)] *)
Definition init (config : DCPInitConfig) (_ : State) : State :=
  Some {| apiUrl := orDefault (init_apiUrl config) "https://api.directcryptopay.com";
          widgetUrl := orDefault (init_widgetUrl config) "https://pay.directcryptopay.com";
          projectId := init_projectId config;
          env := init_env config;
          defaultChainId := init_defaultChainId config;
          gasWarningThreshold := nullish (init_gasWarningThreshold config) 15 |}.

(** [get()] *)
Definition get (this : State) : completion DCPConfig :=
  match this with
  | Some config => Normal config
  | None => Throw (mkError "DirectCryptoPay: SDK not initialized. Call DCP.init() first")
  end.

(** [isInitialized()] *)
Definition isInitialized (this : State) : bool :=
  match this with
  | Some _ => true
  | None => false
  end.

Record NetworkConfig := {
  chainId : Z;
  name : string;
  currency : string;
  isTestnet : bool;
  rpcUrl : string;
  explorerUrl : string
}.

(** [NETWORKS], the keys with their records, in the order of the
    source. *)
Definition NETWORKS : list (Z * NetworkConfig) :=
  [ (1, {| chainId := 1; name := "Ethereum"; currency := "ETH"; isTestnet := false;
           rpcUrl := "https://eth.llamarpc.com";
           explorerUrl := "https://etherscan.io" |});
    (11155111, {| chainId := 11155111; name := "Sepolia"; currency := "ETH";
                  isTestnet := true;
                  rpcUrl := "https://ethereum-sepolia-rpc.publicnode.com";
                  explorerUrl := "https://sepolia.etherscan.io" |});
    (137, {| chainId := 137; name := "Polygon"; currency := "MATIC"; isTestnet := false;
             rpcUrl := "https://polygon-rpc.com";
             explorerUrl := "https://polygonscan.com" |});
    (80002, {| chainId := 80002; name := "Amoy"; currency := "MATIC"; isTestnet := true;
               rpcUrl := "https://rpc-amoy.polygon.technology";
               explorerUrl := "https://www.oklink.com/amoy" |});
    (56, {| chainId := 56; name := "BNB Chain"; currency := "BNB"; isTestnet := false;
            rpcUrl := "https://bsc-dataseed.binance.org";
            explorerUrl := "https://bscscan.com" |});
    (97, {| chainId := 97; name := "BNB Testnet"; currency := "BNB"; isTestnet := true;
            rpcUrl := "https://data-seed-prebsc-1-s1.binance.org:8545";
            explorerUrl := "https://testnet.bscscan.com" |}) ].

(** [table[key]]: the record of the key, [undefined] when the table has
    no such key. *)
Fixpoint lookup (key : Z) (table : list (Z * NetworkConfig)) : option NetworkConfig :=
  match table with
  | [] => None
  | (k, network) :: rest => if k =? key then Some network else lookup key rest
  end.

(** [getNetwork(chainId)], for a chain id that is an integer. *)
Definition getNetwork (chainId : Z) : completion NetworkConfig :=
  match lookup chainId NETWORKS with
  | Some network => Normal network
  | None => Throw (mkError ("DirectCryptoPay: Unsupported network with chainId "
                              ++ toString chainId)%string)
  end.

End Config.

(* ================================================================== *)
(** * src/core/wallet.ts: the class WalletManager *)
(* ================================================================== *)

Module WalletManager.

(** The chain ids of [mainnet, sepolia, polygon, polygonAmoy, bsc,
    bscTestnet] of [@reown/appkit/networks]. *)
Definition networks : list Z := [1; 11155111; 137; 80002; 56; 97].

(** The options [new WagmiAdapter] is called with.  The adapter, and
    its [wagmiConfig], are known by them. *)
Record WagmiAdapter := {
  adapter_networks : list Z;
  adapter_projectId : string;
  ssr : bool
}.

(** The options [createAppKit] is called with, for the kit it makes. *)
Record AppKit := {
  adapters : list WagmiAdapter;
  kit_networks : list Z;
  kit_projectId : string;
  analytics : bool;
  email : bool;
  socials : list string;
  themeMode : string
}.

(** The libraries behind the manager, [@reown/appkit] and
    [@wagmi/core]: whether a constructor throws, what the account of a
    configuration is, and how each asynchronous call settles. *)
Record Library := {
  newWagmiAdapter : WagmiAdapter -> completion unit;
  createAppKit : AppKit -> completion unit;
  kit_open : AppKit -> completion unit;
  account_isConnected : WagmiAdapter -> bool;
  wagmi_getAccount : WagmiAdapter -> Wallet.Account;
  switchChain : WagmiAdapter -> Z -> completion unit;
  wagmiSendTransaction : WagmiAdapter -> Wallet.Transaction -> completion string;
  waitForTransactionReceipt : WagmiAdapter -> string -> completion string
}.

(** The fields of the manager; each is [null] at first. *)
Record State := {
  adapter : option WagmiAdapter;
  kit : option AppKit;
  wagmiConfig : option WagmiAdapter
}.

Definition fresh : State := {| adapter := None; kit := None; wagmiConfig := None |}.

Definition notInitialized : Error := mkError "WalletManager not initialized".

(** [init(projectId)]: the fields after the call and how it completes.
    A constructor that throws leaves the fields assigned before it. *)
Definition init (lib : Library) (projectId : string) (this : State)
  : State * completion unit :=
  match kit this with
  | Some _ => (this, Normal tt)
  | None =>
      let made := {| adapter_networks := networks;
                     adapter_projectId := projectId;
                     ssr := true |} in
      match newWagmiAdapter lib made with
      | Throw e => (this, Throw e)
      | Normal _ =>
          let options := {| adapters := [made];
                            kit_networks := networks;
                            kit_projectId := projectId;
                            analytics := true;
                            email := false;
                            socials := [];
                            themeMode := "light" |} in
          match createAppKit lib options with
          | Throw e =>
              ({| adapter := Some made; kit := kit this; wagmiConfig := Some made |},
               Throw e)
          | Normal _ =>
              ({| adapter := Some made; kit := Some options; wagmiConfig := Some made |},
               Normal tt)
          end
      end
  end.

(** [connect()] *)
Definition connect (lib : Library) (this : State) : completion unit :=
  match kit this with
  | None => Throw notInitialized
  | Some opened => kit_open lib opened
  end.

(** [getAccount()] *)
Definition getAccount (lib : Library) (this : State) : completion Wallet.Account :=
  match wagmiConfig this with
  | None => Throw notInitialized
  | Some config => Normal (wagmi_getAccount lib config)
  end.

(** [switchNetwork(chainId)] *)
Definition switchNetwork (lib : Library) (this : State) (chainId : Z) : completion unit :=
  match wagmiConfig this with
  | None => Throw notInitialized
  | Some config => switchChain lib config chainId
  end.

(** [sendTransaction(tx)] *)
Definition sendTransaction (lib : Library) (this : State) (tx : Wallet.Transaction)
  : completion string :=
  match wagmiConfig this with
  | None => Throw notInitialized
  | Some config => hash <- wagmiSendTransaction lib config tx ;; Normal hash
  end.

(** [waitForReceipt(hash)] *)
Definition waitForReceipt (lib : Library) (this : State) (hash : string)
  : completion string :=
  match wagmiConfig this with
  | None => Throw notInitialized
  | Some config => waitForTransactionReceipt lib config hash
  end.

(** [isConnected()] *)
Definition isConnected (lib : Library) (this : State) : bool :=
  match wagmiConfig this with
  | None => false
  | Some config => account_isConnected lib config
  end.

(** The manager as the modal calls it. *)
Definition provider (lib : Library) (this : State) : Wallet.Provider :=
  {| Wallet.isConnected := isConnected lib this;
     Wallet.getAccount := getAccount lib this;
     Wallet.connect := connect lib this;
     Wallet.switchNetwork := switchNetwork lib this;
     Wallet.sendTransaction := sendTransaction lib this |}.

End WalletManager.

(* ================================================================== *)
(** * src/ui/index.tsx and the Close button of the modal *)
(* ================================================================== *)

Module Ui.

(** The element with the id [dcp-modal-host]: the modal rendered in
    its shadow root, when it has a shadow root. *)
Record Host := { shadowRoot : option Modal.Component }.

(** The part of the document that the SDK touches: the host element,
    when the body has one. *)
Definition Document : Type := option Host.

(** [element.attachShadow] throws a [DOMException] named
    [NotSupportedError] on an element that has a shadow root already;
    [body.removeChild] throws one named [NotFoundError] for a node that
    is not a child of the body.  The text of the message is the
    browser's; the name stands for it. *)
Definition NotSupportedError : Error := mkError "NotSupportedError".
Definition NotFoundError : Error := mkError "NotFoundError".

(** [mountModal({ toolId, callbacks, onClose })]: the document after
    the call, what the rendered modal did in its first render, and how
    the call completes.  Emptying [innerHTML] of a host that is there
    leaves its shadow root. *)
Definition mountModal (w : Modal.World) (toolId : string) (document : Document)
  : Document * list Modal.Effect * completion unit :=
  let container := match document with
                   | Some host => host
                   | None => {| shadowRoot := None |}
                   end in
  match shadowRoot container with
  | Some _ => (Some container, [], Throw NotSupportedError)
  | None =>
      match Modal.mount w toolId with
      | (component, effects) =>
          (Some {| shadowRoot := Some component |}, effects, Normal tt)
      end
  end.

(** What the page sees of the SDK besides the effects of the modal. *)
Inductive Event :=
| modal (e : Modal.Effect)
| callback_onClose
| console_warn (line : string)
| console_log (line : string).

(** [close()] of the modal: [onClose(); document.body.removeChild(root)],
    where [onClose] is [() => options.callbacks?.onClose?.()]. *)
Definition close (document : Document) : Document * list Event * completion unit :=
  match document with
  | Some _ => (None, [callback_onClose], Normal tt)
  | None => (None, [callback_onClose], Throw NotFoundError)
  end.

End Ui.

(* ================================================================== *)
(** * The class DCP *)
(* ================================================================== *)

Module DCP.

(** The singletons [config] and [walletManager], and the document. *)
Record Sdk := {
  config : Config.State;
  walletManager : WalletManager.State;
  document : Ui.Document
}.

Definition loaded : Sdk :=
  {| config := Config.uninitialized;
     walletManager := WalletManager.fresh;
     document := None |}.

(** What the SDK runs against: the wallet libraries, the server (for
    its answers; the address asked is that of the configuration), the
    chain and the checksum of addresses. *)
Record Platform := {
  library : WalletManager.Library;
  server : Api.Network;
  chain : Logic.Chain;
  checksumAddress : string -> string
}.

(** The world of a modal opened on the SDK in the state [sdk]. *)
Definition world (p : Platform) (sdk : Sdk) : Modal.World :=
  {| Modal.net :=
       {| Api.apiUrl := option_map Config.apiUrl (config sdk);
          Api.fetch_tool := Api.fetch_tool (server p);
          Api.fetch_intent := Api.fetch_intent (server p);
          Api.fetch_submit := Api.fetch_submit (server p);
          Api.fetch_status := Api.fetch_status (server p) |};
     Modal.wallet := WalletManager.provider (library p) (walletManager sdk);
     Modal.chain := chain p;
     Modal.checksumAddress := checksumAddress p |}.

(** [init(initConfig)] *)
Definition init (p : Platform) (initConfig : Config.DCPInitConfig) (sdk : Sdk)
  : Sdk * list Ui.Event * completion unit :=
  if Config.isInitialized (config sdk)
  then (sdk, [Ui.console_warn "DirectCryptoPay: SDK already initialized"], Normal tt)
  else
    let configured := Config.init initConfig (config sdk) in
    match WalletManager.init (library p) (Config.init_projectId initConfig)
            (walletManager sdk) with
    | (manager, Throw e) =>
        ({| config := configured; walletManager := manager; document := document sdk |},
         [], Throw e)
    | (manager, Normal _) =>
        ({| config := configured; walletManager := manager; document := document sdk |},
         [Ui.console_log "DirectCryptoPay: SDK Initialized"], Normal tt)
    end.

(** [pay(options)], for the [toolId] of the options. *)
Definition pay (p : Platform) (toolId : string) (sdk : Sdk)
  : Sdk * list Ui.Event * completion unit :=
  if negb (Config.isInitialized (config sdk))
  then (sdk, [],
        Throw (mkError "DirectCryptoPay: SDK not initialized. Call DCP.init() first"))
  else
    match Ui.mountModal (world p sdk) toolId (document sdk) with
    | (doc, effects, r) =>
        ({| config := config sdk; walletManager := walletManager sdk; document := doc |},
         map Ui.modal effects, r)
    end.

(** The Close button of the modal that is open. *)
Definition close (sdk : Sdk) : Sdk * list Ui.Event * completion unit :=
  match Ui.close (document sdk) with
  | (doc, events, r) =>
      ({| config := config sdk; walletManager := walletManager sdk; document := doc |},
       events, r)
  end.

End DCP.

(* ================================================================== *)
(** * HMAC-SHA256 (FIPS 180-4, RFC 2104) *)
(* ================================================================== *)

(** The platform function behind the webhook signature
    ([crypto.subtle.sign('HMAC', key, payload)] in the test of the
    repository).  Words are integers below [2^32], bytes integers below
    [256]. *)
Module Sha256.

Definition w32 (x : Z) : Z := x mod 2 ^ 32.
Definition rotr (n x : Z) : Z := Z.lor (Z.shiftr x n) (w32 (Z.shiftl x (32 - n))).
Definition shr (n x : Z) : Z := Z.shiftr x n.
Definition not32 (x : Z) : Z := Z.lxor x 0xffffffff.

Definition Ch (x y z : Z) : Z := Z.lxor (Z.land x y) (Z.land (not32 x) z).
Definition Maj (x y z : Z) : Z :=
  Z.lxor (Z.lxor (Z.land x y) (Z.land x z)) (Z.land y z).
Definition Sigma0 (x : Z) : Z := Z.lxor (Z.lxor (rotr 2 x) (rotr 13 x)) (rotr 22 x).
Definition Sigma1 (x : Z) : Z := Z.lxor (Z.lxor (rotr 6 x) (rotr 11 x)) (rotr 25 x).
Definition sigma0 (x : Z) : Z := Z.lxor (Z.lxor (rotr 7 x) (rotr 18 x)) (shr 3 x).
Definition sigma1 (x : Z) : Z := Z.lxor (Z.lxor (rotr 17 x) (rotr 19 x)) (shr 10 x).

(** The constants are the first 32 bits of the fractional parts of the
    cube roots (for [K]) and of the square roots (for [H0]) of the first
    prime numbers. *)
Definition isPrime (n : nat) : bool :=
  forallb (fun d => negb (Nat.eqb (n mod d) 0)) (seq 2 (n - 2)).

Definition primes (count : nat) : list Z :=
  map Z.of_nat (firstn count (filter isPrime (seq 2 320))).

(** The largest [r' >= r], built from the bits below [bit], whose
    [power]-th power is at most [n]. *)
Fixpoint root (power : Z) (bit : nat) (n r : Z) : Z :=
  match bit with
  | O => r
  | S bit' =>
      let candidate := r + 2 ^ Z.of_nat bit' in
      root power bit' n (if candidate ^ power <=? n then candidate else r)
  end.

Definition fractionBits (power p : Z) : Z :=
  w32 (root power 40 (p * 2 ^ (32 * power)) 0).

Definition K : list Z := map (fractionBits 3) (primes 64).
Definition H0 : list Z := map (fractionBits 2) (primes 8).

(** Big-endian bytes of a number, [n] of them. *)
Fixpoint bigEndian (n : nat) (x : Z) : list Z :=
  match n with
  | O => []
  | S n' => bigEndian n' (x / 256) ++ [x mod 256]
  end.

Fixpoint fromBigEndian (bytes : list Z) (acc : Z) : Z :=
  match bytes with
  | [] => acc
  | b :: rest => fromBigEndian rest (acc * 256 + b)
  end.

(** The message, the bit 1, zeros up to 56 modulo 64, the bit length. *)
Definition pad (message : list Z) : list Z :=
  let l := Z.of_nat (List.length message) in
  let zeros := Z.to_nat ((55 - l) mod 64) in
  message ++ [0x80] ++ List.repeat 0 zeros ++ bigEndian 8 (8 * l).

Fixpoint chunks (count size : nat) (l : list Z) : list (list Z) :=
  match count with
  | O => []
  | S count' => firstn size l :: chunks count' size (skipn size l)
  end.

(** The message schedule: [w] holds the last sixteen words, oldest
    first; [n] more words are appended. *)
Fixpoint extend (n : nat) (w : list Z) : list Z :=
  match n with
  | O => []
  | S n' =>
      let next := w32 (sigma1 (nth 14 w 0) + nth 9 w 0 + sigma0 (nth 1 w 0) + nth 0 w 0) in
      next :: extend n' (skipn 1 w ++ [next])
  end.

Definition schedule (block : list Z) : list Z :=
  let w := map (fun word => fromBigEndian word 0) (chunks 16 4 block) in
  w ++ extend 48 w.

Definition round (s : list Z) (kw : Z * Z) : list Z :=
  match s with
  | [a; b; c; d; e; f; g; h] =>
      let t1 := h + Sigma1 e + Ch e f g + fst kw + snd kw in
      let t2 := Sigma0 a + Maj a b c in
      [w32 (t1 + t2); a; b; c; w32 (d + t1); e; f; g]
  | _ => s
  end.

Definition compress (h : list Z) (block : list Z) : list Z :=
  let s := fold_left round (combine K (schedule block)) h in
  map (fun p => w32 (fst p + snd p)) (combine h s).

Definition sha256 (message : list Z) : list Z :=
  let padded := pad message in
  let blocks := chunks (List.length padded / 64) 64 padded in
  flat_map (bigEndian 4) (fold_left compress blocks H0).

(** RFC 2104 with a block of 64 bytes. *)
Definition hmac (key message : list Z) : list Z :=
  let key := if (64 <? List.length key)%nat then sha256 key else key in
  let key := key ++ List.repeat 0 (64 - List.length key) in
  let ipad := map (Z.lxor 0x36) key in
  let opad := map (Z.lxor 0x5c) key in
  sha256 (opad ++ sha256 (ipad ++ message)).

(** The bytes of a text ([TextEncoder.encode]; a [string] here is its
    UTF-8 bytes already). *)
Definition bytesOf (s : string) : list Z :=
  map (fun c => Z.of_nat (nat_of_ascii c)) (list_ascii_of_string s).

Definition hexDigit (d : Z) : ascii :=
  ascii_of_nat (Z.to_nat (if d <? 10 then 48 + d else 87 + d)).

(** [bytes.map(b => b.toString(16).padStart(2, '0')).join('')] *)
Fixpoint hex (bytes : list Z) : string :=
  match bytes with
  | [] => EmptyString
  | b :: rest => String (hexDigit (b / 16 mod 16)) (String (hexDigit (b mod 16)) (hex rest))
  end.

End Sha256.

(* ================================================================== *)
(** * The webhook verifier *)
(* ================================================================== *)

Module Webhook.

(** Modelled from the spec: the source of [verifyWebhookSignature] is
    not among the files (only its test and its documentation are), so
    every definition of this module follows section 4.4 of the
    specification.  A [key=value] pair: the text before the first [=]
    and the text after it. *)
Definition parsePair (piece : string) : option (string * string) :=
  match Str.indexOf "=" piece with
  | Some i => Some (String.substring 0 i piece, Str.sliceFrom (S i) piece)
  | None => None
  end.

(** Modelled from the spec: the pairs of the pieces of a header; a piece
    without [=] makes the header non-conforming. *)
Fixpoint parsePairs (pieces : list string) : option (list (string * string)) :=
  match pieces with
  | [] => Some []
  | piece :: rest =>
      match parsePair piece, parsePairs rest with
      | Some kv, Some kvs => Some (kv :: kvs)
      | _, _ => None
      end
  end.

(** Modelled from the spec: the value of the first pair with the key. *)
Fixpoint field (key : string) (pairs : list (string * string)) : option string :=
  match pairs with
  | [] => None
  | (k, v) :: rest => if String.eqb k key then Some v else field key rest
  end.

(** Modelled from the spec: a decimal integer is digits, after an
    optional minus sign. *)
Definition isDecimalInteger (s : string) : bool :=
  let digits := if String.prefix "-" s then Str.sliceFrom 1 s else s in
  andb (negb (String.eqb digits EmptyString)) (Str.all Str.isDigit digits).

(** Modelled from the spec: the digits of lowercase hex. *)
Definition isLowerHexDigit (c : ascii) : bool :=
  let n := nat_of_ascii c in
  orb (andb (48 <=? n)%nat (n <=? 57)%nat) (andb (97 <=? n)%nat (n <=? 102)%nat).

(** Modelled from the spec: a lowercase hex string, not empty. *)
Definition isLowerHex (s : string) : bool :=
  andb (negb (String.eqb s EmptyString)) (Str.all isLowerHexDigit s).

(** Modelled from the spec: [WebhookEnvelope], the timestamp, as written
    in the header and as a number, and the signature. *)
Record WebhookEnvelope := {
  t_text : string;
  t : Z;
  v1 : string
}.

(** Modelled from the spec: step 1 of the verifier, whose source is not
    among the files.  The header is comma-separated [key=value] pairs
    and must have a [t] that is a decimal integer and a [v1] that is a
    lowercase hex string. *)
Definition parseSignatureHeader (signatureHeader : string) : option WebhookEnvelope :=
  match parsePairs (Str.split "," signatureHeader) with
  | None => None
  | Some pairs =>
      match field "t" pairs, field "v1" pairs with
      | Some tText, Some sig =>
          if andb (isDecimalInteger tText) (isLowerHex sig) then
            match DecimalString.NilZero.int_of_string tText with
            | Some d => Some {| t_text := tText; t := Z.of_int d; v1 := sig |}
            | None => None
            end
          else None
      | _, _ => None
      end
  end.

(** Modelled from the spec: step 2, the expected signature, lowercase
    hex of the HMAC-SHA256 of the timestamp, a point and the raw body
    under the secret. *)
Definition expectedSignature (secret tText rawBody : string) : string :=
  Sha256.hex (Sha256.hmac (Sha256.bytesOf secret)
                          (Sha256.bytesOf (tText ++ "." ++ rawBody)%string)).

(** Modelled from the spec: the accumulator of the comparison of step
    3, the bitwise or of the differences of the characters at the same
    place. *)
Fixpoint differences (a b : string) (acc : N) : N :=
  match a, b with
  | String x a', String y b' =>
      differences a' b' (N.lor acc (N.lxor (N_of_ascii x) (N_of_ascii y)))
  | _, _ => acc
  end.

(** Modelled from the spec: step 3, a comparison that looks at every
    character whatever the place of the first difference, and rejects
    two strings of different lengths. *)
Definition constantTimeEqual (a b : string) : bool :=
  andb (String.length a =? String.length b)%nat (N.eqb (differences a b 0) 0).

(** Modelled from the spec: [verifyWebhookSignature({ rawBody,
    signatureHeader, secret, toleranceSec })] at the time [now] (unix
    seconds): both the signature and the replay window must pass, and
    every failure resolves to [false].  The result is the settlement of
    the promise it returns. *)
Definition verifyWebhookSignature (now : Z) (rawBody signatureHeader secret : string)
  (toleranceSec : option Z) : completion bool :=
  let toleranceSeconds := match toleranceSec with Some s => s | None => 300 end in
  match parseSignatureHeader signatureHeader with
  | None => Normal false
  | Some envelope =>
      let expected := expectedSignature secret (t_text envelope) rawBody in
      let signatureValid := constantTimeEqual expected (v1 envelope) in
      let withinWindow := Z.abs (now - t envelope) <=? toleranceSeconds in
      Normal (andb signatureValid withinWindow)
  end.

(** The header for a body signed at [timestamp], as the test of the
    repository builds it: [`t=${timestamp},v1=${sigHex}`]. *)
Definition signedHeader (secret rawBody : string) (timestamp : Z) : string :=
  ("t=" ++ toString timestamp ++ ",v1="
     ++ expectedSignature secret (toString timestamp) rawBody)%string.

End Webhook.

(* ================================================================== *)
(** * Vocabulary of the properties *)
(* ================================================================== *)

Module Spec.

(** The order along a run of the sort: [R] for an ascending run, its
    converse for a descending one. *)
Definition along {A : Type} (R : A -> A -> Prop) (isDescending : bool) (x y : A) : Prop :=
  if isDescending then R y x else R x y.

(** The read that [fetchTokenBalances] makes for a token. *)
Definition reads (chain : Logic.Chain) (walletAddress : string) (chainId : Z)
  (token : TokenConfig) : completion Z :=
  if isNative token
  then Logic.getBalance chain walletAddress chainId
  else Logic.readContract_balanceOf chain (address token) walletAddress chainId.

(** The entry reported for a token whose read failed. *)
Definition zeroEntry (token : TokenConfig) : TokenWithBalance :=
  {| config := token; balance := "0"; balanceFormatted := "0"; hasBalance := false |}.

(** The entry reported for a token whose read gave [z]. *)
Definition entryOf (token : TokenConfig) (z : Z) : TokenWithBalance :=
  {| config := token;
     balance := toString z;
     balanceFormatted := Viem.formatUnits z (decimals token);
     hasBalance := z >? 0 |}.

(** The entry of a token, whatever its read did. *)
Definition settled (chain : Logic.Chain) (walletAddress : string) (chainId : Z)
  (token : TokenConfig) : TokenWithBalance :=
  match reads chain walletAddress chainId token with
  | Normal z => entryOf token z
  | Throw _ => zeroEntry token
  end.

(** The line on the console for a token whose read failed with [e]. *)
Definition failureLine (token : TokenConfig) (e : Error) : Logic.ConsoleError :=
  {| Logic.text := ("Failed to fetch balance for " ++ symbol token ++ ":")%string;
     Logic.logged := e |}.

(** The integer that [BigInt(t.balance)] gives, for a balance it reads. *)
Definition balanceValue (t : TokenWithBalance) : Z :=
  match BigInt (balance t) with
  | Normal z => z
  | Throw _ => 0
  end.

Definition readable (t : TokenWithBalance) : Prop :=
  exists z, BigInt (balance t) = Normal z.

(** The answer of the comparator on two entries with readable balances. *)
Definition rankCompare (a b : TokenWithBalance) : Z :=
  if andb (hasBalance a) (negb (hasBalance b)) then -1
  else if andb (negb (hasBalance a)) (hasBalance b) then 1
  else if andb (hasBalance a) (hasBalance b) then
    if balanceValue b >? balanceValue a then 1 else -1
  else 0.

(** The ranking rule: [a] may stand before [b] when [b] has no balance,
    or both have one and that of [a] is not the smaller. *)
Definition precedes (a b : TokenWithBalance) : Prop :=
  hasBalance b = false
  \/ (hasBalance a = true /\ hasBalance b = true /\ balanceValue b <= balanceValue a).

(** The text of a decimal amount: a minus sign when it is negative, the
    digits of its integer part and, when it has a point, the point and
    the digits of its fraction. *)
Definition decimalText (negative : bool) (integer : string) (fraction : option string)
  : string :=
  ((if negative then "-" else EmptyString) ++ integer
     ++ match fraction with
        | Some digits => "." ++ digits
        | None => EmptyString
        end)%string.

Definition fractionOf (fraction : option string) : string :=
  match fraction with
  | Some digits => digits
  | None => EmptyString
  end.

(** [n] is the amount times [10^decimals], exactly: with [k] digits in
    the fraction, the amount is the integer written by all its digits,
    over [10^k]. *)
Definition exactUnits (negative : bool) (integer : string) (fraction : option string)
  (decimals : nat) (n : Z) : Prop :=
  n * 10 ^ Z.of_nat (String.length (fractionOf fraction))
  = (if negative then -1 else 1)
    * Viem.digitsValue (integer ++ fractionOf fraction)
    * 10 ^ Z.of_nat decimals.

(** The hooks after the [catch] block of a handler ran for an error
    with the message [msg]. *)
Definition failedWith (h : Modal.Hooks) (msg : string) : Modal.Hooks :=
  {| Modal.state := Modal.ERROR;
     Modal.toolData := Modal.toolData h;
     Modal.tokens := Modal.tokens h;
     Modal.selectedToken := Modal.selectedToken h;
     Modal.error := Some msg;
     Modal.txHash := Modal.txHash h |}.

(** The hooks with another state. *)
Definition inState (h : Modal.Hooks) (s : Modal.PaymentState) : Modal.Hooks :=
  {| Modal.state := s;
     Modal.toolData := Modal.toolData h;
     Modal.tokens := Modal.tokens h;
     Modal.selectedToken := Modal.selectedToken h;
     Modal.error := Modal.error h;
     Modal.txHash := Modal.txHash h |}.

(** What [sendPayment] does to the outside and how it completes; it
    leaves the hooks as they are. *)
Definition broadcastEffects (w : Modal.World) (token : TokenWithBalance)
  (intent : BackendIntentResponse) (wei : Z) (tool : ToolData) : list Modal.Effect :=
  snd (fst (Modal.sendPayment w token intent wei tool Modal.initial)).

Definition broadcast (w : Modal.World) (token : TokenWithBalance)
  (intent : BackendIntentResponse) (wei : Z) (tool : ToolData) : completion string :=
  snd (Modal.sendPayment w token intent wei tool Modal.initial).

(** The request that [handlePay] submits for a broadcast transaction. *)
Definition submission (id : string) (tool : ToolData) (intent : BackendIntentResponse)
  (wei : Z) (hash : string) : Api.SubmitPaymentRequest :=
  {| Api.tx_hash := hash;
     Api.req_chain_id := chain_id tool;
     Api.amount_wei := toString wei;
     Api.token_address := tokenAddress intent;
     Api.recipient := merchantAddress intent;
     Api.metadata_toolId := id |}.


(** What one status request that is answered [pending] does. *)
Definition pendingRound (paymentId id : string) : list Modal.Effect :=
  [Modal.api_getPaymentStatus paymentId id; Modal.setTimeout_poll].

(** The hooks of [handlePay] once the transaction was broadcast with
    [hash]: [setTxHash(hash)] and [setState('POLLING')]. *)
Definition submitted (h : Modal.Hooks) (hash : string) : Modal.Hooks :=
  {| Modal.state := Modal.POLLING;
     Modal.toolData := Modal.toolData h;
     Modal.tokens := Modal.tokens h;
     Modal.selectedToken := Modal.selectedToken h;
     Modal.error := Modal.error h;
     Modal.txHash := Some hash |}.

(** The hooks of [checkBalances] when it ends with the list
    [balances]. *)
Definition offered (h : Modal.Hooks) (balances : list TokenWithBalance) : Modal.Hooks :=
  {| Modal.state := Modal.SELECT_TOKEN;
     Modal.toolData := Modal.toolData h;
     Modal.tokens := balances;
     Modal.selectedToken := Modal.defaultToken balances;
     Modal.error := Modal.error h;
     Modal.txHash := Modal.txHash h |}.

(** The hooks of [loadTool] once the tool is fetched. *)
Definition loadedTool (h : Modal.Hooks) (data : ToolData) (s : Modal.PaymentState)
  : Modal.Hooks :=
  {| Modal.state := s;
     Modal.toolData := Some data;
     Modal.tokens := Modal.tokens h;
     Modal.selectedToken := Modal.selectedToken h;
     Modal.error := Modal.error h;
     Modal.txHash := Modal.txHash h |}.

(** How many of the effects are of a kind. *)
Definition occurrences (kind : Modal.Effect -> bool) (effects : list Modal.Effect) : nat :=
  List.length (filter kind effects).

Definition isOnError (e : Modal.Effect) : bool :=
  match e with Modal.onError _ => true | _ => false end.

(** What the user and the platform make the modal do: the effect that
    loads the tool, the Connect button, a tick of the interval, the Pay
    button (with the number of status requests that are followed), a
    click on a token, the Retry button. *)
Inductive Action :=
| Load
| Connect
| Tick
| Pay (polls : nat)
| Select (t : TokenWithBalance)
| Retry.

Definition handler (w : Modal.World) (id : string) (a : Action) : Modal.M unit :=
  match a with
  | Load => Modal.loadTool w id
  | Connect => Modal.connectWallet w
  | Tick => Modal.tick w
  | Pay polls => Modal.handlePay w id polls
  | Select t => Modal.selectToken t
  | Retry => Modal.retry
  end.

(** The hooks after the actions, each run to its end before the next,
    each in the world of its time. *)
Fixpoint after (id : string) (steps : list (Modal.World * Action)) (h : Modal.Hooks)
  : Modal.Hooks :=
  match steps with
  | [] => h
  | (w, a) :: rest => after id rest (fst (fst (handler w id a h)))
  end.

(** What holds of the hooks however the modal was driven. *)
Definition consistent (h : Modal.Hooks) : Prop :=
  Modal.state h <> Modal.REVIEW
  /\ (Modal.state h = Modal.ERROR -> Modal.error h <> None)
  /\ (Modal.state h <> Modal.FETCHING_TOOL -> Modal.state h <> Modal.ERROR ->
      Modal.toolData h <> None)
  /\ (Modal.state h = Modal.POLLING \/ Modal.state h = Modal.SUCCESS ->
      Modal.txHash h <> None /\ Modal.selectedToken h <> None).

End Spec.

(* ================================================================== *)
(** * Sample data *)
(* ================================================================== *)

Module Sample.

Definition erc20 (sym addr : string) (digits : nat) : TokenConfig :=
  {| symbol := sym; name := sym; address := Some addr; decimals := digits;
     isNative := false |}.

Definition ETH : TokenConfig :=
  {| symbol := "ETH"; name := "Ether"; address := None; decimals := 18;
     isNative := true |}.
Definition USDC : TokenConfig := erc20 "USDC" "0xa0b86991c6218b36c1d19d4a2e9eb0ce3606eb48" 6.
Definition USDT : TokenConfig := erc20 "USDT" "0xdac17f958d2ee523a2206206994597c13d831ec7" 6.
Definition DAI : TokenConfig := erc20 "DAI" "0x6b175474e89094c44da98b954eedeac495271d0f" 18.

Definition account : string := "0x52908400098527886e0f7030069857d2e4169ee7".

(** A chain on which the account holds 100 base units of USDC and of
    USDT and no ether, and the contract of DAI does not answer. *)
Definition chain : Logic.Chain :=
  {| Logic.getBalance := fun _ _ => Normal 0;
     Logic.readContract_balanceOf := fun contract _ _ =>
       match contract with
       | Some a =>
           if String.eqb a "0x6b175474e89094c44da98b954eedeac495271d0f"
           then Throw (mkError "execution reverted")
           else Normal 100
       | None => Throw (mkError "invalid address")
       end |}.

(** The balance list of the scenario of the specification: A and C hold
    nothing, B holds 100. *)
Definition A : TokenConfig := erc20 "A" "0x000000000000000000000000000000000000000a" 6.
Definition B : TokenConfig := erc20 "B" "0x000000000000000000000000000000000000000b" 6.
Definition C : TokenConfig := erc20 "C" "0x000000000000000000000000000000000000000c" 6.

Definition chainABC : Logic.Chain :=
  {| Logic.getBalance := fun _ _ => Normal 0;
     Logic.readContract_balanceOf := fun contract _ _ =>
       match contract with
       | Some a =>
           if String.eqb a "0x000000000000000000000000000000000000000b"
           then Normal 100 else Normal 0
       | None => Throw (mkError "invalid address")
       end |}.

(** A tool payable in ether, USDC or USDT on chain 1, and the intent
    the server issues for USDT. *)
Definition merchant : string := "0x8ba1f109551bd432803012645ac136ddd64dba72".

Definition tool : ToolData :=
  {| tool_id := "tool_1"; tool_amount := "49.99"; currency_id := "USD";
     chain_id := 1; recipient_address := merchant;
     available_tokens := [ETH; USDC; USDT];
     metadata_name := "Order"; metadata_type := "checkout" |}.

Definition intent : BackendIntentResponse :=
  {| intent_id := "pi_1"; amount := "49.99"; currency := "USDT";
     intent_chainId := 1;
     tokenAddress := "0xdac17f958d2ee523a2206206994597c13d831ec7";
     merchantAddress := merchant;
     expiresAt := "2030-01-01T00:00:00Z"; signature := "0xsig"; nonce := "1" |}.

Definition answer {T : Type} (body : T) : completion (Api.Response T) :=
  Normal {| Api.ok := true; Api.statusText := "OK"; Api.json := Normal body |}.

Definition statusRecord (s : Api.Status) : Api.PaymentStatusResponse :=
  {| Api.status_payment_id := "pay_1"; Api.status_tx_hash := "0xabc";
     Api.status_chain_id := 1; Api.status := s; Api.verified_at := None |}.

(** A server that answers every request; the status is [pending] twice,
    then what [third] says. *)
Definition server (third : completion (Api.Response Api.PaymentStatusResponse))
  : Api.Network :=
  {| Api.apiUrl := Some "https://api.directcryptopay.com";
     Api.fetch_tool := fun _ => answer tool;
     Api.fetch_intent := fun _ _ => answer intent;
     Api.fetch_submit := fun _ _ _ =>
       answer {| Api.payment_id := "pay_1"; Api.submitted_tx_hash := "0xabc";
                 Api.submitted_status := Api.pending;
                 Api.submitted_message := "received" |};
     Api.fetch_status := fun asked _ _ =>
       if (asked <? 2)%nat then answer (statusRecord Api.pending) else third |}.

(** A server that is down for the tool lookup. *)
Definition serverDown : Api.Network :=
  {| Api.apiUrl := Some "https://api.directcryptopay.com";
     Api.fetch_tool := fun _ => Throw (mkError "Failed to fetch");
     Api.fetch_intent := fun _ _ => Throw (mkError "Failed to fetch");
     Api.fetch_submit := fun _ _ _ => Throw (mkError "Failed to fetch");
     Api.fetch_status := fun _ _ _ => Throw (mkError "Failed to fetch") |}.

Definition connected : Wallet.Provider :=
  {| Wallet.isConnected := true;
     Wallet.getAccount := Normal {| Wallet.account_address := account;
                                    Wallet.account_chainId := 137 |};
     Wallet.connect := Normal tt;
     Wallet.switchNetwork := fun _ => Normal tt;
     Wallet.sendTransaction := fun _ => Normal "0xabc" |}.

Definition world (net : Api.Network) : Modal.World :=
  {| Modal.net := net; Modal.wallet := connected; Modal.chain := chain;
     Modal.checksumAddress := fun a => a |}.

(** The modal after its first render, with the server up. *)
Definition opened : Modal.Component :=
  fst (Modal.mount (world (server (answer (statusRecord Api.confirmed)))) "tool_1").

(** The transaction of that payment: [transfer(merchant, 49990000)] on
    the contract of USDT. *)
Definition payment : Wallet.Transaction :=
  {| Wallet.to := "0xdac17f958d2ee523a2206206994597c13d831ec7";
     Wallet.value := None;
     Wallet.data :=
       Some ("0xa9059cbb"
               ++ "0000000000000000000000008ba1f109551bd432803012645ac136ddd64dba72"
               ++ "0000000000000000000000000000000000000000000000000000000002fac970")%string;
     Wallet.chainId := 1 |}.


(** The webhook of the scenario of the specification: the secret, the
    body [{"event":"payment.succeeded","data":{"id":"pi_test"}}] and a
    signing time. *)
Definition webhookSecret : string := "test_secret_123".

Definition quote : string := String (ascii_of_nat 34) EmptyString.

Definition webhookBody : string :=
  ("{" ++ quote ++ "event" ++ quote ++ ":" ++ quote ++ "payment.succeeded" ++ quote
     ++ "," ++ quote ++ "data" ++ quote ++ ":{" ++ quote ++ "id" ++ quote ++ ":"
     ++ quote ++ "pi_test" ++ quote ++ "}}")%string.

Definition signedAt : Z := 1700000000.

Definition isErrorCallback (e : Modal.Effect) : bool :=
  match e with
  | Modal.onError _ => true
  | _ => false
  end.

Definition isToolRequest (e : Modal.Effect) : bool :=
  match e with
  | Modal.api_fetchTool _ => true
  | _ => false
  end.

(** A tool that offers no token. *)
Definition toolWithoutTokens : ToolData :=
  {| tool_id := "tool_3"; tool_amount := "5"; currency_id := "USD";
     chain_id := 137; recipient_address := merchant;
     available_tokens := [];
     metadata_name := "Order"; metadata_type := "checkout" |}.

(** The wallet libraries, with an account connected on chain 137. *)
Definition library : WalletManager.Library :=
  {| WalletManager.newWagmiAdapter := fun _ => Normal tt;
     WalletManager.createAppKit := fun _ => Normal tt;
     WalletManager.kit_open := fun _ => Normal tt;
     WalletManager.account_isConnected := fun _ => true;
     WalletManager.wagmi_getAccount := fun _ =>
       {| Wallet.account_address := account; Wallet.account_chainId := 137 |};
     WalletManager.switchChain := fun _ _ => Normal tt;
     WalletManager.wagmiSendTransaction := fun _ _ => Normal "0xabc";
     WalletManager.waitForTransactionReceipt := fun _ _ => Normal "receipt" |}.

(** The same libraries when [createAppKit] throws. *)
Definition libraryWithoutKit : WalletManager.Library :=
  {| WalletManager.newWagmiAdapter := fun _ => Normal tt;
     WalletManager.createAppKit := fun _ => Throw (mkError "Invalid project id");
     WalletManager.kit_open := fun _ => Normal tt;
     WalletManager.account_isConnected := fun _ => false;
     WalletManager.wagmi_getAccount := fun _ =>
       {| Wallet.account_address := account; Wallet.account_chainId := 137 |};
     WalletManager.switchChain := fun _ _ => Normal tt;
     WalletManager.wagmiSendTransaction := fun _ _ => Normal "0xabc";
     WalletManager.waitForTransactionReceipt := fun _ _ => Normal "receipt" |}.

Definition platform : DCP.Platform :=
  {| DCP.library := library;
     DCP.server := server (answer (statusRecord Api.confirmed));
     DCP.chain := chain;
     DCP.checksumAddress := fun a => a |}.

Definition initConfig : Config.DCPInitConfig :=
  {| Config.init_apiUrl := None;
     Config.init_widgetUrl := None;
     Config.init_projectId := "project_1";
     Config.init_env := Some Config.test;
     Config.init_defaultChainId := None;
     Config.init_gasWarningThreshold := Some 0 |}.

(** The SDK after [DCP.init(initConfig)]. *)
Definition ready : DCP.Sdk := fst (fst (DCP.init platform initConfig DCP.loaded)).

End Sample.

(* ================================================================== *)
(** * Properties *)
(* ================================================================== *)

(** ** The sort, for a comparator that answers on the elements it is
       given and is compatible with a preorder *)

Section SortSpec.

Context {A : Type}.
Variable comparefn : A -> A -> completion Z.
Variable c : A -> A -> Z.
Variable P : A -> Prop.
Variable R : A -> A -> Prop.

Hypothesis answers : forall x y, P x -> P y -> comparefn x y = Normal (c x y).
Hypothesis R_trans : forall x y z, R x y -> R y z -> R x z.
Hypothesis before : forall x y, c x y < 0 -> R x y.
Hypothesis notBefore : forall x y, 0 <= c x y -> R y x.

Lemma sorted_insert (l1 l2 : list A) (p : A) :
  StronglySorted R (l1 ++ l2) ->
  Forall (fun x => R x p) l1 -> Forall (R p) l2 ->
  StronglySorted R (l1 ++ p :: l2).
Proof.
  induction l1 as [|a l1 IH]; simpl; intros Hs H1 H2.
  - constructor; assumption.
  - inversion Hs as [|? ? Hs' Ha]; subst.
    inversion H1 as [|? ? Hap H1']; subst.
    constructor.
    + apply IH; assumption.
    + apply Forall_app in Ha. destruct Ha as [Ha1 Ha2].
      apply Forall_app. split; [assumption|].
      constructor; assumption.
Qed.

Lemma sorted_around (l : list A) (d : A) (i : nat) :
  StronglySorted R l -> (i < List.length l)%nat ->
  Forall (fun x => R x (nth i l d)) (firstn i l)
  /\ Forall (R (nth i l d)) (skipn (S i) l).
Proof.
  intros Hs. revert i.
  induction Hs as [|a l Hs IH Ha]; intros i Hi; simpl in Hi; [lia|].
  destruct i as [|i]; simpl.
  - split; [constructor | assumption].
  - destruct (IH i ltac:(lia)) as [H1 H2]. split; [|assumption].
    constructor; [|assumption].
    rewrite Forall_forall in Ha. apply Ha. apply nth_In. lia.
Qed.

Lemma firstn_succ_nth (l : list A) (d : A) (i : nat) :
  (i < List.length l)%nat -> firstn (S i) l = firstn i l ++ [nth i l d].
Proof.
  revert i. induction l as [|a l IH]; intros i Hi; simpl in Hi; [lia|].
  destruct i as [|i]; [reflexivity|].
  change (firstn (S (S i)) (a :: l)) with (a :: firstn (S i) l).
  rewrite (IH i) by lia. reflexivity.
Qed.

Lemma skipn_nth_cons (l : list A) (d : A) (i : nat) :
  (i < List.length l)%nat -> skipn i l = nth i l d :: skipn (S i) l.
Proof.
  revert i. induction l as [|a l IH]; intros i Hi; simpl in Hi; [lia|].
  destruct i as [|i]; [reflexivity|].
  change (skipn (S i) (a :: l)) with (skipn i l).
  rewrite (IH i) by lia. reflexivity.
Qed.

Lemma mid_bounds (left right : nat) :
  (left < right)%nat -> (left <= left + Nat.div2 (right - left) < right)%nat.
Proof.
  intros H. pose proof (Nat.lt_div2 (right - left) ltac:(lia)) as Hd.
  remember (Nat.div2 (right - left)) as d. lia.
Qed.

(** The binary search answers, inside the interval, and the pivot
    fits at the place it answers. *)
Lemma findInsertionPoint_spec (fuel : nat) (pivot : A) (sorted : list A) :
  P pivot -> Forall P sorted -> StronglySorted R sorted ->
  forall left right,
    (left <= right <= List.length sorted)%nat -> (right - left <= fuel)%nat ->
    Forall (fun x => R x pivot) (firstn left sorted) ->
    Forall (R pivot) (skipn right sorted) ->
    exists k,
      V8.findInsertionPoint comparefn fuel pivot sorted left right = Normal k
      /\ (left <= k <= right)%nat
      /\ Forall (fun x => R x pivot) (firstn k sorted)
      /\ Forall (R pivot) (skipn k sorted).
Proof.
  intros Hp HP Hs.
  induction fuel as [|fuel IH]; intros left right Hlr Hfuel Hl Hr; simpl.
  - assert (left = right) by lia. subst right.
    exists left. repeat split; try lia; assumption.
  - destruct (Nat.ltb_spec left right) as [Hlt|Hge].
    + set (mid := (left + Nat.div2 (right - left))%nat).
      assert (Hmid : (left <= mid < right)%nat).
      { apply mid_bounds. assumption. }
      assert (Hin : P (nth mid sorted pivot)).
      { rewrite Forall_forall in HP. apply HP. apply nth_In. lia. }
      rewrite (answers _ _ Hp Hin). simpl.
      destruct (sorted_around sorted pivot mid Hs ltac:(lia)) as [Hb Ha].
      destruct (Z.ltb_spec (c pivot (nth mid sorted pivot)) 0) as [Hneg|Hpos].
      * destruct (IH left mid ltac:(lia) ltac:(lia) Hl) as (k & Hk & Hk1 & Hk2).
        { rewrite (skipn_nth_cons sorted pivot mid) by lia.
          constructor; [apply before; assumption|].
          eapply Forall_impl; [|exact Ha]. intros y Hy.
          eapply R_trans; [apply before; eassumption | exact Hy]. }
        exists k. repeat split; try lia; tauto.
      * destruct (IH (S mid) right ltac:(lia) ltac:(lia)) as (k & Hk & Hk1 & Hk2);
          [| assumption |].
        { rewrite (firstn_succ_nth sorted pivot mid) by lia.
          apply Forall_app. split.
          - eapply Forall_impl; [|exact Hb]. intros y Hy.
            eapply R_trans; [exact Hy | apply notBefore; assumption].
          - constructor; [apply notBefore; assumption | constructor]. }
        exists k. repeat split; try lia; tauto.
    + assert (left = right) by lia. subst right.
      exists left. repeat split; try lia; assumption.
Qed.

(** The insertion loop answers with a sorted permutation. *)
Lemma insertAll_spec (rest : list A) :
  forall sorted,
    Forall P sorted -> Forall P rest -> StronglySorted R sorted ->
    exists result,
      V8.insertAll comparefn sorted rest = Normal result
      /\ Permutation (sorted ++ rest) result
      /\ StronglySorted R result.
Proof.
  induction rest as [|pivot rest IH]; intros sorted HP HPr Hs; simpl.
  - exists sorted. rewrite app_nil_r. auto.
  - inversion HPr as [|? ? Hp HPr']; subst.
    destruct (findInsertionPoint_spec (List.length sorted) pivot sorted Hp HP Hs
                0%nat (List.length sorted) ltac:(lia) ltac:(lia))
      as (k & Hk & Hk1 & Hk2 & Hk3).
    { constructor. }
    { rewrite skipn_all. constructor. }
    rewrite Hk. simpl.
    assert (HPk : Forall P (firstn k sorted ++ pivot :: skipn k sorted)).
    { rewrite <- (firstn_skipn k sorted) in HP.
      apply Forall_app in HP. destruct HP as [HP1 HP2].
      apply Forall_app. split; [assumption | constructor; assumption]. }
    destruct (IH (firstn k sorted ++ pivot :: skipn k sorted) HPk HPr')
      as (result & Hr & Hperm & Hsorted).
    { apply sorted_insert; try assumption.
      rewrite firstn_skipn. assumption. }
    exists result. repeat split; try assumption.
    etransitivity; [|exact Hperm].
    rewrite <- (firstn_skipn k sorted) at 1.
    rewrite <- !app_assoc. apply Permutation_app_head.
    simpl. symmetry. apply Permutation_middle.
Qed.

Local Abbreviation along := (Spec.along R).

Lemma along_trans (d : bool) (x y z : A) : along d x y -> along d y z -> along d x z.
Proof. destruct d; simpl; eauto. Qed.

Lemma runTail_spec (isDescending : bool) (rest : list A) :
  forall previous,
    P previous -> Forall P rest ->
    exists n,
      V8.runTail comparefn isDescending previous rest = Normal n
      /\ (n <= List.length rest)%nat
      /\ Sorted (along isDescending) (previous :: firstn n rest).
Proof.
  induction rest as [|current rest IH]; intros previous Hp HP; simpl.
  - exists 0%nat. repeat split; [lia | repeat constructor].
  - inversion HP as [|? ? Hc HP']; subst.
    rewrite (answers _ _ Hc Hp). simpl.
    destruct (IH current Hc HP') as (n & Hn & Hle & Hs).
    destruct isDescending.
    + destruct (Z.leb_spec 0 (c current previous)) as [Hge|Hlt].
      * exists 0%nat. repeat split; [lia | repeat constructor].
      * rewrite Hn. simpl. exists (S n). repeat split; [lia|].
        simpl. constructor; [assumption|]. constructor. simpl. apply before. assumption.
    + destruct (Z.ltb_spec (c current previous) 0) as [Hlt|Hge].
      * exists 0%nat. repeat split; [lia | repeat constructor].
      * rewrite Hn. simpl. exists (S n). repeat split; [lia|].
        simpl. constructor; [assumption|]. constructor. simpl. apply notBefore. assumption.
Qed.

Lemma sorted_rev (l : list A) :
  StronglySorted (along true) l -> StronglySorted R (rev l).
Proof.
  induction 1 as [|a l Hs IH Ha]; simpl; [constructor|].
  rewrite <- (app_nil_r (rev l ++ [a])), <- app_assoc. simpl.
  apply sorted_insert.
  - rewrite app_nil_r. assumption.
  - apply Forall_rev. exact Ha.
  - constructor.
Qed.

Lemma run_sorted (d : bool) (l : list A) :
  Sorted (along d) l -> StronglySorted (along d) l.
Proof.
  apply Sorted_StronglySorted. intros x y z. apply along_trans.
Qed.

Lemma firstn_exact (l1 l2 : list A) : firstn (List.length l1) (l1 ++ l2) = l1.
Proof.
  rewrite firstn_app, Nat.sub_diag, firstn_all. simpl. apply app_nil_r.
Qed.

Lemma CountAndMakeRun_spec (array : list A) :
  Forall P array ->
  exists workArray runLength,
    V8.CountAndMakeRun comparefn array = Normal (workArray, runLength)
    /\ Permutation array workArray
    /\ StronglySorted R (firstn runLength workArray).
Proof.
  intros HP.
  destruct array as [|high [|low rest]].
  - exists [], 0%nat. simpl. repeat split; constructor.
  - exists [high], 1%nat. simpl. repeat split; [reflexivity | repeat constructor].
  - inversion HP as [|? ? Hh HP']; subst. inversion HP' as [|? ? Hl HP'']; subst.
    unfold V8.CountAndMakeRun. rewrite (answers _ _ Hl Hh). simpl Js.bind.
    destruct (runTail_spec (c low high <? 0) rest low Hl HP'') as (n & Hn & Hle & Hs).
    rewrite Hn. simpl Js.bind.
    destruct (Z.ltb_spec (c low high) 0) as [Hlt|Hge].
    + eexists _, _. split; [reflexivity|].
      assert (Hlen : List.length (rev (firstn (S (S n)) (high :: low :: rest))) = S (S n)).
      { rewrite length_rev, length_firstn. simpl List.length. lia. }
      split.
      * rewrite <- (firstn_skipn (S (S n)) (high :: low :: rest)) at 1.
        apply Permutation_app_tail. apply Permutation_rev.
      * rewrite <- Hlen at 1. rewrite firstn_exact.
        change (StronglySorted R (rev (high :: low :: firstn n rest))).
        apply sorted_rev. apply run_sorted.
        constructor; [assumption|]. constructor. simpl. apply before. assumption.
    + eexists _, _. split; [reflexivity|]. split; [reflexivity|].
      change (firstn (S (S n)) (high :: low :: rest))
        with (high :: low :: firstn n rest).
      apply (run_sorted false).
      constructor; [assumption|]. constructor. simpl. apply notBefore. assumption.
Qed.

(** On elements it can compare, the sort answers with a permutation
    of the array that is sorted for the preorder. *)
Lemma ArrayPrototypeSort_spec (array : list A) :
  Forall P array ->
  exists result,
    V8.ArrayPrototypeSort comparefn array = Normal result
    /\ Permutation array result
    /\ StronglySorted R result.
Proof.
  intros HP. unfold V8.ArrayPrototypeSort.
  destruct (Nat.ltb_spec (List.length array) 2) as [Hshort|Hlong].
  - exists array. repeat split; [reflexivity|].
    destruct array as [|x [|y l]]; simpl in Hshort; try lia; repeat constructor.
  - destruct (CountAndMakeRun_spec array HP) as (work & rl & Hrun & Hperm & Hs).
    rewrite Hrun. simpl Js.bind. unfold V8.BinaryInsertionSort.
    assert (HPw : Forall P work).
    { rewrite Forall_forall in *. intros x Hx. apply HP.
      eapply Permutation_in; [symmetry; exact Hperm | exact Hx]. }
    rewrite <- (firstn_skipn rl work) in HPw.
    apply Forall_app in HPw. destruct HPw as [HP1 HP2].
    destruct (insertAll_spec (skipn rl work) (firstn rl work) HP1 HP2 Hs)
      as (result & Hr & Hperm' & Hsorted).
    exists result. repeat split; try assumption.
    rewrite firstn_skipn in Hperm'. etransitivity; eassumption.
Qed.

End SortSpec.

(** ** Decimal strings *)

Lemma toString_not_plus (z : Z) (ch : ascii) (rest : string) :
  toString z = String ch rest -> Ascii.eqb ch "+" = false.
Proof.
  unfold toString. destruct (Z.to_int z) as [d|d]; simpl.
  - destruct d; simpl; intros [= <- _]; reflexivity.
  - intros [= <- _]. reflexivity.
Qed.

Lemma toString_parses (z : Z) :
  DecimalString.NilZero.int_of_string (toString z) = Some (Z.to_int z).
Proof.
  unfold toString. apply DecimalString.NilZero.isi.
  - destruct z; simpl; try discriminate.
    intros [= H]. revert H. apply DecimalPos.Unsigned.to_uint_nonnil.
  - destruct z; simpl; try discriminate.
    intros [= H]. revert H. apply DecimalPos.Unsigned.to_uint_nonnil.
Qed.

(** [BigInt] reads back what [toString] printed. *)
Lemma BigInt_toString (z : Z) : BigInt (toString z) = Normal z.
Proof.
  unfold BigInt. destruct (toString z) as [|ch rest] eqn:E.
  - pose proof (toString_parses z) as H. rewrite E in H. discriminate.
  - rewrite (toString_not_plus z ch rest E). simpl andb. cbv iota.
    rewrite <- E, toString_parses, DecimalZ.of_to. reflexivity.
Qed.

(** ** The ranking of the entries *)

Lemma compareBalances_answers (a b : TokenWithBalance) :
  Spec.readable a -> Spec.readable b ->
  Logic.compareBalances a b = Normal (Spec.rankCompare a b).
Proof.
  intros [za Ha] [zb Hb].
  unfold Logic.compareBalances, Spec.rankCompare, Spec.balanceValue.
  rewrite Ha, Hb.
  destruct (hasBalance a), (hasBalance b); reflexivity.
Qed.

Lemma precedes_trans (x y z : TokenWithBalance) :
  Spec.precedes x y -> Spec.precedes y z -> Spec.precedes x z.
Proof.
  unfold Spec.precedes. intros Hxy [Hz|(Hy & Hz & Hle)]; [left; assumption|].
  destruct Hxy as [Hy'|(Hx & _ & Hle')]; [congruence|].
  right. repeat split; try assumption. lia.
Qed.

Lemma rankCompare_before (x y : TokenWithBalance) :
  Spec.rankCompare x y < 0 -> Spec.precedes x y.
Proof.
  unfold Spec.rankCompare, Spec.precedes.
  destruct (hasBalance x), (hasBalance y); simpl; try lia; auto.
  destruct (Z.gtb_spec (Spec.balanceValue y) (Spec.balanceValue x)); intros Hc;
    [lia | right; repeat split; assumption].
Qed.

Lemma rankCompare_notBefore (x y : TokenWithBalance) :
  0 <= Spec.rankCompare x y -> Spec.precedes y x.
Proof.
  unfold Spec.rankCompare, Spec.precedes.
  destruct (hasBalance x), (hasBalance y); simpl; try lia; auto.
  destruct (Z.gtb_spec (Spec.balanceValue y) (Spec.balanceValue x)); intros Hc;
    [right; repeat split; lia | lia].
Qed.

Lemma entryOf_readable (token : TokenConfig) (z : Z) : Spec.readable (Spec.entryOf token z).
Proof. exists z. apply BigInt_toString. Qed.

Lemma zeroEntry_readable (token : TokenConfig) : Spec.readable (Spec.zeroEntry token).
Proof. exists 0. reflexivity. Qed.

Lemma settled_readable chain walletAddress chainId token :
  Spec.readable (Spec.settled chain walletAddress chainId token).
Proof.
  unfold Spec.settled. destruct (Spec.reads _ _ _ _).
  - apply entryOf_readable.
  - apply zeroEntry_readable.
Qed.

(** The body of the [map] never rejects: it settles with the entry of
    the token, and logs the failure of its read. *)
Lemma resolveBalance_settles chain walletAddress chainId token :
  Logic.resolveBalance chain walletAddress chainId token
  = (match Spec.reads chain walletAddress chainId token with
     | Normal _ => []
     | Throw e => [Spec.failureLine token e]
     end,
     Normal (Spec.settled chain walletAddress chainId token)).
Proof.
  unfold Logic.resolveBalance, Spec.settled, Spec.reads.
  destruct (isNative token).
  - destruct (Logic.getBalance chain walletAddress chainId); reflexivity.
  - destruct (Logic.readContract_balanceOf chain (address token) walletAddress chainId);
      reflexivity.
Qed.

Lemma PromiseAll_fulfilled {A : Type} (l : list A) : PromiseAll (map Normal l) = Normal l.
Proof. induction l as [|a l IH]; simpl; [|rewrite IH]; reflexivity. Qed.

Lemma balances_settled chain walletAddress chainId tokens :
  PromiseAll (map snd (map (Logic.resolveBalance chain walletAddress chainId) tokens))
  = Normal (map (Spec.settled chain walletAddress chainId) tokens).
Proof.
  rewrite <- PromiseAll_fulfilled. f_equal.
  rewrite !map_map. apply map_ext. intros token.
  rewrite resolveBalance_settles. reflexivity.
Qed.

(** [fetchTokenBalances] fulfils with the entries of the tokens, ranked. *)
Lemma fetchTokenBalances_ranked chain tokens walletAddress chainId :
  exists result,
    snd (Logic.fetchTokenBalances chain tokens walletAddress chainId) = Normal result
    /\ Permutation (map (Spec.settled chain walletAddress chainId) tokens) result
    /\ StronglySorted Spec.precedes result.
Proof.
  unfold Logic.fetchTokenBalances. simpl snd.
  rewrite balances_settled. simpl Js.bind.
  apply (ArrayPrototypeSort_spec Logic.compareBalances Spec.rankCompare
           Spec.readable Spec.precedes).
  - apply compareBalances_answers.
  - apply precedes_trans.
  - apply rankCompare_before.
  - apply rankCompare_notBefore.
  - apply Forall_forall. intros t Ht. apply in_map_iff in Ht.
    destruct Ht as (token & <- & _). apply settled_readable.
Qed.

Lemma console_lines chain tokens walletAddress chainId token e :
  In token tokens -> Spec.reads chain walletAddress chainId token = Throw e ->
  In (Spec.failureLine token e)
     (fst (Logic.fetchTokenBalances chain tokens walletAddress chainId)).
Proof.
  intros Hin Hread. unfold Logic.fetchTokenBalances. simpl fst.
  apply in_concat. exists [Spec.failureLine token e]. split; [|left; reflexivity].
  rewrite map_map. apply in_map_iff. exists token. split; [|assumption].
  rewrite resolveBalance_settles, Hread. reflexivity.
Qed.

Lemma sorted_suffix {A : Type} (R : A -> A -> Prop) (l1 l2 : list A) :
  StronglySorted R (l1 ++ l2) -> StronglySorted R l2.
Proof.
  induction l1 as [|a l1 IH]; simpl; [trivial|].
  intros H. inversion H; subst. apply IH. assumption.
Qed.

(** C6: for a list of N tokens [fetchTokenBalances] fulfils with N
    entries, one for each token, whatever reads fail; a token whose read
    throws is reported with balance "0" and [hasBalance = false], and
    its failure is written to the console instead of rejecting the
    call. *)
Theorem fetchTokenBalances_one_entry_per_token
  (chain : Logic.Chain) (tokens : list TokenConfig) (walletAddress : string) (chainId : Z) :
  exists result,
    snd (Logic.fetchTokenBalances chain tokens walletAddress chainId) = Normal result
    /\ List.length result = List.length tokens
    /\ Permutation (map (Spec.settled chain walletAddress chainId) tokens) result
    /\ forall token e,
         In token tokens ->
         Spec.reads chain walletAddress chainId token = Throw e ->
         In {| config := token; balance := "0"; balanceFormatted := "0";
               hasBalance := false |} result
         /\ In (Spec.failureLine token e)
               (fst (Logic.fetchTokenBalances chain tokens walletAddress chainId)).
Proof.
  destruct (fetchTokenBalances_ranked chain tokens walletAddress chainId)
    as (result & Hres & Hperm & _).
  exists result. split; [assumption|]. split; [|split; [assumption|]].
  - rewrite <- (Permutation_length Hperm). apply length_map.
  - intros token e Hin Hread. split.
    + eapply Permutation_in; [exact Hperm|].
      apply in_map_iff. exists token. split; [|assumption].
      unfold Spec.settled. rewrite Hread. reflexivity.
    + apply console_lines; assumption.
Qed.

(** C10: a token whose read succeeds with the integer [z] is reported
    with [hasBalance = true] exactly when [0 < z].  When [z] is zero its
    entry has [hasBalance = false], the comparator puts every entry with
    a balance before it, and (for fewer than 64 tokens, the range of the
    sort that is modelled) no entry with a balance comes after it in the
    result. *)
Theorem hasBalance_iff_positive
  (chain : Logic.Chain) (tokens : list TokenConfig) (walletAddress : string) (chainId : Z)
  (token : TokenConfig) (z : Z) :
  In token tokens ->
  Spec.reads chain walletAddress chainId token = Normal z ->
  exists result entry,
    snd (Logic.fetchTokenBalances chain tokens walletAddress chainId) = Normal result
    /\ snd (Logic.resolveBalance chain walletAddress chainId token) = Normal entry
    /\ config entry = token
    /\ balance entry = toString z
    /\ (hasBalance entry = true <-> 0 < z)
    /\ In entry result
    /\ (z = 0 ->
        hasBalance entry = false
        /\ (forall other,
              hasBalance other = true ->
              Logic.compareBalances other entry = Normal (-1)
              /\ Logic.compareBalances entry other = Normal 1)
        /\ ((List.length tokens < 64)%nat ->
            forall front back, result = front ++ entry :: back ->
              Forall (fun other => hasBalance other = false) back)).
Proof.
  intros Hin Hread.
  destruct (fetchTokenBalances_ranked chain tokens walletAddress chainId)
    as (result & Hres & Hperm & Hsorted).
  exists result, (Spec.entryOf token z).
  assert (Hset : Spec.settled chain walletAddress chainId token = Spec.entryOf token z).
  { unfold Spec.settled. rewrite Hread. reflexivity. }
  split; [exact Hres|]. split; [rewrite resolveBalance_settles, Hset; reflexivity|].
  split; [reflexivity|]. split; [reflexivity|]. split; [|split].
  - simpl. destruct (Z.gtb_spec z 0) as [Hpos|Hnon]; split; intros Hflag;
      try reflexivity; try discriminate; lia.
  - eapply Permutation_in; [exact Hperm|].
    apply in_map_iff. exists token. split; assumption.
  - intros ->. split; [reflexivity|]. split.
    + intros other Hother. unfold Logic.compareBalances. rewrite Hother. split; reflexivity.
    + intros _ front back ->.
      apply sorted_suffix in Hsorted.
      inversion Hsorted as [|? ? _ Hafter]; subst.
      eapply Forall_impl; [|exact Hafter].
      intros other [Hno|(Hyes & _)]; [assumption | discriminate].
Qed.

Lemma fetchTokenBalances_one_entry_per_token_witness :
  exists result,
    snd (Logic.fetchTokenBalances Sample.chain [Sample.DAI; Sample.ETH; Sample.USDC]
           Sample.account 1) = Normal result
    /\ List.length result = 3%nat
    /\ In (Spec.zeroEntry Sample.DAI) result.
Proof.
  destruct (fetchTokenBalances_one_entry_per_token Sample.chain
              [Sample.DAI; Sample.ETH; Sample.USDC] Sample.account 1)
    as (result & Hres & Hlen & _ & Hfail).
  exists result. split; [exact Hres|]. split; [exact Hlen|].
  apply (Hfail Sample.DAI (mkError "execution reverted")).
  - simpl. auto.
  - reflexivity.
Defined.

Lemma hasBalance_iff_positive_witness :
  exists result entry,
    snd (Logic.fetchTokenBalances Sample.chainABC [Sample.A; Sample.B; Sample.C]
           Sample.account 1) = Normal result
    /\ hasBalance entry = false
    /\ In entry result.
Proof.
  destruct (hasBalance_iff_positive Sample.chainABC [Sample.A; Sample.B; Sample.C]
              Sample.account 1 Sample.A 0)
    as (result & entry & Hres & _ & _ & _ & _ & Hin & Hzero).
  - simpl. auto.
  - reflexivity.
  - exists result, entry. split; [exact Hres|]. split; [|exact Hin].
    apply Hzero. reflexivity.
Defined.

(** The scenario of the specification: balances [A:0, B:100, C:0] come
    out in the order [B, A, C]. *)
Example ranking_scenario :
  snd (Logic.fetchTokenBalances Sample.chainABC [Sample.A; Sample.B; Sample.C]
         Sample.account 1)
  = Normal [Spec.entryOf Sample.B 100; Spec.entryOf Sample.A 0; Spec.entryOf Sample.C 0].
Proof. vm_compute. reflexivity. Qed.

(** C3: two tokens with the same balance do not keep their input order:
    for [USDC; USDT], both holding 100, the result is [USDT; USDC].  The
    comparator answers [-1] for two equal balances whichever comes
    first, where a comparator has to answer [0], and the sort of V8
    then puts the later token first. *)
Theorem equal_balances_change_places :
  snd (Logic.fetchTokenBalances Sample.chain [Sample.USDC; Sample.USDT] Sample.account 1)
  = Normal [Spec.entryOf Sample.USDT 100; Spec.entryOf Sample.USDC 100]
  /\ Logic.compareBalances (Spec.entryOf Sample.USDC 100) (Spec.entryOf Sample.USDT 100)
     = Normal (-1)
  /\ Logic.compareBalances (Spec.entryOf Sample.USDT 100) (Spec.entryOf Sample.USDC 100)
     = Normal (-1).
Proof. vm_compute. repeat split; reflexivity. Qed.

(** ** The modal *)

(** One step of a handler: the monad unfolded, the calls left as they
    are. *)
Ltac run_handler :=
  cbv beta iota zeta delta
    [Modal.bindM Modal.tryCatch Modal.await Modal.emit Modal.ret Modal.fail
     Modal.setState Modal.setError Modal.setTxHash Modal.setTokens
     Modal.setSelectedToken Modal.setToolData fst snd].

Lemma emitAll_run (effects : list Modal.Effect) (h : Modal.Hooks) :
  Modal.emitAll effects h = (h, effects, Normal tt).
Proof.
  induction effects as [|e effects IH]; [reflexivity|].
  simpl. unfold Modal.bindM, Modal.emit. rewrite IH. reflexivity.
Qed.

Lemma find_first {A : Type} (p : A -> bool) (l : list A) (x : A) :
  List.find p l = Some x ->
  exists front back,
    l = front ++ x :: back /\ p x = true /\ Forall (fun y => p y = false) front.
Proof.
  induction l as [|a l IH]; simpl; [discriminate|].
  destruct (p a) eqn:Ha.
  - intros [= <-]. exists [], l. repeat split; [assumption | constructor].
  - intros H. destruct (IH H) as (front & back & -> & Hx & Hfront).
    exists (a :: front), back. repeat split; [assumption | constructor; assumption].
Qed.

Lemma find_nothing {A : Type} (p : A -> bool) (l : list A) :
  List.find p l = None -> Forall (fun y => p y = false) l.
Proof.
  induction l as [|a l IH]; simpl; [constructor|].
  destruct (p a) eqn:Ha; [discriminate|]. intros H. constructor; auto.
Qed.

(** What [checkBalances] leaves when the account is read, the chain is
    the right one or is switched to, and the balances are [balances]. *)
Lemma checkBalances_success (w : Modal.World) (data : ToolData) (h : Modal.Hooks)
  (account : Wallet.Account) (balances : list TokenWithBalance) :
  Wallet.getAccount (Modal.wallet w) = Normal account ->
  (Wallet.account_chainId account = chain_id data
   \/ Wallet.switchNetwork (Modal.wallet w) (chain_id data) = Normal tt) ->
  snd (Logic.fetchTokenBalances (Modal.chain w) (available_tokens data)
         (Wallet.account_address account) (chain_id data)) = Normal balances ->
  exists effects,
    Modal.checkBalances w data h
    = ({| Modal.state := Modal.SELECT_TOKEN;
          Modal.toolData := Modal.toolData h;
          Modal.tokens := balances;
          Modal.selectedToken := Modal.defaultToken balances;
          Modal.error := Modal.error h;
          Modal.txHash := Modal.txHash h |}, effects, Normal tt)
    /\ ~ In Modal.onOpen effects
    /\ forall e, ~ In (Modal.onError e) effects.
Proof.
  intros Hacc Hchain Hbal.
  unfold Modal.checkBalances, Modal.bindM, Modal.tryCatch, Modal.setState, Modal.await.
  rewrite Hacc. cbv beta iota.
  assert (Hnot : forall lines : list Logic.ConsoleError,
             ~ In Modal.onOpen (map Modal.console_error lines)
             /\ forall e, ~ In (Modal.onError e) (map Modal.console_error lines)).
  { intros lines. split; [|intros e]; intros Hin; apply in_map_iff in Hin;
      destruct Hin as (x & Hx & _); discriminate. }
  destruct (Z.eqb_spec (Wallet.account_chainId account) (chain_id data)) as [Heq|Hne].
  - unfold Modal.ret. rewrite emitAll_run, Hbal. simpl.
    eexists. split; [reflexivity|].
    rewrite app_nil_r. apply Hnot.
  - destruct Hchain as [Heq|Hsw]; [contradiction|].
    unfold Modal.emit. rewrite Hsw. rewrite emitAll_run, Hbal. simpl.
    eexists. split; [reflexivity|].
    rewrite app_nil_r. split.
    + intros [Hin|Hin]; [discriminate | apply (Hnot _) in Hin; assumption].
    + intros e [Hin|Hin]; [discriminate | apply (Hnot _) in Hin; assumption].
Qed.

(** C8: when the balances are fetched (the account is read and the
    wallet is on the chain of the tool, or switches to it), and there is
    at least one token, [checkBalances] ends in [SELECT_TOKEN] with the
    ranked list in [tokens] and, selected, the first entry of that list
    with [hasBalance = true], or the first entry of the list when none
    has a balance. *)
Theorem checkBalances_selects_first_with_balance
  (w : Modal.World) (data : ToolData) (h : Modal.Hooks) (account : Wallet.Account) :
  Wallet.getAccount (Modal.wallet w) = Normal account ->
  (Wallet.account_chainId account = chain_id data
   \/ Wallet.switchNetwork (Modal.wallet w) (chain_id data) = Normal tt) ->
  available_tokens data <> [] ->
  exists first rest chosen h' effects,
    snd (Logic.fetchTokenBalances (Modal.chain w) (available_tokens data)
           (Wallet.account_address account) (chain_id data)) = Normal (first :: rest)
    /\ Modal.checkBalances w data h = (h', effects, Normal tt)
    /\ Modal.state h' = Modal.SELECT_TOKEN
    /\ Modal.tokens h' = first :: rest
    /\ Modal.selectedToken h' = Some chosen
    /\ ((exists front back,
           first :: rest = front ++ chosen :: back
           /\ hasBalance chosen = true
           /\ Forall (fun other => hasBalance other = false) front)
        \/ (Forall (fun other => hasBalance other = false) (first :: rest)
            /\ chosen = first)).
Proof.
  intros Hacc Hchain Hne.
  destruct (fetchTokenBalances_ranked (Modal.chain w) (available_tokens data)
              (Wallet.account_address account) (chain_id data))
    as (balances & Hbal & Hperm & _).
  apply Permutation_length in Hperm. rewrite length_map in Hperm.
  destruct balances as [|first rest].
  { destruct (available_tokens data); [contradiction | discriminate]. }
  destruct (checkBalances_success w data h account (first :: rest) Hacc Hchain Hbal)
    as (effects & Hrun & _).
  unfold Modal.defaultToken, Js.find in Hrun.
  destruct (List.find hasBalance (first :: rest)) as [chosen|] eqn:Hfind.
  - exists first, rest, chosen. eexists _, effects.
    split; [exact Hbal|]. split; [exact Hrun|]. simpl.
    repeat split. left. apply find_first. assumption.
  - exists first, rest, first. eexists _, effects.
    split; [exact Hbal|]. split; [exact Hrun|]. simpl.
    repeat split. right. split; [|reflexivity].
    apply find_nothing. assumption.
Qed.

Lemma checkBalances_selects_first_with_balance_witness :
  Modal.state (fst (fst (Modal.checkBalances
                           (Sample.world (Sample.server (Throw (mkError "Failed to fetch"))))
                           Sample.tool Modal.initial)))
  = Modal.SELECT_TOKEN.
Proof.
  destruct (checkBalances_selects_first_with_balance
              (Sample.world (Sample.server (Throw (mkError "Failed to fetch"))))
              Sample.tool Modal.initial
              {| Wallet.account_address := Sample.account; Wallet.account_chainId := 137 |})
    as (first & rest & chosen & h' & effects & _ & Hrun & Hstate & _).
  - reflexivity.
  - right. reflexivity.
  - discriminate.
  - rewrite Hrun. exact Hstate.
Defined.

(** *** Failures inside the handlers *)

Lemma fail_run (e : Error) (h : Modal.Hooks) :
  Modal.fail e h = (Spec.failedWith h (message e), [Modal.onError e], Normal tt).
Proof. reflexivity. Qed.

(** A handler whose [catch] block is [fail] does not throw. *)
Lemma tryCatch_fail_total (body : Modal.M unit) (h : Modal.Hooks) :
  exists h' effects, Modal.tryCatch body Modal.fail h = (h', effects, Normal tt).
Proof.
  unfold Modal.tryCatch. destruct (body h) as [[h1 effects1] [[]|e]].
  - eauto.
  - rewrite fail_run. eauto.
Qed.

Lemma checkBalances_total (w : Modal.World) (data : ToolData) (h : Modal.Hooks) :
  exists h' effects, Modal.checkBalances w data h = (h', effects, Normal tt).
Proof.
  unfold Modal.checkBalances, Modal.bindM at 1. unfold Modal.setState at 1.
  match goal with
  | |- context [Modal.tryCatch ?body Modal.fail ?h0] =>
      destruct (tryCatch_fail_total body h0) as (h' & effects & ->)
  end.
  eauto.
Qed.



(** A failed tool lookup: [ERROR], and the error callback. *)
Lemma loadTool_failure (w : Modal.World) (id : string) (h : Modal.Hooks) (e : Error) :
  Api.fetchTool (Modal.net w) id = Throw e ->
  Modal.loadTool w id h
  = (Spec.failedWith h (message e),
     [Modal.onOpen; Modal.api_fetchTool id; Modal.onError e], Normal tt).
Proof.
  intros H. unfold Modal.loadTool, Modal.tryCatch, Modal.bindM, Modal.await.
  simpl. rewrite H. reflexivity.
Qed.

(** A failed account read or chain switch in [checkBalances]: [ERROR],
    and the error callback. *)
Lemma checkBalances_account_failure (w : Modal.World) (data : ToolData)
  (h : Modal.Hooks) (e : Error) :
  Wallet.getAccount (Modal.wallet w) = Throw e ->
  Modal.checkBalances w data h
  = (Spec.failedWith h (message e), [Modal.onError e], Normal tt).
Proof.
  intros H. unfold Modal.checkBalances, Modal.tryCatch, Modal.bindM, Modal.await.
  simpl. rewrite H. reflexivity.
Qed.

Lemma checkBalances_switch_failure (w : Modal.World) (data : ToolData)
  (h : Modal.Hooks) (account : Wallet.Account) (e : Error) :
  Wallet.getAccount (Modal.wallet w) = Normal account ->
  Wallet.account_chainId account <> chain_id data ->
  Wallet.switchNetwork (Modal.wallet w) (chain_id data) = Throw e ->
  Modal.checkBalances w data h
  = (Spec.failedWith h (message e),
     [Modal.wallet_switchNetwork (chain_id data); Modal.onError e], Normal tt).
Proof.
  intros Hacc Hne Hsw.
  unfold Modal.checkBalances, Modal.tryCatch, Modal.bindM, Modal.await.
  simpl. rewrite Hacc. cbv beta iota.
  destruct (Z.eqb_spec (Wallet.account_chainId account) (chain_id data)); [contradiction|].
  unfold Modal.emit. rewrite Hsw. reflexivity.
Qed.

(** A failed intent creation in [handlePay]: [ERROR], and the error
    callback. *)
Lemma handlePay_intent_failure (w : Modal.World) (id : string) (polls : nat)
  (h : Modal.Hooks) (data : ToolData) (token : TokenWithBalance) (e : Error) :
  Modal.toolData h = Some data -> Modal.selectedToken h = Some token ->
  Api.createIntent (Modal.net w) id (symbol token) = Throw e ->
  Modal.handlePay w id polls h
  = (Spec.failedWith h (message e),
     [Modal.api_createIntent id (symbol token); Modal.onError e], Normal tt).
Proof.
  intros Hd Ht H. unfold Modal.handlePay. rewrite Hd, Ht.
  unfold Modal.tryCatch, Modal.bindM, Modal.await. simpl. rewrite H. reflexivity.
Qed.

(** A rejected broadcast of a native transfer: [ERROR], and the error
    callback. *)
Lemma handlePay_broadcast_failure (w : Modal.World) (id : string) (polls : nat)
  (h : Modal.Hooks) (data : ToolData) (token : TokenWithBalance)
  (intent : BackendIntentResponse) (wei : Z) (e : Error) :
  Modal.toolData h = Some data -> Modal.selectedToken h = Some token ->
  isNative token = true ->
  Api.createIntent (Modal.net w) id (symbol token) = Normal intent ->
  Viem.parseUnits (amount intent) (decimals token) = Normal wei ->
  Wallet.sendTransaction (Modal.wallet w)
    {| Wallet.to := merchantAddress intent; Wallet.value := Some wei;
       Wallet.data := None; Wallet.chainId := chain_id data |} = Throw e ->
  exists h' effects,
    Modal.handlePay w id polls h = (h', effects ++ [Modal.onError e], Normal tt)
    /\ Modal.state h' = Modal.ERROR /\ Modal.error h' = Some (message e).
Proof.
  intros Hd Ht Hn Hi Hp Hs. unfold Modal.handlePay. rewrite Hd, Ht.
  unfold Modal.tryCatch, Modal.bindM, Modal.await, Modal.sendPayment. simpl.
  rewrite Hi, Hp, Hn. unfold Modal.bindM, Modal.emit, Modal.await. rewrite Hs. simpl.
  eexists _, [_; _]. split; [reflexivity|]. split; reflexivity.
Qed.

(** A failed submission after a native transfer was broadcast: [ERROR],
    and the error callback; the hash stays. *)
Lemma handlePay_submit_failure (w : Modal.World) (id : string) (polls : nat)
  (h : Modal.Hooks) (data : ToolData) (token : TokenWithBalance)
  (intent : BackendIntentResponse) (wei : Z) (hash : string) (e : Error) :
  Modal.toolData h = Some data -> Modal.selectedToken h = Some token ->
  isNative token = true ->
  Api.createIntent (Modal.net w) id (symbol token) = Normal intent ->
  Viem.parseUnits (amount intent) (decimals token) = Normal wei ->
  Wallet.sendTransaction (Modal.wallet w)
    {| Wallet.to := merchantAddress intent; Wallet.value := Some wei;
       Wallet.data := None; Wallet.chainId := chain_id data |} = Normal hash ->
  Api.submitPayment (Modal.net w)
    {| Api.tx_hash := hash; Api.req_chain_id := chain_id data;
       Api.amount_wei := toString wei; Api.token_address := tokenAddress intent;
       Api.recipient := merchantAddress intent; Api.metadata_toolId := id |} id
  = Throw e ->
  exists h' effects,
    Modal.handlePay w id polls h = (h', effects ++ [Modal.onError e], Normal tt)
    /\ Modal.state h' = Modal.ERROR /\ Modal.error h' = Some (message e)
    /\ Modal.txHash h' = Some hash.
Proof.
  intros Hd Ht Hn Hi Hp Hs Hsub. unfold Modal.handlePay. rewrite Hd, Ht.
  unfold Modal.tryCatch, Modal.bindM, Modal.await, Modal.sendPayment. simpl.
  rewrite Hi, Hp, Hn. unfold Modal.bindM, Modal.emit, Modal.await. rewrite Hs. simpl.
  rewrite Hsub.
  eexists _, [_; _; _; _]. split; [reflexivity|]. repeat split; reflexivity.
Qed.

(** A failure of the status request while polling is caught and moves
    the modal to [ERROR] with the message, but the error callback is
    not called: the only effect of that [poll] is the request.  The
    [catch] blocks of [loadTool], [checkBalances] and [handlePay] call
    [callbacks?.onError?.(e)]; the one of [poll] does not. *)
Lemma polling_failure_skips_error_callback
  (w : Modal.World) (id paymentId : string) (asked : nat) (h : Modal.Hooks) (e : Error) :
  Api.getPaymentStatus (Modal.net w) asked paymentId id = Throw e ->
  Modal.poll w id paymentId asked h
  = (Spec.failedWith h (message e), [Modal.api_getPaymentStatus paymentId id], Normal false)
  /\ forall e', ~ In (Modal.onError e') [Modal.api_getPaymentStatus paymentId id].
Proof.
  intros H. split.
  - unfold Modal.poll, Modal.tryCatch, Modal.bindM, Modal.await, Modal.emit.
    rewrite H. reflexivity.
  - intros e' [Hin|[]]. discriminate.
Qed.

(** The same for a payment the server reports as failed. *)
Lemma polling_rejection_skips_error_callback
  (w : Modal.World) (id paymentId : string) (asked : nat) (h : Modal.Hooks)
  (record : Api.PaymentStatusResponse) :
  Api.getPaymentStatus (Modal.net w) asked paymentId id = Normal record ->
  Api.status record = Api.failed ->
  Modal.poll w id paymentId asked h
  = (Spec.failedWith h "Payment failed verification",
     [Modal.api_getPaymentStatus paymentId id], Normal false).
Proof.
  intros H Hs. unfold Modal.poll, Modal.tryCatch, Modal.bindM, Modal.await, Modal.emit.
  rewrite H, Hs. reflexivity.
Qed.

(** A whole payment whose third status request fails: the modal ends in
    [ERROR] and the error callback was never called. *)
Example payment_with_failing_poll :
  let run := Modal.clickPay (Sample.world (Sample.server (Throw (mkError "Failed to fetch"))))
               5 Sample.opened in
  Modal.state (Modal.hooks (fst run)) = Modal.ERROR
  /\ Modal.error (Modal.hooks (fst run)) = Some "Failed to fetch"
  /\ existsb Sample.isErrorCallback (snd run) = false.
Proof. vm_compute. repeat split; reflexivity. Qed.

Lemma sendPayment_run (w : Modal.World) (token : TokenWithBalance)
  (intent : BackendIntentResponse) (wei : Z) (tool : ToolData) (h : Modal.Hooks) :
  Modal.sendPayment w token intent wei tool h
  = (h, Spec.broadcastEffects w token intent wei tool, Spec.broadcast w token intent wei tool).
Proof.
  unfold Spec.broadcastEffects, Spec.broadcast, Modal.sendPayment.
  destruct (isNative token).
  - unfold Modal.bindM, Modal.emit, Modal.await.
    match goal with
    | |- context [Wallet.sendTransaction (Modal.wallet w) ?t] =>
        destruct (Wallet.sendTransaction (Modal.wallet w) t)
    end; reflexivity.
  - unfold Modal.bindM, Modal.emit, Modal.await.
    destruct (Viem.encodeTransfer (Modal.checksumAddress w) (merchantAddress intent) wei);
      [|reflexivity].
    match goal with
    | |- context [Wallet.sendTransaction (Modal.wallet w) ?t] =>
        destruct (Wallet.sendTransaction (Modal.wallet w) t)
    end; reflexivity.
Qed.







(** C9: the Retry button of the [ERROR] screen sets the state to
    [FETCHING_TOOL] and nothing else: the effect that calls [loadTool]
    depends on [toolId] alone, which the click does not change, so no
    tool request is made, and the timer does not move the modal on. *)
Theorem retry_requests_no_tool (w : Modal.World) (c : Modal.Component) :
  Modal.state (Modal.hooks c) = Modal.ERROR ->
  Modal.effectDeps c = Some (Modal.toolId c) ->
  Modal.clickRetry w c
  = ({| Modal.toolId := Modal.toolId c;
        Modal.hooks := Spec.inState (Modal.hooks c) Modal.FETCHING_TOOL;
        Modal.effectDeps := Modal.effectDeps c |}, [])
  /\ forall w',
       Modal.tick w' (Spec.inState (Modal.hooks c) Modal.FETCHING_TOOL)
       = (Spec.inState (Modal.hooks c) Modal.FETCHING_TOOL, [], Normal tt).
Proof.
  intros _ Hdeps. split.
  - unfold Modal.clickRetry, Modal.handle, Modal.retry, Modal.setState, Modal.afterRender,
      Modal.depsChanged. simpl. rewrite Hdeps. rewrite String.eqb_refl. reflexivity.
  - intros w'. reflexivity.
Qed.

Lemma retry_requests_no_tool_witness :
  let failed := fst (Modal.mount (Sample.world Sample.serverDown) "tool_1") in
  Modal.state (Modal.hooks failed) = Modal.ERROR
  /\ snd (Modal.clickRetry (Sample.world Sample.serverDown) failed) = []
  /\ Modal.state (Modal.hooks (fst (Modal.clickRetry (Sample.world Sample.serverDown) failed)))
     = Modal.FETCHING_TOOL.
Proof.
  split; [reflexivity|].
  destruct (retry_requests_no_tool (Sample.world Sample.serverDown)
              (fst (Modal.mount (Sample.world Sample.serverDown) "tool_1")))
    as [Hclick _]; [reflexivity | reflexivity |].
  cbv zeta. rewrite Hclick. split; reflexivity.
Defined.

(** The first render does request the tool. *)
Example mount_requests_tool :
  existsb Sample.isToolRequest (snd (Modal.mount (Sample.world Sample.serverDown) "tool_1"))
  = true.
Proof. reflexivity. Qed.

(** ** Strings *)

Lemma append_length (a b : string) :
  String.length (a ++ b) = (String.length a + String.length b)%nat.
Proof. induction a as [|ch a IH]; simpl; [|rewrite IH]; reflexivity. Qed.

Lemma append_assoc (a b c : string) : ((a ++ b) ++ c = a ++ (b ++ c))%string.
Proof. induction a as [|ch a IH]; simpl; [|rewrite IH]; reflexivity. Qed.

Lemma append_empty (a : string) : (a ++ EmptyString)%string = a.
Proof. induction a as [|ch a IH]; simpl; [|rewrite IH]; reflexivity. Qed.

Lemma substring_front (a b : string) :
  String.substring 0 (String.length a) (a ++ b) = a.
Proof.
  induction a as [|ch a IH]; simpl.
  - destruct b; reflexivity.
  - rewrite IH. reflexivity.
Qed.

Lemma substring_whole (a : string) : String.substring 0 (String.length a) a = a.
Proof. rewrite <- (append_empty a) at 2. apply substring_front. Qed.

Lemma substring_behind (a b : string) (m : nat) :
  String.substring (String.length a) m (a ++ b) = String.substring 0 m b.
Proof. induction a as [|ch a IH]; simpl; [reflexivity | exact IH]. Qed.

Lemma substring_first (a b : string) (n : nat) :
  String.length a = n -> String.substring 0 n (a ++ b) = a.
Proof. intros <-. apply substring_front. Qed.

Lemma substring_second (a b : string) (n m : nat) :
  String.length a = n -> String.length b = m -> String.substring n m (a ++ b) = b.
Proof. intros <- <-. rewrite substring_behind. apply substring_whole. Qed.

Lemma repeat_length (ch : ascii) (n : nat) : String.length (Str.repeat ch n) = n.
Proof. induction n as [|n IH]; simpl; [|rewrite IH]; reflexivity. Qed.

Lemma padStart_length (n : nat) (s : string) :
  (String.length s <= n)%nat -> String.length (Str.padStart n s) = n.
Proof.
  intros H. unfold Str.padStart. rewrite append_length, repeat_length. lia.
Qed.

Lemma sliceFrom_behind (a b : string) : Str.sliceFrom (String.length a) (a ++ b) = b.
Proof.
  unfold Str.sliceFrom. rewrite substring_behind, append_length.
  replace (String.length a + String.length b - String.length a)%nat
    with (String.length b) by lia.
  apply substring_whole.
Qed.

(** ** Hexadecimal words *)

Lemma hexDigitValue_hexChar (d : Z) :
  0 <= d < 16 -> Viem.hexDigitValue (Viem.hexChar d) = Some d.
Proof.
  intros H.
  assert (Hd : In d [0; 1; 2; 3; 4; 5; 6; 7; 8; 9; 10; 11; 12; 13; 14; 15]).
  { simpl. lia. }
  simpl in Hd.
  repeat (destruct Hd as [<-|Hd]; [reflexivity|]). contradiction.
Qed.

Lemma hexValue_app (a b : string) (acc : Z) :
  Viem.hexValue (a ++ b) acc
  = match Viem.hexValue a acc with
    | Some v => Viem.hexValue b v
    | None => None
    end.
Proof.
  revert acc. induction a as [|ch a IH]; intros acc; simpl; [reflexivity|].
  destruct (Viem.hexDigitValue ch); [apply IH | reflexivity].
Qed.

Lemma hexValue_zeros (n : nat) : Viem.hexValue (Str.repeat "0" n) 0 = Some 0.
Proof. induction n as [|n IH]; simpl; [reflexivity | exact IH]. Qed.

(** The digits printed for [n] are at most [k] when [n < 16^k], and read
    back as [n]. *)
Lemma hexDigitsOf_spec (fuel : nat) :
  forall n acc,
    0 <= n < 16 ^ Z.of_nat fuel ->
    exists digits,
      Viem.hexDigitsOf fuel n acc = (digits ++ acc)%string
      /\ (forall v, Viem.hexValue digits v
                    = Some (v * 16 ^ Z.of_nat (String.length digits) + n))
      /\ (forall k, n < 16 ^ Z.of_nat k -> (String.length digits <= k)%nat).
Proof.
  induction fuel as [|fuel IH]; intros n acc Hn.
  - assert (n = 0) by (simpl in Hn; lia). subst n.
    exists EmptyString. simpl. repeat split; [intros v; f_equal; lia | intros; lia].
  - simpl Viem.hexDigitsOf. destruct (Z.eqb_spec n 0) as [->|Hnz].
    + exists EmptyString. simpl. repeat split; [intros v; f_equal; lia | intros; lia].
    + assert (Hq : 0 <= n / 16 < 16 ^ Z.of_nat fuel).
      { split; [apply Z.div_pos; lia|].
        apply Z.div_lt_upper_bound; [lia|].
        rewrite Nat2Z.inj_succ, Z.pow_succ_r in Hn by lia. lia. }
      destruct (IH (n / 16) (String (Viem.hexChar (n mod 16)) acc) Hq)
        as (digits & Heq & Hval & Hlen).
      exists (digits ++ String (Viem.hexChar (n mod 16)) EmptyString)%string.
      split; [rewrite Heq, append_assoc; reflexivity|]. split.
      * intros v. rewrite hexValue_app, Hval. cbn [Viem.hexValue].
        rewrite hexDigitValue_hexChar by (apply Z.mod_pos_bound; lia).
        f_equal. rewrite append_length. simpl String.length.
        rewrite Nat2Z.inj_add, Z.pow_add_r by lia.
        change (Z.of_nat 1) with 1. rewrite Z.pow_1_r.
        pose proof (Z.div_mod n 16 ltac:(lia)) as Hdm.
        remember (16 ^ Z.of_nat (String.length digits)) as p16.
        remember (n / 16) as q. remember (n mod 16) as r. nia.
      * intros k Hk. rewrite append_length. simpl String.length.
        destruct k as [|k].
        { simpl in Hk. assert (0 <= n) by lia. lia. }
        assert (String.length digits <= k)%nat; [|lia].
        apply Hlen. apply Z.div_lt_upper_bound; [lia|].
        rewrite Nat2Z.inj_succ, Z.pow_succ_r in Hk by lia. lia.
Qed.

Lemma toHex_spec (n : Z) :
  0 <= n < 2 ^ 256 ->
  (String.length (Viem.toHex n) <= 64)%nat
  /\ Viem.hexValue (Viem.toHex n) 0 = Some n.
Proof.
  intros Hn. unfold Viem.toHex. destruct (Z.eqb_spec n 0) as [->|Hnz].
  - split; [simpl; lia | reflexivity].
  - assert (Hfuel : 0 <= n < 16 ^ Z.of_nat (S (Z.to_nat (Z.log2 n)))).
    { split; [lia|].
      pose proof (Z.log2_spec n ltac:(lia)) as [_ Hup].
      pose proof (Z.log2_nonneg n) as Hl.
      rewrite Nat2Z.inj_succ, Z2Nat.id by lia.
      eapply Z.lt_le_trans; [exact Hup|].
      change 16 with (2 ^ 4). rewrite <- Z.pow_mul_r by lia.
      apply Z.pow_le_mono_r; lia. }
    destruct (hexDigitsOf_spec _ n EmptyString Hfuel) as (digits & Heq & Hval & Hlen).
    rewrite Heq, append_empty. split.
    + apply Hlen. change (Z.of_nat 64) with 64. change (16 ^ 64) with (2 ^ 256). lia.
    + rewrite Hval. f_equal; lia.
Qed.

(** The word of an amount reads back as the amount. *)
Lemma word_amount (n : Z) :
  0 <= n < 2 ^ 256 ->
  String.length (Viem.word (Viem.toHex n)) = 64%nat
  /\ Viem.hexValue (Viem.word (Viem.toHex n)) 0 = Some n.
Proof.
  intros Hn. destruct (toHex_spec n Hn) as [Hlen Hval]. split.
  - apply padStart_length. assumption.
  - unfold Viem.word, Str.padStart. rewrite hexValue_app, hexValue_zeros. exact Hval.
Qed.

Lemma toLowerCase_length (s : string) : String.length (Viem.toLowerCase s) = String.length s.
Proof. induction s as [|ch s IH]; simpl; [|rewrite IH]; reflexivity. Qed.

(** An address of the right shape is [0x] and forty characters. *)
Lemma addressShape_inv (a : string) :
  Viem.addressShape a = true ->
  exists digits, a = ("0x" ++ digits)%string /\ String.length digits = 40%nat.
Proof.
  unfold Viem.addressShape. intros H.
  apply andb_prop in H. destruct H as [Hp H].
  apply andb_prop in H. destruct H as [Hl _].
  apply Nat.eqb_eq in Hl.
  apply String.prefix_correct in Hp.
  destruct a as [|c1 [|c2 digits]]; simpl in Hp; try discriminate.
  injection Hp as -> -> _.
  exists digits. split; [reflexivity|]. simpl in Hl. lia.
Qed.

Lemma prefix_append (a b : string) : String.prefix a (a ++ b) = true.
Proof. apply String.prefix_correct. apply substring_front. Qed.

(** The call data of [transfer] carries the recipient (in lower case)
    and the amount. *)
Lemma encodeTransfer_decodes (checksum : string -> string) (recipient : string)
  (amount : Z) (data : string) :
  Viem.encodeTransfer checksum recipient amount = Normal data ->
  Viem.decodeTransfer data = Some (Viem.toLowerCase recipient, amount).
Proof.
  unfold Viem.encodeTransfer.
  destruct (Viem.isAddress checksum recipient) eqn:Haddr; cbn [negb]; [|discriminate].
  destruct (andb (0 <=? amount) (amount <? 2 ^ 256)) eqn:Hrange; cbn [negb];
    [|discriminate].
  intros H.
  assert (Hd : ("0x" ++ Viem.transferSelector
                  ++ Viem.word (Str.sliceFrom 2 (Viem.toLowerCase recipient))
                  ++ Viem.word (Viem.toHex amount))%string = data) by congruence.
  clear H. subst data.
  apply andb_prop in Hrange. destruct Hrange as [H0 H1].
  apply Z.leb_le in H0. apply Z.ltb_lt in H1.
  unfold Viem.isAddress in Haddr. apply andb_prop in Haddr. destruct Haddr as [Hshape _].
  destruct (addressShape_inv recipient Hshape) as (digits & -> & Hlen).
  destruct (word_amount amount (conj H0 H1)) as [Hwl Hwv].
  change (Viem.toLowerCase ("0x" ++ digits))
    with ("0x" ++ Viem.toLowerCase digits)%string.
  change (Str.sliceFrom 2 ("0x" ++ Viem.toLowerCase digits))
    with (Str.sliceFrom (String.length "0x") ("0x" ++ Viem.toLowerCase digits)).
  rewrite sliceFrom_behind.
  set (lower := Viem.toLowerCase digits).
  assert (Hll : String.length lower = 40%nat).
  { unfold lower. rewrite toLowerCase_length. exact Hlen. }
  assert (Hw1 : Viem.word lower = (Str.repeat "0" 24 ++ lower)%string).
  { unfold Viem.word, Str.padStart. rewrite Hll. reflexivity. }
  assert (Hw1l : String.length (Viem.word lower) = 64%nat).
  { apply padStart_length. lia. }
  unfold Viem.decodeTransfer.
  replace (String.length ("0x" ++ Viem.transferSelector ++ Viem.word lower
                            ++ Viem.word (Viem.toHex amount)))
    with 138%nat
    by (unfold Viem.transferSelector; simpl String.length;
        rewrite append_length, Hw1l, Hwl; reflexivity).
  rewrite <- (append_assoc "0x" Viem.transferSelector), prefix_append.
  rewrite append_assoc.
  simpl andb. cbv iota.
  change (String.substring 10 64 ("0x" ++ Viem.transferSelector ++ Viem.word lower
                                    ++ Viem.word (Viem.toHex amount)))
    with (String.substring 0 64 (Viem.word lower ++ Viem.word (Viem.toHex amount))).
  change (String.substring 74 64 ("0x" ++ Viem.transferSelector ++ Viem.word lower
                                    ++ Viem.word (Viem.toHex amount)))
    with (String.substring 64 64 (Viem.word lower ++ Viem.word (Viem.toHex amount))).
  rewrite (substring_first _ _ 64 Hw1l), (substring_second _ _ 64 64 Hw1l Hwl), Hwv.
  rewrite Hw1.
  rewrite (substring_first _ _ 24 (repeat_length _ _)).
  rewrite (substring_second _ _ 24 40 (repeat_length _ _) Hll).
  rewrite String.eqb_refl. reflexivity.
Qed.

(** ** The transaction given to the wallet *)

Lemma poll_sends_nothing (w : Modal.World) (id paymentId : string) (asked : nat)
  (h : Modal.Hooks) (tx : Wallet.Transaction) :
  ~ In (Modal.wallet_sendTransaction tx) (snd (fst (Modal.poll w id paymentId asked h))).
Proof.
  unfold Modal.poll. run_handler.
  destruct (Api.getPaymentStatus (Modal.net w) asked paymentId id) as [record|e];
    run_handler.
  - destruct (Api.status record); run_handler; simpl;
      intros Hin; repeat (destruct Hin as [Hin|Hin]; [discriminate|]); exact Hin.
  - simpl. intros [Hin|[]]. discriminate.
Qed.

Lemma polling_sends_nothing (w : Modal.World) (id paymentId : string) (polls : nat) :
  forall asked h tx,
    ~ In (Modal.wallet_sendTransaction tx)
         (snd (fst (Modal.polling w id paymentId asked polls h))).
Proof.
  induction polls as [|polls IH]; intros asked h tx; simpl.
  - intros [].
  - unfold Modal.bindM.
    pose proof (poll_sends_nothing w id paymentId asked h tx) as Hpoll.
    destruct (Modal.poll w id paymentId asked h) as [[h1 effects1] [armed|e]];
      simpl in Hpoll; [|exact Hpoll].
    destruct armed.
    + pose proof (IH (S asked) h1 tx) as Hrest.
      destruct (Modal.polling w id paymentId (S asked) polls h1) as [[h2 effects2] r].
      simpl in *. intros Hin. apply in_app_or in Hin. tauto.
    + unfold Modal.ret. simpl. rewrite app_nil_r. exact Hpoll.
Qed.

(** C5: a transaction that [handlePay] hands to the wallet has one of
    two shapes.  For a native token it goes to the merchant address of
    the intent, carries the base-unit amount as its value and has no
    data.  Otherwise it goes to the token address of the intent, has no
    value, and its data is the call [transfer(merchant, amount)]. *)
Theorem wallet_transaction_shapes
  (w : Modal.World) (id : string) (polls : nat) (h : Modal.Hooks)
  (tx : Wallet.Transaction) :
  In (Modal.wallet_sendTransaction tx) (snd (fst (Modal.handlePay w id polls h))) ->
  exists tool token intent wei,
    Modal.toolData h = Some tool
    /\ Modal.selectedToken h = Some token
    /\ Api.createIntent (Modal.net w) id (symbol token) = Normal intent
    /\ Viem.parseUnits (amount intent) (decimals token) = Normal wei
    /\ ((isNative token = true
         /\ tx = {| Wallet.to := merchantAddress intent;
                    Wallet.value := Some wei;
                    Wallet.data := None;
                    Wallet.chainId := chain_id tool |})
        \/ (isNative token = false
            /\ exists calldata,
                 tx = {| Wallet.to := tokenAddress intent;
                         Wallet.value := None;
                         Wallet.data := Some calldata;
                         Wallet.chainId := chain_id tool |}
                 /\ Viem.encodeTransfer (Modal.checksumAddress w)
                      (merchantAddress intent) wei = Normal calldata
                 /\ Viem.decodeTransfer calldata
                    = Some (Viem.toLowerCase (merchantAddress intent), wei))).
Proof.
  unfold Modal.handlePay.
  destruct (Modal.toolData h) as [tool|] eqn:Htool; [|intros []].
  destruct (Modal.selectedToken h) as [token|] eqn:Htoken; [|intros []].
  run_handler.
  destruct (Api.createIntent (Modal.net w) id (symbol token)) as [intent|e] eqn:Hintent;
    run_handler.
  2: { simpl. intros Hin. repeat (destruct Hin as [Hin|Hin]; [discriminate|]).
       destruct Hin. }
  destruct (Viem.parseUnits (amount intent) (decimals token)) as [wei|e] eqn:Hwei;
    run_handler.
  2: { simpl. intros Hin. repeat (destruct Hin as [Hin|Hin]; [discriminate|]).
       destruct Hin. }
  intros Hin. exists tool, token, intent, wei.
  split; [reflexivity|]. split; [reflexivity|]. split; [exact Hintent|].
  split; [exact Hwei|].
  unfold Modal.sendPayment in Hin.
  destruct (isNative token) eqn:Hnative.
  - left. split; [reflexivity|]. revert Hin. run_handler.
    match goal with
    | |- context [Wallet.sendTransaction (Modal.wallet w) ?t] =>
        destruct (Wallet.sendTransaction (Modal.wallet w) t) as [hash|e]
    end; run_handler.
    + match goal with
      | |- context [Api.submitPayment (Modal.net w) ?r id] =>
          destruct (Api.submitPayment (Modal.net w) r id) as [res|e]
      end; run_handler.
      * pose proof (polling_sends_nothing w id (Api.payment_id res) polls 0%nat) as Hp.
        match goal with
        | |- context [Modal.polling w id (Api.payment_id res) 0 polls ?h0] =>
            specialize (Hp h0 tx);
            destruct (Modal.polling w id (Api.payment_id res) 0 polls h0)
              as [[h2 effects2] [[]|e2]]
        end; simpl in *; intros Hin;
          repeat (destruct Hin as [Hin|Hin]; [congruence|]);
          try (apply in_app_or in Hin; destruct Hin as [Hin|Hin]);
          try contradiction;
          repeat (destruct Hin as [Hin|Hin]; [congruence|]); try contradiction.
      * simpl. intros Hin. repeat (destruct Hin as [Hin|Hin]; [congruence|]).
        destruct Hin.
    + simpl. intros Hin. repeat (destruct Hin as [Hin|Hin]; [congruence|]).
      destruct Hin.
  - right. split; [reflexivity|]. revert Hin. run_handler.
    destruct (Viem.encodeTransfer (Modal.checksumAddress w) (merchantAddress intent) wei)
      as [calldata|e] eqn:Hdata; run_handler.
    2: { simpl. intros Hin. repeat (destruct Hin as [Hin|Hin]; [discriminate|]).
         destruct Hin. }
    intros Hin. exists calldata.
    split; [|split; [reflexivity | apply (encodeTransfer_decodes _ _ _ _ Hdata)]].
    revert Hin.
    match goal with
    | |- context [Wallet.sendTransaction (Modal.wallet w) ?t] =>
        destruct (Wallet.sendTransaction (Modal.wallet w) t) as [hash|e]
    end; run_handler.
    + match goal with
      | |- context [Api.submitPayment (Modal.net w) ?r id] =>
          destruct (Api.submitPayment (Modal.net w) r id) as [res|e]
      end; run_handler.
      * pose proof (polling_sends_nothing w id (Api.payment_id res) polls 0%nat) as Hp.
        match goal with
        | |- context [Modal.polling w id (Api.payment_id res) 0 polls ?h0] =>
            specialize (Hp h0 tx);
            destruct (Modal.polling w id (Api.payment_id res) 0 polls h0)
              as [[h2 effects2] [[]|e2]]
        end; simpl in *; intros Hin;
          repeat (destruct Hin as [Hin|Hin]; [congruence|]);
          try (apply in_app_or in Hin; destruct Hin as [Hin|Hin]);
          try contradiction;
          repeat (destruct Hin as [Hin|Hin]; [congruence|]); try contradiction.
      * simpl. intros Hin. repeat (destruct Hin as [Hin|Hin]; [congruence|]).
        destruct Hin.
    + simpl. intros Hin. repeat (destruct Hin as [Hin|Hin]; [congruence|]).
      destruct Hin.
Qed.

Lemma wallet_transaction_shapes_witness :
  exists calldata,
    Wallet.data Sample.payment = Some calldata
    /\ Viem.decodeTransfer calldata = Some (Sample.merchant, 49990000).
Proof.
  destruct (wallet_transaction_shapes
              (Sample.world (Sample.server (Sample.answer (Sample.statusRecord Api.confirmed))))
              "tool_1" 3 (Modal.hooks Sample.opened) Sample.payment)
    as (tool & token & intent & wei & _ & Htoken & Hintent & Hwei & Hshape).
  - vm_compute. auto.
  - vm_compute in Htoken. injection Htoken as <-.
    vm_compute in Hintent. injection Hintent as <-.
    vm_compute in Hwei. injection Hwei as <-.
    destruct Hshape as [[Hnative _]|[_ (calldata & Htx & _ & Hdecode)]].
    + discriminate Hnative.
    + exists calldata. split; [rewrite Htx; reflexivity | exact Hdecode].
Defined.

(** ** Strings of decimal digits *)

Lemma all_app (p : ascii -> bool) (a b : string) :
  Str.all p (a ++ b) = andb (Str.all p a) (Str.all p b).
Proof.
  induction a as [|ch a IH]; simpl; [reflexivity|].
  rewrite IH, andb_assoc. reflexivity.
Qed.

Lemma all_impl (p q : ascii -> bool) (s : string) :
  (forall ch, p ch = true -> q ch = true) -> Str.all p s = true -> Str.all q s = true.
Proof.
  intros Hpq. induction s as [|ch s IH]; simpl; [trivial|].
  intros H. apply andb_prop in H. destruct H as [H1 H2].
  rewrite (Hpq _ H1), (IH H2). reflexivity.
Qed.

Lemma all_repeat (p : ascii -> bool) (ch : ascii) (n : nat) :
  p ch = true -> Str.all p (Str.repeat ch n) = true.
Proof. intros H. induction n as [|n IH]; simpl; [|rewrite H, IH]; reflexivity. Qed.

(** The digit a character stands for. *)
Lemma digit_value (ch : ascii) (d : Decimal.uint) :
  Str.isDigit ch = true ->
  exists d',
    uint_of_char ch (Some d) = Some d'
    /\ Z.of_uint d' = (Z.of_nat (nat_of_ascii ch) - 48)
                      * 10 ^ Z.of_N (DecimalPos.Unsigned.usize d) + Z.of_uint d
    /\ DecimalPos.Unsigned.usize d' = N.succ (DecimalPos.Unsigned.usize d).
Proof.
  intros Hd.
  assert (Hrec : forall k : Decimal.uint -> Decimal.uint,
             Decimal.rev (k d) = Decimal.revapp d (k Decimal.Nil) ->
             Z.of_uint (k d)
             = Z.of_N (DecimalPos.Unsigned.of_lu (k Decimal.Nil))
               * 10 ^ Z.of_N (DecimalPos.Unsigned.usize d) + Z.of_uint d).
  { intros k Hrev. unfold Z.of_uint.
    rewrite !DecimalPos.Unsigned.of_uint_alt, Hrev, DecimalPos.Unsigned.of_lu_revapp.
    rewrite N2Z.inj_add, N2Z.inj_mul, N2Z.inj_pow. simpl Z.of_N at 4. lia. }
  destruct ch as [[] [] [] [] [] [] [] []]; try discriminate Hd; clear Hd;
    eexists; (split; [reflexivity|]); (split; [|reflexivity]);
    match goal with
    | |- Z.of_uint (?k d) = _ => rewrite (Hrec k eq_refl); reflexivity
    end.
Qed.

Lemma digits_parse (s : string) :
  Str.all Str.isDigit s = true ->
  exists d,
    DecimalString.NilEmpty.uint_of_string s = Some d
    /\ DecimalPos.Unsigned.usize d = N.of_nat (String.length s).
Proof.
  induction s as [|ch s IH]; simpl.
  - intros _. exists Decimal.Nil. split; reflexivity.
  - intros H. apply andb_prop in H. destruct H as [Hc Hs].
    destruct (IH Hs) as (d & Hd & Hsize). rewrite Hd.
    destruct (digit_value ch d Hc) as (d' & Hd' & _ & Hsize').
    exists d'. split; [exact Hd'|]. rewrite Hsize', Hsize. lia.
Qed.

Lemma digitsValue_cons (ch : ascii) (s : string) :
  Str.isDigit ch = true -> Str.all Str.isDigit s = true ->
  Viem.digitsValue (String ch s)
  = (Z.of_nat (nat_of_ascii ch) - 48) * 10 ^ Z.of_nat (String.length s)
    + Viem.digitsValue s.
Proof.
  intros Hc Hs. unfold Viem.digitsValue. simpl.
  destruct (digits_parse s Hs) as (d & Hd & Hsize). rewrite Hd.
  destruct (digit_value ch d Hc) as (d' & Hd' & Hval & _).
  rewrite Hd', Hval, Hsize, nat_N_Z. reflexivity.
Qed.

Lemma digitsValue_app (a b : string) :
  Str.all Str.isDigit a = true -> Str.all Str.isDigit b = true ->
  Viem.digitsValue (a ++ b)
  = Viem.digitsValue a * 10 ^ Z.of_nat (String.length b) + Viem.digitsValue b.
Proof.
  intros Ha Hb. induction a as [|ch a IH]; simpl.
  - change (Viem.digitsValue EmptyString) with 0. lia.
  - simpl in Ha. apply andb_prop in Ha. destruct Ha as [Hc Ha].
    rewrite !digitsValue_cons; try assumption.
    + rewrite (IH Ha), append_length, Nat2Z.inj_add, Z.pow_add_r by lia. ring.
    + rewrite all_app, Ha, Hb. reflexivity.
Qed.

Lemma digitsValue_zeros (n : nat) : Viem.digitsValue (Str.repeat "0" n) = 0.
Proof.
  induction n as [|n IH]; [reflexivity|].
  simpl Str.repeat. rewrite digitsValue_cons, IH; [reflexivity | reflexivity |].
  apply all_repeat. reflexivity.
Qed.

Lemma isDigit_plain (ch : ascii) :
  Str.isDigit ch = true ->
  Ascii.eqb ch "." = false /\ Ascii.eqb ch "-" = false /\ Ascii.eqb ch "+" = false.
Proof.
  destruct ch as [[] [] [] [] [] [] [] []]; try discriminate; intros _;
    repeat split; reflexivity.
Qed.

(** [BigInt] on digits, and on digits after a minus sign. *)
Lemma BigInt_digits (s : string) :
  Str.all Str.isDigit s = true -> BigInt s = Normal (Viem.digitsValue s).
Proof.
  intros Hs. destruct s as [|ch s]; [reflexivity|].
  pose proof Hs as Hs'. simpl in Hs'. apply andb_prop in Hs'. destruct Hs' as [Hc _].
  destruct (isDigit_plain ch Hc) as (_ & Hminus & Hplus).
  destruct (digits_parse _ Hs) as (d & Hd & _).
  unfold BigInt, Viem.digitsValue. rewrite Hplus. cbn [andb].
  unfold DecimalString.NilZero.int_of_string, DecimalString.NilZero.uint_of_string.
  rewrite Hminus, Hd. reflexivity.
Qed.

Lemma BigInt_minus_digits (s : string) :
  Str.all Str.isDigit s = true -> s <> EmptyString ->
  BigInt (String "-" s) = Normal (- Viem.digitsValue s).
Proof.
  intros Hs Hne. destruct s as [|ch s]; [contradiction|].
  destruct (digits_parse _ Hs) as (d & Hd & _).
  unfold BigInt, Viem.digitsValue.
  change (Ascii.eqb "-" "+") with false. cbn [andb].
  unfold DecimalString.NilZero.int_of_string, DecimalString.NilZero.uint_of_string.
  change (Ascii.eqb "-" "-") with true. cbv iota.
  rewrite Hd. reflexivity.
Qed.

(** ** Trailing zeros *)

Lemma stripTrailingZeros_spec (s : string) :
  s = (Str.stripTrailingZeros s
         ++ Str.repeat "0" (String.length s - String.length (Str.stripTrailingZeros s)))%string
  /\ (String.length (Str.stripTrailingZeros s) <= String.length s)%nat.
Proof.
  induction s as [|ch s [IH Hle]]; simpl; [split; [reflexivity | lia]|].
  destruct (Str.stripTrailingZeros s) as [|c' s'] eqn:E.
  - destruct (Ascii.eqb_spec ch "0") as [->|Hne]; simpl.
    + simpl in IH. rewrite Nat.sub_0_r in IH. rewrite <- IH. split; [reflexivity | lia].
    + simpl in IH. rewrite Nat.sub_0_r in *. rewrite <- IH. split; [reflexivity | lia].
  - simpl in *. split; [|lia]. rewrite <- IH. reflexivity.
Qed.

Lemma stripTrailingZeros_all (p : ascii -> bool) (s : string) :
  Str.all p s = true -> Str.all p (Str.stripTrailingZeros s) = true.
Proof.
  induction s as [|ch s IH]; simpl; [trivial|].
  intros H. apply andb_prop in H. destruct H as [Hc Hs]. specialize (IH Hs).
  destruct (Str.stripTrailingZeros s) as [|c' s'].
  - destruct (Ascii.eqb ch "0"); simpl; [reflexivity | rewrite Hc; reflexivity].
  - simpl in *. rewrite Hc, IH. reflexivity.
Qed.

(** ** Splitting at a character *)

Lemma split_without (sep : ascii) (s : string) :
  Str.all (fun ch => negb (Ascii.eqb ch sep)) s = true -> Str.split sep s = [s].
Proof.
  induction s as [|ch s IH]; simpl; [reflexivity|].
  intros H. apply andb_prop in H. destruct H as [Hc Hs].
  apply negb_true_iff in Hc. rewrite Hc, (IH Hs). reflexivity.
Qed.

Lemma split_at (sep : ascii) (a b : string) :
  Str.all (fun ch => negb (Ascii.eqb ch sep)) a = true ->
  Str.split sep (a ++ String sep b) = a :: Str.split sep b.
Proof.
  induction a as [|ch a IH]; simpl.
  - intros _. rewrite Ascii.eqb_refl. reflexivity.
  - intros H. apply andb_prop in H. destruct H as [Hc Ha].
    apply negb_true_iff in Hc. rewrite Hc, (IH Ha). reflexivity.
Qed.

(** ** parseUnits *)

Lemma prefix_minus_digits (s rest : string) :
  Str.all Str.isDigit s = true -> s <> EmptyString ->
  String.prefix "-" (s ++ rest) = false.
Proof.
  intros Hs Hne. destruct s as [|ch s]; [contradiction|].
  simpl in Hs. apply andb_prop in Hs. destruct Hs as [Hc _].
  destruct (isDigit_plain ch Hc) as (_ & Hminus & _).
  destruct (String.prefix "-" (String ch s ++ rest)) eqn:E; [|reflexivity].
  apply String.prefix_correct in E. simpl in E. injection E as ->.
  discriminate Hminus.
Qed.

Lemma prefix_minus (s : string) : String.prefix "-" (String "-" s) = true.
Proof. apply (prefix_append "-" s). Qed.

Lemma sliceFrom_sign (s : string) : Str.sliceFrom 1 (String "-" s) = s.
Proof. apply (sliceFrom_behind "-" s). Qed.

Lemma digits_without_point (s : string) :
  Str.all Str.isDigit s = true ->
  Str.all (fun ch => negb (Ascii.eqb ch ".")) s = true.
Proof.
  apply all_impl. intros ch Hc. destruct (isDigit_plain ch Hc) as (-> & _). reflexivity.
Qed.

Lemma parseUnits_with_point (negative : bool) (integer digits : string) (decimals : nat) :
  Str.all Str.isDigit integer = true -> integer <> EmptyString ->
  Str.all Str.isDigit digits = true ->
  (String.length (Str.stripTrailingZeros digits) <= decimals)%nat ->
  Viem.parseUnits (Spec.decimalText negative integer (Some digits)) decimals
  = BigInt ((if negative then "-" else EmptyString) ++ integer
              ++ Str.padEnd decimals (Str.stripTrailingZeros digits))%string.
Proof.
  intros Hi Hne Hd Hfit.
  set (sign := if negative then "-" else EmptyString).
  assert (Htext : Spec.decimalText negative integer (Some digits)
                  = ((sign ++ integer) ++ String "." digits)%string).
  { unfold Spec.decimalText, sign. rewrite append_assoc. reflexivity. }
  assert (Hprefix : forall rest, String.prefix "-" ((sign ++ integer) ++ rest) = negative).
  { intros rest. unfold sign. destruct negative.
    - apply prefix_minus.
    - apply prefix_minus_digits; assumption. }
  assert (Hunsigned : forall rest,
             (if negative then Str.sliceFrom 1 ((sign ++ integer) ++ rest)
              else ((sign ++ integer) ++ rest)%string) = (integer ++ rest)%string).
  { intros rest. unfold sign. destruct negative; [apply sliceFrom_sign | reflexivity]. }
  assert (Hplain : Str.all (fun ch => negb (Ascii.eqb ch ".")) (sign ++ integer) = true).
  { rewrite all_app, (digits_without_point _ Hi). unfold sign.
    destruct negative; reflexivity. }
  assert (Hdecimal : Viem.isDecimalNumber (Spec.decimalText negative integer (Some digits))
                     = true).
  { unfold Viem.isDecimalNumber. rewrite Htext, Hprefix, Hunsigned.
    rewrite split_at, split_without by (apply digits_without_point; assumption).
    rewrite Hi, Hd. reflexivity. }
  unfold Viem.parseUnits. rewrite Hdecimal. cbn [negb].
  rewrite Htext, split_at, split_without
    by (try assumption; apply digits_without_point; assumption).
  cbv beta iota zeta.
  rewrite <- (append_empty (sign ++ integer)), Hprefix, Hunsigned, !append_empty.
  fold sign.
  destruct (Nat.eqb_spec decimals 0) as [->|Hpos].
  - assert (Hstrip : Str.stripTrailingZeros digits = EmptyString).
    { destruct (Str.stripTrailingZeros digits); [reflexivity | simpl in Hfit; lia]. }
    rewrite Hstrip. reflexivity.
  - destruct (Nat.ltb_spec decimals (String.length (Str.stripTrailingZeros digits)));
      [lia | reflexivity].
Qed.

Lemma parseUnits_without_point (negative : bool) (integer : string) (decimals : nat) :
  Str.all Str.isDigit integer = true -> integer <> EmptyString ->
  Viem.parseUnits (Spec.decimalText negative integer None) decimals
  = BigInt ((if negative then "-" else EmptyString) ++ integer
              ++ Str.padEnd decimals EmptyString)%string.
Proof.
  intros Hi Hne.
  set (sign := if negative then "-" else EmptyString).
  assert (Htext : Spec.decimalText negative integer None = (sign ++ integer)%string).
  { unfold Spec.decimalText, sign. rewrite append_empty. reflexivity. }
  assert (Hprefix : String.prefix "-" (sign ++ integer) = negative).
  { unfold sign. destruct negative.
    - apply prefix_minus.
    - change (String.prefix "-" integer = false).
      rewrite <- (append_empty integer).
      apply (prefix_minus_digits integer EmptyString); assumption. }
  assert (Hunsigned : (if negative then Str.sliceFrom 1 (sign ++ integer)
                       else (sign ++ integer)%string) = integer).
  { unfold sign. destruct negative; [apply sliceFrom_sign | reflexivity]. }
  assert (Hplain : Str.all (fun ch => negb (Ascii.eqb ch ".")) (sign ++ integer) = true).
  { rewrite all_app, (digits_without_point _ Hi). unfold sign.
    destruct negative; reflexivity. }
  assert (Hdecimal : Viem.isDecimalNumber (Spec.decimalText negative integer None) = true).
  { unfold Viem.isDecimalNumber. rewrite Htext, Hprefix, Hunsigned.
    rewrite split_without by (apply digits_without_point; assumption).
    exact Hi. }
  unfold Viem.parseUnits. rewrite Hdecimal. cbn [negb].
  rewrite Htext, split_without by assumption.
  cbv beta iota zeta.
  rewrite Hprefix, Hunsigned. fold sign.
  change (Str.stripTrailingZeros "0") with EmptyString.
  destruct (Nat.eqb_spec decimals 0) as [->|Hpos]; reflexivity.
Qed.

Lemma BigInt_signed (negative : bool) (s : string) :
  Str.all Str.isDigit s = true -> s <> EmptyString ->
  BigInt ((if negative then "-" else EmptyString) ++ s)%string
  = Normal ((if negative then -1 else 1) * Viem.digitsValue s).
Proof.
  intros Hs Hne. destruct negative.
  - change ("-" ++ s)%string with (String "-" s).
    rewrite BigInt_minus_digits by assumption. f_equal; lia.
  - change (EmptyString ++ s)%string with s.
    rewrite BigInt_digits by assumption. f_equal; lia.
Qed.

(** With no more fraction digits than the token has decimals, the
    conversion appends zeros to the digits and is exact. *)
Lemma parseUnits_exact (negative : bool) (integer : string) (fraction : option string)
  (decimals : nat) :
  Str.all Str.isDigit integer = true -> integer <> EmptyString ->
  Str.all Str.isDigit (Spec.fractionOf fraction) = true ->
  (String.length (Str.stripTrailingZeros (Spec.fractionOf fraction)) <= decimals)%nat ->
  exists n,
    Viem.parseUnits (Spec.decimalText negative integer fraction) decimals = Normal n
    /\ Spec.exactUnits negative integer fraction decimals n.
Proof.
  intros Hi Hne Hf Hfit.
  set (F := Spec.fractionOf fraction) in *.
  set (F' := Str.stripTrailingZeros F) in *.
  assert (Hnormal : Viem.parseUnits (Spec.decimalText negative integer fraction) decimals
                    = BigInt ((if negative then "-" else EmptyString)
                                ++ integer ++ Str.padEnd decimals F')%string).
  { destruct fraction as [digits|].
    - apply parseUnits_with_point; assumption.
    - apply parseUnits_without_point; assumption. }
  destruct (stripTrailingZeros_spec F) as [Hsplit Hle]. fold F' in Hsplit, Hle.
  pose proof (stripTrailingZeros_all Str.isDigit F Hf) as Hf'. fold F' in Hf'.
  set (j := (String.length F - String.length F')%nat) in *.
  set (k := (decimals - String.length F')%nat).
  assert (Hzeros : forall m, Str.all Str.isDigit (Str.repeat "0" m) = true).
  { intros m. apply all_repeat. reflexivity. }
  assert (Hpad : Str.all Str.isDigit (Str.padEnd decimals F') = true).
  { unfold Str.padEnd. rewrite all_app, Hf', Hzeros. reflexivity. }
  rewrite Hnormal, BigInt_signed.
  2: { rewrite all_app, Hi, Hpad. reflexivity. }
  2: { destruct integer; [contradiction | discriminate]. }
  eexists. split; [reflexivity|].
  unfold Spec.exactUnits. fold F.
  rewrite !digitsValue_app by assumption.
  unfold Str.padEnd. fold k.
  rewrite digitsValue_app, digitsValue_zeros by auto.
  rewrite append_length, repeat_length.
  rewrite Hsplit at 3. fold j.
  rewrite digitsValue_app, digitsValue_zeros by auto.
  assert (HF : String.length F = (String.length F' + j)%nat) by (unfold j; lia).
  assert (Hk : decimals = (String.length F' + k)%nat) by (unfold k; lia).
  rewrite repeat_length, HF.
  clearbody k j. rewrite Hk.
  rewrite !Nat2Z.inj_add, !Z.pow_add_r by lia.
  ring.
Qed.




(** ** The webhook verifier *)

(** The comparison of step 3 is equality of the two strings. *)
Lemma differences_zero (a b : string) :
  forall acc,
    String.length a = String.length b ->
    (Webhook.differences a b acc = 0%N <-> acc = 0%N /\ a = b).
Proof.
  revert b. induction a as [|x a IH]; intros [|y b] acc Hlen; simpl in *;
    try discriminate.
  - split; [intros ->; split; reflexivity | intros [-> _]; reflexivity].
  - injection Hlen as Hlen. rewrite (IH b _ Hlen). rewrite N.lor_eq_0_iff, N.lxor_eq_0_iff.
    split.
    + intros [[-> Hxy] ->]. apply (f_equal ascii_of_N) in Hxy.
      rewrite !ascii_N_embedding in Hxy. subst y. split; reflexivity.
    + intros [-> [= -> ->]]. repeat split; reflexivity.
Qed.

Lemma constantTimeEqual_eqb (a b : string) :
  Webhook.constantTimeEqual a b = String.eqb a b.
Proof.
  unfold Webhook.constantTimeEqual.
  destruct (Nat.eqb_spec (String.length a) (String.length b)) as [Hlen|Hlen]; simpl.
  - destruct (String.eqb_spec a b) as [->|Hne].
    + apply N.eqb_eq. apply differences_zero; auto.
    + apply N.eqb_neq. intros H. apply differences_zero in H; [|assumption].
      destruct H as [_ H]. contradiction.
  - destruct (String.eqb_spec a b) as [->|Hne]; [contradiction | reflexivity].
Qed.

Lemma hexDigit_lower (d : Z) :
  0 <= d < 16 -> Webhook.isLowerHexDigit (Sha256.hexDigit d) = true.
Proof.
  intros H.
  assert (Hd : In d [0; 1; 2; 3; 4; 5; 6; 7; 8; 9; 10; 11; 12; 13; 14; 15]).
  { simpl. lia. }
  simpl in Hd.
  repeat (destruct Hd as [<-|Hd]; [reflexivity|]). contradiction.
Qed.

Lemma hex_lower (bytes : list Z) :
  Str.all Webhook.isLowerHexDigit (Sha256.hex bytes) = true.
Proof.
  induction bytes as [|b bytes IH]; [reflexivity|].
  cbn [Sha256.hex Str.all].
  rewrite !hexDigit_lower, IH by (apply Z.mod_pos_bound; lia). reflexivity.
Qed.

Lemma hex_length (bytes : list Z) :
  String.length (Sha256.hex bytes) = (2 * List.length bytes)%nat.
Proof.
  induction bytes as [|b bytes IH]; [reflexivity|].
  cbn [Sha256.hex String.length List.length]. rewrite IH. lia.
Qed.

(** The digest has 32 bytes. *)
Lemma bigEndian_length (n : nat) (x : Z) : List.length (Sha256.bigEndian n x) = n.
Proof.
  revert x. induction n as [|n IH]; intros x; simpl; [reflexivity|].
  rewrite length_app, IH. simpl. lia.
Qed.

Lemma round_length (s : list Z) (kw : Z * Z) :
  List.length s = 8%nat -> List.length (Sha256.round s kw) = 8%nat.
Proof.
  intros H.
  destruct s as [|a [|b [|c [|d [|e [|f [|g [|h [|]]]]]]]]]; try discriminate H.
  reflexivity.
Qed.

Lemma rounds_length (l : list (Z * Z)) :
  forall s, List.length s = 8%nat -> List.length (fold_left Sha256.round l s) = 8%nat.
Proof.
  induction l as [|kw l IH]; intros s H; simpl; [exact H|].
  apply IH. apply round_length. exact H.
Qed.

Lemma compress_length (h block : list Z) :
  List.length h = 8%nat -> List.length (Sha256.compress h block) = 8%nat.
Proof.
  intros H. unfold Sha256.compress.
  rewrite length_map, length_combine, rounds_length, H by exact H. reflexivity.
Qed.

Lemma sha256_length (message : list Z) : List.length (Sha256.sha256 message) = 32%nat.
Proof.
  unfold Sha256.sha256.
  assert (Hstate : forall blocks h, List.length h = 8%nat ->
                     List.length (fold_left Sha256.compress blocks h) = 8%nat).
  { induction blocks as [|b blocks IH]; intros h H; simpl; [exact H|].
    apply IH. apply compress_length. exact H. }
  match goal with
  | |- List.length (flat_map _ ?state) = _ =>
      assert (Hs : List.length state = 8%nat) by (apply Hstate; vm_compute; reflexivity);
      generalize dependent state
  end.
  intros state Hs.
  destruct state as [|a [|b [|c [|d [|e [|f [|g [|h [|]]]]]]]]]; try discriminate Hs.
  cbn [flat_map]. rewrite !length_app, !bigEndian_length. reflexivity.
Qed.

Lemma expectedSignature_shape (secret tText rawBody : string) :
  Webhook.isLowerHex (Webhook.expectedSignature secret tText rawBody) = true
  /\ String.length (Webhook.expectedSignature secret tText rawBody) = 64%nat.
Proof.
  assert (Hlen : String.length (Webhook.expectedSignature secret tText rawBody) = 64%nat).
  { unfold Webhook.expectedSignature, Sha256.hmac.
    rewrite hex_length, sha256_length. reflexivity. }
  split; [|exact Hlen].
  unfold Webhook.isLowerHex. apply andb_true_intro. split.
  - destruct (Webhook.expectedSignature secret tText rawBody);
      [discriminate Hlen | reflexivity].
  - unfold Webhook.expectedSignature. apply hex_lower.
Qed.

(** The decimal text of an integer. *)
Lemma string_of_uint_digits (d : Decimal.uint) :
  Str.all Str.isDigit (DecimalString.NilEmpty.string_of_uint d) = true.
Proof. induction d; simpl; try rewrite IHd; reflexivity. Qed.

Lemma toString_shape (z : Z) :
  exists digits,
    Str.all Str.isDigit digits = true /\ digits <> EmptyString
    /\ toString z = ((if (z <? 0)%Z then "-" else EmptyString) ++ digits)%string.
Proof.
  assert (Hu : forall d,
             Str.all Str.isDigit (DecimalString.NilZero.string_of_uint d) = true
             /\ DecimalString.NilZero.string_of_uint d <> EmptyString).
  { intros d. split.
    - destruct d; try reflexivity; apply (string_of_uint_digits (_ d)).
    - destruct d; discriminate. }
  unfold toString. destruct z as [|p|p]; simpl.
  - exists "0". repeat split. discriminate.
  - destruct (Hu (Pos.to_uint p)) as [H1 H2]. eexists. repeat split; eassumption.
  - destruct (Hu (Pos.to_uint p)) as [H1 H2]. eexists. repeat split; eassumption.
Qed.

Lemma toString_decimal (z : Z) : Webhook.isDecimalInteger (toString z) = true.
Proof.
  destruct (toString_shape z) as (digits & Hd & Hne & ->).
  unfold Webhook.isDecimalInteger.
  destruct (z <? 0).
  - change ("-" ++ digits)%string with (String "-" digits).
    rewrite prefix_minus, sliceFrom_sign, Hd.
    destruct digits; [contradiction | reflexivity].
  - change (EmptyString ++ digits)%string with digits.
    pose proof (prefix_minus_digits digits EmptyString Hd Hne) as Hp.
    rewrite append_empty in Hp. rewrite Hp, Hd.
    destruct digits; [contradiction | reflexivity].
Qed.

Lemma without_comma_digit (ch : ascii) :
  Str.isDigit ch = true -> negb (Ascii.eqb ch ",") = true.
Proof. destruct ch as [[] [] [] [] [] [] [] []]; try discriminate; reflexivity. Qed.

Lemma without_comma_hex (ch : ascii) :
  Webhook.isLowerHexDigit ch = true -> negb (Ascii.eqb ch ",") = true.
Proof. destruct ch as [[] [] [] [] [] [] [] []]; try discriminate; reflexivity. Qed.

Lemma toString_without_comma (z : Z) :
  Str.all (fun ch => negb (Ascii.eqb ch ",")) (toString z) = true.
Proof.
  destruct (toString_shape z) as (digits & Hd & _ & ->).
  rewrite all_app, (all_impl _ _ _ without_comma_digit Hd).
  destruct (z <? 0); reflexivity.
Qed.

(** [key=value] is read back as the key and the value. *)
Lemma indexOf_after (sep : ascii) (k rest : string) :
  Str.all (fun ch => negb (Ascii.eqb ch sep)) k = true ->
  Str.indexOf sep (k ++ String sep rest) = Some (String.length k).
Proof.
  induction k as [|ch k IH]; simpl.
  - intros _. rewrite Ascii.eqb_refl. reflexivity.
  - intros H. apply andb_prop in H. destruct H as [Hc Hk].
    apply negb_true_iff in Hc. rewrite Hc, (IH Hk). reflexivity.
Qed.

Lemma parsePair_key_value (k v : string) :
  Str.all (fun ch => negb (Ascii.eqb ch "=")) k = true ->
  Webhook.parsePair (k ++ String "=" v) = Some (k, v).
Proof.
  intros Hk. unfold Webhook.parsePair. rewrite (indexOf_after _ _ _ Hk).
  rewrite substring_front.
  change (k ++ String "=" v)%string with (k ++ ("=" ++ v))%string.
  rewrite <- append_assoc.
  replace (S (String.length k)) with (String.length (k ++ "="))
    by (rewrite append_length; simpl; lia).
  rewrite sliceFrom_behind. reflexivity.
Qed.

(** The header of the backend is read back as the timestamp and the
    signature it was built from. *)
Lemma parse_signedHeader (secret rawBody : string) (timestamp : Z) :
  Webhook.parseSignatureHeader (Webhook.signedHeader secret rawBody timestamp)
  = Some {| Webhook.t_text := toString timestamp;
            Webhook.t := timestamp;
            Webhook.v1 := Webhook.expectedSignature secret (toString timestamp) rawBody |}.
Proof.
  set (T := toString timestamp).
  set (X := Webhook.expectedSignature secret T rawBody).
  destruct (expectedSignature_shape secret T rawBody) as [Hhex Hlen]. fold X in Hhex, Hlen.
  assert (Hheader : Webhook.signedHeader secret rawBody timestamp
                    = (("t=" ++ T) ++ String "," ("v1=" ++ X))%string).
  { unfold Webhook.signedHeader. fold T. fold X. rewrite !append_assoc. reflexivity. }
  assert (HX : Str.all (fun ch => negb (Ascii.eqb ch ",")) ("v1=" ++ X) = true).
  { rewrite all_app. unfold Webhook.isLowerHex in Hhex.
    apply andb_prop in Hhex. destruct Hhex as [_ Hhex].
    rewrite (all_impl _ _ _ without_comma_hex Hhex). reflexivity. }
  assert (HT : Str.all (fun ch => negb (Ascii.eqb ch ",")) ("t=" ++ T) = true).
  { rewrite all_app. unfold T. rewrite toString_without_comma. reflexivity. }
  unfold Webhook.parseSignatureHeader.
  rewrite Hheader, (split_at _ _ _ HT), (split_without _ _ HX).
  cbn [Webhook.parsePairs].
  change ("t=" ++ T)%string with ("t" ++ String "=" T)%string.
  change ("v1=" ++ X)%string with ("v1" ++ String "=" X)%string.
  rewrite (parsePair_key_value "t" T eq_refl), (parsePair_key_value "v1" X eq_refl).
  cbn [Webhook.field]. change (String.eqb "t" "t") with true.
  change (String.eqb "t" "v1") with false. change (String.eqb "v1" "v1") with true.
  cbv iota.
  unfold T at 1. rewrite toString_decimal, Hhex. cbn [andb].
  unfold T at 1. rewrite toString_parses, DecimalZ.of_to. reflexivity.
Qed.

(** C1: a header that carries the lowercase-hex HMAC-SHA256 of
    ["{t}.{rawBody}"] under the secret is accepted when [|now - t|] is
    within the tolerance; whatever the header, it is rejected when its
    timestamp is further from [now] than the tolerance, the signature
    being valid or not. *)
Theorem verifyWebhookSignature_window
  (now : Z) (rawBody secret : string) (timestamp : Z) (toleranceSec : option Z) :
  let toleranceSeconds := match toleranceSec with Some s => s | None => 300 end in
  (Z.abs (now - timestamp) <= toleranceSeconds ->
   Webhook.verifyWebhookSignature now rawBody
     (Webhook.signedHeader secret rawBody timestamp) secret toleranceSec = Normal true)
  /\ (toleranceSeconds < Z.abs (now - timestamp) ->
      Webhook.verifyWebhookSignature now rawBody
        (Webhook.signedHeader secret rawBody timestamp) secret toleranceSec = Normal false)
  /\ (forall signatureHeader envelope,
        Webhook.parseSignatureHeader signatureHeader = Some envelope ->
        Webhook.t envelope = timestamp ->
        toleranceSeconds < Z.abs (now - timestamp) ->
        Webhook.verifyWebhookSignature now rawBody signatureHeader secret toleranceSec
        = Normal false)
  /\ (forall signatureHeader envelope,
        Webhook.parseSignatureHeader signatureHeader = Some envelope ->
        Webhook.t envelope = timestamp ->
        Webhook.v1 envelope
        = Webhook.expectedSignature secret (Webhook.t_text envelope) rawBody ->
        Z.abs (now - timestamp) <= toleranceSeconds ->
        Webhook.verifyWebhookSignature now rawBody signatureHeader secret toleranceSec
        = Normal true).
Proof.
  intros toleranceSeconds.
  assert (Hlate : forall signatureHeader envelope,
             Webhook.parseSignatureHeader signatureHeader = Some envelope ->
             Webhook.t envelope = timestamp ->
             toleranceSeconds < Z.abs (now - timestamp) ->
             Webhook.verifyWebhookSignature now rawBody signatureHeader secret toleranceSec
             = Normal false).
  { intros signatureHeader envelope Hparse Ht Hout.
    unfold Webhook.verifyWebhookSignature. rewrite Hparse, Ht.
    fold toleranceSeconds.
    destruct (Z.leb_spec (Z.abs (now - timestamp)) toleranceSeconds); [lia|].
    rewrite andb_false_r. reflexivity. }
  assert (Hfresh : forall signatureHeader envelope,
             Webhook.parseSignatureHeader signatureHeader = Some envelope ->
             Webhook.t envelope = timestamp ->
             Webhook.v1 envelope
             = Webhook.expectedSignature secret (Webhook.t_text envelope) rawBody ->
             Z.abs (now - timestamp) <= toleranceSeconds ->
             Webhook.verifyWebhookSignature now rawBody signatureHeader secret toleranceSec
             = Normal true).
  { intros signatureHeader envelope Hparse Ht Hv Hin.
    unfold Webhook.verifyWebhookSignature. rewrite Hparse, Ht, Hv.
    rewrite constantTimeEqual_eqb, String.eqb_refl. fold toleranceSeconds.
    destruct (Z.leb_spec (Z.abs (now - timestamp)) toleranceSeconds); [reflexivity | lia]. }
  split; [|split; [|split]].
  - intros Hin.
    eapply Hfresh; [apply parse_signedHeader | reflexivity | reflexivity | exact Hin].
  - intros Hout. eapply Hlate; [apply parse_signedHeader | reflexivity | exact Hout].
  - exact Hlate.
  - exact Hfresh.
Qed.

Lemma verifyWebhookSignature_window_witness :
  Webhook.verifyWebhookSignature (Sample.signedAt + 100) Sample.webhookBody
    (Webhook.signedHeader Sample.webhookSecret Sample.webhookBody Sample.signedAt)
    Sample.webhookSecret None = Normal true
  /\ Webhook.verifyWebhookSignature (Sample.signedAt + 600) Sample.webhookBody
       (Webhook.signedHeader Sample.webhookSecret Sample.webhookBody Sample.signedAt)
       Sample.webhookSecret (Some 300) = Normal false.
Proof.
  split.
  - destruct (verifyWebhookSignature_window (Sample.signedAt + 100) Sample.webhookBody
                Sample.webhookSecret Sample.signedAt None) as [Hin _].
    apply Hin. vm_compute. discriminate.
  - destruct (verifyWebhookSignature_window (Sample.signedAt + 600) Sample.webhookBody
                Sample.webhookSecret Sample.signedAt (Some 300)) as [_ [Hout _]].
    apply Hout. vm_compute. reflexivity.
Defined.

(** The scenarios of the specification, with the header written out:
    the body signed with the secret is accepted, the body signed with
    another secret is not. *)
Example webhook_scenarios :
  Webhook.signedHeader Sample.webhookSecret Sample.webhookBody Sample.signedAt
  = "t=1700000000,v1=f40da69b0b0f4b664ed8ea832d3bb7cd878685621401031fdb3e295f3a3104b8"
  /\ Webhook.verifyWebhookSignature 1700000000 Sample.webhookBody
       "t=1700000000,v1=f40da69b0b0f4b664ed8ea832d3bb7cd878685621401031fdb3e295f3a3104b8"
       Sample.webhookSecret None = Normal true
  /\ Webhook.verifyWebhookSignature 1700000000 Sample.webhookBody
       (Webhook.signedHeader "wrong_secret" Sample.webhookBody 1700000000)
       Sample.webhookSecret None = Normal false.
Proof. vm_compute. repeat split; reflexivity. Qed.

Lemma indexOf_splits (sep : ascii) (s : string) :
  forall i,
    Str.indexOf sep s = Some i ->
    s = (String.substring 0 i s ++ String sep (Str.sliceFrom (S i) s))%string.
Proof.
  induction s as [|ch s IH]; intros i; simpl; [discriminate|].
  destruct (Ascii.eqb_spec ch sep) as [->|Hne].
  - intros [= <-]. simpl. unfold Str.sliceFrom. simpl.
    rewrite Nat.sub_0_r, substring_whole. reflexivity.
  - destruct (Str.indexOf sep s) as [j|]; [|discriminate].
    intros [= <-]. simpl. f_equal. apply (IH j eq_refl).
Qed.

Lemma parsePair_inv (piece k v : string) :
  Webhook.parsePair piece = Some (k, v) -> piece = (k ++ "=" ++ v)%string.
Proof.
  unfold Webhook.parsePair.
  destruct (Str.indexOf "=" piece) as [i|] eqn:E; [|discriminate].
  intros [= <- <-]. apply indexOf_splits. exact E.
Qed.

(** A header none of whose pieces starts with [key=] has no field [key]. *)
Lemma field_absent (key : string) (pieces : list string) :
  forall pairs,
    Forall (fun piece => String.prefix (key ++ "=") piece = false) pieces ->
    Webhook.parsePairs pieces = Some pairs ->
    Webhook.field key pairs = None.
Proof.
  induction pieces as [|piece pieces IH]; intros pairs Hall; simpl.
  - intros [= <-]. reflexivity.
  - inversion Hall as [|? ? Hpiece Hrest]; subst.
    destruct (Webhook.parsePair piece) as [[k v]|] eqn:Hp; [|discriminate].
    destruct (Webhook.parsePairs pieces) as [kvs|]; [|discriminate].
    intros [= <-]. simpl.
    destruct (String.eqb_spec k key) as [->|Hne]; [|apply IH; auto].
    apply parsePair_inv in Hp. subst piece.
    change (key ++ "=" ++ v)%string with (key ++ ("=" ++ v))%string in Hpiece.
    rewrite <- append_assoc, prefix_append in Hpiece. discriminate.
Qed.

(** C2: [verifyWebhookSignature] does not throw: its promise fulfils
    with a boolean for every input, and with [false] when the header is
    empty, when none of its comma-separated pieces starts with [t=] or
    none with [v1=], and whenever the header is not of the expected
    form. *)
Theorem verifyWebhookSignature_never_throws
  (now : Z) (rawBody signatureHeader secret : string) (toleranceSec : option Z) :
  (exists valid,
      Webhook.verifyWebhookSignature now rawBody signatureHeader secret toleranceSec
      = Normal valid)
  /\ (signatureHeader = EmptyString ->
      Webhook.verifyWebhookSignature now rawBody signatureHeader secret toleranceSec
      = Normal false)
  /\ (Forall (fun piece => String.prefix "t=" piece = false)
             (Str.split "," signatureHeader) ->
      Webhook.verifyWebhookSignature now rawBody signatureHeader secret toleranceSec
      = Normal false)
  /\ (Forall (fun piece => String.prefix "v1=" piece = false)
             (Str.split "," signatureHeader) ->
      Webhook.verifyWebhookSignature now rawBody signatureHeader secret toleranceSec
      = Normal false)
  /\ (Webhook.parseSignatureHeader signatureHeader = None ->
      Webhook.verifyWebhookSignature now rawBody signatureHeader secret toleranceSec
      = Normal false).
Proof.
  assert (Hnone : Webhook.parseSignatureHeader signatureHeader = None ->
                  Webhook.verifyWebhookSignature now rawBody signatureHeader secret
                    toleranceSec = Normal false).
  { intros H. unfold Webhook.verifyWebhookSignature. rewrite H. reflexivity. }
  split; [|split; [|split; [|split]]].
  - unfold Webhook.verifyWebhookSignature.
    destruct (Webhook.parseSignatureHeader signatureHeader); eauto.
  - intros ->. reflexivity.
  - intros Hall. apply Hnone. unfold Webhook.parseSignatureHeader.
    destruct (Webhook.parsePairs (Str.split "," signatureHeader)) as [pairs|] eqn:Hp;
      [|reflexivity].
    rewrite (field_absent "t" _ pairs Hall Hp). reflexivity.
  - intros Hall. apply Hnone. unfold Webhook.parseSignatureHeader.
    destruct (Webhook.parsePairs (Str.split "," signatureHeader)) as [pairs|] eqn:Hp;
      [|reflexivity].
    rewrite (field_absent "v1" _ pairs Hall Hp).
    destruct (Webhook.field "t" pairs); reflexivity.
  - exact Hnone.
Qed.

Lemma verifyWebhookSignature_never_throws_witness :
  Webhook.verifyWebhookSignature 1700000000 Sample.webhookBody "v1=00ff"
    Sample.webhookSecret None = Normal false.
Proof.
  destruct (verifyWebhookSignature_never_throws 1700000000 Sample.webhookBody "v1=00ff"
              Sample.webhookSecret None) as (_ & _ & Hlacks & _).
  apply Hlacks. repeat constructor.
Defined.

(** The malformed headers of the test of the repository. *)
Example webhook_malformed_headers :
  Webhook.verifyWebhookSignature 1700000000 Sample.webhookBody EmptyString
    "test_secret" None = Normal false
  /\ Webhook.verifyWebhookSignature 1700000000 Sample.webhookBody "invalid_format"
       "test_secret" None = Normal false.
Proof. split; reflexivity. Qed.

(** ** The order of the ranked list *)

Lemma sorted_apart {A : Type} (R : A -> A -> Prop) (front middle back : list A) (a b : A) :
  StronglySorted R (front ++ a :: middle ++ b :: back) -> R a b.
Proof.
  intros H. apply sorted_suffix in H.
  inversion H as [|? ? _ Hafter]; subst.
  rewrite Forall_forall in Hafter. apply Hafter.
  apply in_or_app. right. left. reflexivity.
Qed.

(** X1: in the list [fetchTokenBalances] fulfils with, an entry stands
    before another only if the other has no balance, or both have one
    and the balance of the first is not the smaller: the entries with a
    balance come first, by descending balance. *)
Theorem fetchTokenBalances_orders_by_balance
  (chain : Logic.Chain) (tokens : list TokenConfig) (walletAddress : string) (chainId : Z) :
  (List.length tokens < 64)%nat ->
  exists result,
    snd (Logic.fetchTokenBalances chain tokens walletAddress chainId) = Normal result
    /\ forall front a middle b back,
         result = front ++ a :: middle ++ b :: back ->
         hasBalance b = false
         \/ (hasBalance a = true /\ hasBalance b = true
             /\ exists za zb,
                  BigInt (balance a) = Normal za /\ BigInt (balance b) = Normal zb
                  /\ zb <= za).
Proof.
  intros _.
  destruct (fetchTokenBalances_ranked chain tokens walletAddress chainId)
    as (result & Hres & Hperm & Hsorted).
  exists result. split; [exact Hres|].
  intros front a middle b back ->.
  assert (Hreadable : forall t, In t (front ++ a :: middle ++ b :: back) -> Spec.readable t).
  { intros t Ht. apply (Permutation_in _ (Permutation_sym Hperm)) in Ht.
    apply in_map_iff in Ht. destruct Ht as (token & <- & _). apply settled_readable. }
  destruct (sorted_apart _ _ _ _ _ _ Hsorted) as [Hb|(Ha & Hb & Hle)]; [left; exact Hb|].
  right. split; [exact Ha|]. split; [exact Hb|].
  destruct (Hreadable a) as [za Hza].
  { apply in_or_app. right. left. reflexivity. }
  destruct (Hreadable b) as [zb Hzb].
  { apply in_or_app. right. right. apply in_or_app. right. left. reflexivity. }
  exists za, zb. split; [exact Hza|]. split; [exact Hzb|].
  unfold Spec.balanceValue in Hle. rewrite Hza, Hzb in Hle. exact Hle.
Qed.

Lemma fetchTokenBalances_orders_by_balance_witness :
  exists result,
    snd (Logic.fetchTokenBalances Sample.chainABC [Sample.A; Sample.B; Sample.C]
           Sample.account 1) = Normal result.
Proof.
  destruct (fetchTokenBalances_orders_by_balance Sample.chainABC
              [Sample.A; Sample.B; Sample.C] Sample.account 1)
    as (result & Hres & _).
  - simpl. lia.
  - exists result. exact Hres.
Defined.
(** ** The sort leaves the elements that never go first in their order *)

Section SortKeeps.

Context {A : Type}.
Variable comparefn : A -> A -> completion Z.
Variable c : A -> A -> Z.
Variable P : A -> Prop.
Variable last : A -> bool.

Hypothesis answers : forall x y, P x -> P y -> comparefn x y = Normal (c x y).
Hypothesis last_stays : forall x y, last x = true -> 0 <= c x y.

Lemma findInsertionPoint_total (fuel : nat) (pivot : A) (sorted : list A) :
  P pivot -> Forall P sorted ->
  forall left right,
    (left <= right <= List.length sorted)%nat ->
    exists k,
      V8.findInsertionPoint comparefn fuel pivot sorted left right = Normal k
      /\ (left <= k <= right)%nat.
Proof.
  intros Hp HP.
  induction fuel as [|fuel IH]; intros left right Hlr; simpl.
  - exists left. split; [reflexivity | lia].
  - destruct (Nat.ltb_spec left right) as [Hlt|Hge]; [|exists left; split; [reflexivity | lia]].
    pose proof (mid_bounds left right Hlt) as Hmid.
    set (mid := (left + Nat.div2 (right - left))%nat) in *.
    assert (Hin : P (nth mid sorted pivot)).
    { rewrite Forall_forall in HP. apply HP. apply nth_In. lia. }
    rewrite (answers _ _ Hp Hin). simpl.
    destruct (c pivot (nth mid sorted pivot) <? 0).
    + destruct (IH left mid ltac:(lia)) as (k & Hk & Hb). exists k. split; [exact Hk | lia].
    + destruct (IH (S mid) right ltac:(lia)) as (k & Hk & Hb).
      exists k. split; [exact Hk | lia].
Qed.

Lemma findInsertionPoint_last (fuel : nat) (pivot : A) (sorted : list A) :
  P pivot -> Forall P sorted -> last pivot = true ->
  forall left right,
    (left <= right <= List.length sorted)%nat -> (right - left <= fuel)%nat ->
    V8.findInsertionPoint comparefn fuel pivot sorted left right = Normal right.
Proof.
  intros Hp HP Hlast.
  induction fuel as [|fuel IH]; intros left right Hlr Hfuel; simpl.
  - f_equal. lia.
  - destruct (Nat.ltb_spec left right) as [Hlt|Hge]; [|f_equal; lia].
    pose proof (mid_bounds left right Hlt) as Hmid.
    set (mid := (left + Nat.div2 (right - left))%nat) in *.
    assert (Hin : P (nth mid sorted pivot)).
    { rewrite Forall_forall in HP. apply HP. apply nth_In. lia. }
    rewrite (answers _ _ Hp Hin). simpl.
    pose proof (last_stays pivot (nth mid sorted pivot) Hlast) as Hge.
    destruct (Z.ltb_spec (c pivot (nth mid sorted pivot)) 0) as [Hneg|_]; [lia|].
    apply IH; lia.
Qed.

Lemma filter_inserted (l : list A) (pivot : A) (k : nat) :
  last pivot = false ->
  filter last (firstn k l ++ pivot :: skipn k l) = filter last l.
Proof.
  intros Hp. rewrite filter_app. simpl. rewrite Hp, <- filter_app, firstn_skipn.
  reflexivity.
Qed.

Lemma insertAll_keeps (rest : list A) :
  forall sorted,
    Forall P sorted -> Forall P rest ->
    exists result,
      V8.insertAll comparefn sorted rest = Normal result
      /\ filter last result = filter last (sorted ++ rest).
Proof.
  induction rest as [|pivot rest IH]; intros sorted HP HPr; simpl.
  - exists sorted. rewrite app_nil_r. split; reflexivity.
  - inversion HPr as [|? ? Hp HPr']; subst.
    destruct (findInsertionPoint_total (List.length sorted) pivot sorted Hp HP
                0%nat (List.length sorted) ltac:(lia)) as (k & Hk & Hb).
    assert (HPk : Forall P (firstn k sorted ++ pivot :: skipn k sorted)).
    { rewrite <- (firstn_skipn k sorted) in HP.
      apply Forall_app in HP. destruct HP as [HP1 HP2].
      apply Forall_app. split; [assumption | constructor; assumption]. }
    destruct (IH _ HPk HPr') as (result & Hr & Hkeep).
    rewrite Hk. simpl. exists result. split; [exact Hr|].
    rewrite Hkeep. clear Hkeep Hr.
    destruct (last pivot) eqn:Hlast.
    + rewrite (findInsertionPoint_last (List.length sorted) pivot sorted Hp HP Hlast
                 0%nat (List.length sorted) ltac:(lia) ltac:(lia)) in Hk.
      injection Hk as <-.
      rewrite firstn_all, skipn_all, <- app_assoc. reflexivity.
    + rewrite (filter_app last (firstn k sorted ++ pivot :: skipn k sorted) rest).
      rewrite (filter_inserted sorted pivot k Hlast), (filter_app last sorted).
      simpl. rewrite Hlast. reflexivity.
Qed.

(** A descending run holds elements that go before their neighbour:
    none of them, its first apart, is one that never goes first. *)
Lemma runTail_descending (rest : list A) :
  forall previous n,
    P previous -> Forall P rest ->
    V8.runTail comparefn true previous rest = Normal n ->
    (n <= List.length rest)%nat /\ filter last (firstn n rest) = [].
Proof.
  induction rest as [|current rest IH]; intros previous n Hp HP; simpl.
  - intros [= <-]. split; [lia | reflexivity].
  - inversion HP as [|? ? Hc HP']; subst.
    rewrite (answers _ _ Hc Hp). simpl.
    destruct (Z.leb_spec 0 (c current previous)) as [Hge|Hlt].
    + intros [= <-]. split; [lia | reflexivity].
    + destruct (V8.runTail comparefn true current rest) as [m|e] eqn:Hm; simpl;
        [|discriminate].
      intros [= <-]. destruct (IH current m Hc HP' Hm) as [Hle Hnone].
      split; [lia|]. simpl.
      destruct (last current) eqn:Hlast.
      * pose proof (last_stays current previous Hlast). lia.
      * exact Hnone.
Qed.

Lemma runTail_total (isDescending : bool) (rest : list A) :
  forall previous,
    P previous -> Forall P rest ->
    exists n, V8.runTail comparefn isDescending previous rest = Normal n
              /\ (n <= List.length rest)%nat.
Proof.
  induction rest as [|current rest IH]; intros previous Hp HP; simpl.
  - exists 0%nat. split; [reflexivity | lia].
  - inversion HP as [|? ? Hc HP']; subst.
    rewrite (answers _ _ Hc Hp). simpl.
    destruct (IH current Hc HP') as (n & Hn & Hle). rewrite Hn. simpl.
    destruct isDescending.
    + destruct (0 <=? c current previous);
        [exists 0%nat | exists (S n)]; split; try reflexivity; lia.
    + destruct (c current previous <? 0);
        [exists 0%nat | exists (S n)]; split; try reflexivity; lia.
Qed.

Lemma filter_rev (l : list A) : filter last (rev l) = rev (filter last l).
Proof.
  induction l as [|a l IH]; simpl; [reflexivity|].
  rewrite filter_app, IH. simpl. destruct (last a); simpl; [reflexivity|].
  apply app_nil_r.
Qed.

Lemma CountAndMakeRun_keeps (array : list A) :
  Forall P array ->
  exists workArray runLength,
    V8.CountAndMakeRun comparefn array = Normal (workArray, runLength)
    /\ Forall P workArray
    /\ filter last workArray = filter last array.
Proof.
  intros HP.
  destruct array as [|high [|low rest]].
  - exists [], 0%nat. simpl. repeat split. constructor.
  - exists [high], 1%nat. simpl. repeat split. assumption.
  - inversion HP as [|? ? Hh HP']; subst. inversion HP' as [|? ? Hl HP'']; subst.
    unfold V8.CountAndMakeRun. rewrite (answers _ _ Hl Hh). simpl Js.bind.
    destruct (runTail_total (c low high <? 0) rest low Hl HP'') as (n & Hn & Hle).
    rewrite Hn. simpl Js.bind.
    destruct (Z.ltb_spec (c low high) 0) as [Hlt|Hge].
    + exists (rev (firstn (S (S n)) (high :: low :: rest))
                ++ skipn (S (S n)) (high :: low :: rest)), (S (S n)).
      split; [reflexivity|].
      destruct (runTail_descending rest low n Hl HP'' Hn) as [_ Hnone].
      assert (Hlow : last low = false).
      { destruct (last low) eqn:E; [|reflexivity].
        pose proof (last_stays low high E). lia. }
      pose proof HP as HPs.
      rewrite <- (firstn_skipn (S (S n)) (high :: low :: rest)) in HPs.
      apply Forall_app in HPs. destruct HPs as [HP1 HP2].
      split.
      * apply Forall_app. split; [apply Forall_rev|]; assumption.
      * rewrite filter_app, filter_rev.
        rewrite <- (firstn_skipn (S (S n)) (high :: low :: rest)) at 3.
        rewrite (filter_app last (firstn (S (S n)) (high :: low :: rest))). f_equal.
        change (firstn (S (S n)) (high :: low :: rest))
          with (high :: low :: firstn n rest).
        simpl. rewrite Hlow, Hnone.
        destruct (last high); reflexivity.
    + eexists _, _. split; [reflexivity|]. split; [assumption | reflexivity].
Qed.

Lemma ArrayPrototypeSort_keeps (array : list A) :
  Forall P array ->
  exists result,
    V8.ArrayPrototypeSort comparefn array = Normal result
    /\ filter last result = filter last array.
Proof.
  intros HP. unfold V8.ArrayPrototypeSort.
  destruct (List.length array <? 2)%nat.
  - exists array. split; reflexivity.
  - destruct (CountAndMakeRun_keeps array HP) as (work & rl & Hrun & HPw & Hkeep).
    rewrite Hrun. simpl Js.bind. unfold V8.BinaryInsertionSort.
    rewrite <- (firstn_skipn rl work) in HPw.
    apply Forall_app in HPw. destruct HPw as [HP1 HP2].
    destruct (insertAll_keeps (skipn rl work) (firstn rl work) HP1 HP2)
      as (result & Hr & Hkeep').
    exists result. split; [exact Hr|].
    rewrite Hkeep', firstn_skipn. exact Hkeep.
Qed.

End SortKeeps.

(** X2: the entries without a balance come out of [fetchTokenBalances]
    in the order their tokens were given in: the result, restricted to
    the entries with [hasBalance = false], is the list of the entries
    of the tokens restricted in the same way. *)
Theorem tokens_without_balance_keep_their_order
  (chain : Logic.Chain) (tokens : list TokenConfig) (walletAddress : string) (chainId : Z) :
  (List.length tokens < 64)%nat ->
  exists result,
    snd (Logic.fetchTokenBalances chain tokens walletAddress chainId) = Normal result
    /\ filter (fun entry => negb (hasBalance entry)) result
       = filter (fun entry => negb (hasBalance entry))
           (map (Spec.settled chain walletAddress chainId) tokens).
Proof.
  intros _. unfold Logic.fetchTokenBalances. simpl snd.
  rewrite balances_settled. simpl Js.bind.
  apply (ArrayPrototypeSort_keeps Logic.compareBalances Spec.rankCompare Spec.readable).
  - apply compareBalances_answers.
  - intros x y Hx. apply negb_true_iff in Hx. unfold Spec.rankCompare. rewrite Hx.
    destruct (hasBalance y); simpl; lia.
  - apply Forall_forall. intros t Ht. apply in_map_iff in Ht.
    destruct Ht as (token & <- & _). apply settled_readable.
Qed.

Lemma tokens_without_balance_keep_their_order_witness :
  exists result,
    snd (Logic.fetchTokenBalances Sample.chainABC [Sample.A; Sample.B; Sample.C]
           Sample.account 1) = Normal result
    /\ filter (fun entry => negb (hasBalance entry)) result
       = [Spec.entryOf Sample.A 0; Spec.entryOf Sample.C 0].
Proof.
  destruct (tokens_without_balance_keep_their_order Sample.chainABC
              [Sample.A; Sample.B; Sample.C] Sample.account 1)
    as (result & Hres & Hkeep).
  - simpl. lia.
  - exists result. split; [exact Hres|]. rewrite Hkeep. reflexivity.
Defined.
(** ** formatUnits *)

Lemma string_cut (s : string) (n : nat) :
  (n <= String.length s)%nat ->
  exists a b, s = (a ++ b)%string /\ String.length a = n.
Proof.
  revert n. induction s as [|ch s IH]; intros n Hn.
  - exists EmptyString, EmptyString. simpl in *. split; [reflexivity | lia].
  - destruct n as [|n].
    + exists EmptyString, (String ch s). split; reflexivity.
    + destruct (IH n ltac:(simpl in Hn; lia)) as (a & b & -> & Hlen).
      exists (String ch a), b. simpl. split; [reflexivity | lia].
Qed.

Lemma repeat_zero_strips (n : nat) : Str.stripTrailingZeros (Str.repeat "0" n) = EmptyString.
Proof. induction n as [|n IH]; simpl; [|rewrite IH]; reflexivity. Qed.

(** The digits of [toString z] apart, with what they are worth. *)
Lemma toString_digits (z : Z) :
  exists digits,
    Str.all Str.isDigit digits = true /\ digits <> EmptyString
    /\ toString z = ((if (z <? 0)%Z then "-" else EmptyString) ++ digits)%string
    /\ z = (if z <? 0 then -1 else 1) * Viem.digitsValue digits.
Proof.
  destruct (toString_shape z) as (digits & Hd & Hne & Hz).
  exists digits. repeat split; try assumption.
  pose proof (BigInt_toString z) as Hread.
  rewrite Hz, (BigInt_signed (z <? 0) digits Hd Hne) in Hread.
  congruence.
Qed.

(** What [formatUnits] prints: the sign, an integer part that is not
    empty and, when the fraction is not zero, a point and the fraction
    without the zeros at its end; read as a number and scaled, it is
    the value. *)
Lemma formatUnits_text (z : Z) (decimals : nat) :
  exists integer fraction,
    Viem.formatUnits z decimals
    = Spec.decimalText (z <? 0) integer fraction
    /\ Str.all Str.isDigit integer = true /\ integer <> EmptyString
    /\ Str.all Str.isDigit (Spec.fractionOf fraction) = true
    /\ (String.length (Spec.fractionOf fraction) <= decimals)%nat
    /\ Spec.exactUnits (z <? 0) integer fraction decimals z.
Proof.
  destruct (toString_digits z) as (digits & Hd & Hne & Hz & Hval).
  unfold Viem.formatUnits. rewrite Hz.
  set (negative := z <? 0) in *.
  assert (Hprefix : String.prefix "-" ((if negative then "-" else EmptyString) ++ digits)
                    = negative).
  { destruct negative.
    - apply prefix_minus.
    - change (String.prefix "-" digits = false).
      rewrite <- (append_empty digits). apply prefix_minus_digits; assumption. }
  rewrite Hprefix.
  assert (Hdisplay : (if negative
                      then Str.sliceFrom 1 ((if negative then "-" else EmptyString) ++ digits)
                      else ((if negative then "-" else EmptyString) ++ digits)%string)
                     = digits).
  { destruct negative; [apply sliceFrom_sign | reflexivity]. }
  rewrite Hdisplay. clear Hprefix Hdisplay.
  set (display := Str.padStart decimals digits).
  assert (Hall : Str.all Str.isDigit display = true).
  { unfold display, Str.padStart. rewrite all_app, Hd, all_repeat; reflexivity. }
  assert (Hworth : Viem.digitsValue display = Viem.digitsValue digits).
  { unfold display, Str.padStart.
    rewrite digitsValue_app, digitsValue_zeros; [lia | apply all_repeat; reflexivity | exact Hd]. }
  assert (Hlong : (decimals <= String.length display)%nat).
  { unfold display, Str.padStart. rewrite append_length, repeat_length. lia. }
  clearbody display.
  destruct (string_cut display (String.length display - decimals) ltac:(lia))
    as (I0 & F0 & Hcut & HI0).
  assert (HF0 : String.length F0 = decimals).
  { pose proof (f_equal String.length Hcut) as Hl. rewrite append_length in Hl. lia. }
  assert (Hint : Str.sliceTo (String.length display - decimals) display = I0).
  { unfold Str.sliceTo. rewrite <- HI0, Hcut. apply substring_front. }
  assert (Hfr : Str.sliceFrom (String.length display - decimals) display = F0).
  { rewrite <- HI0, Hcut. apply sliceFrom_behind. }
  rewrite Hint, Hfr.
  rewrite Hcut, all_app in Hall. apply andb_prop in Hall. destruct Hall as [HallI HallF].
  destruct (stripTrailingZeros_spec F0) as [Hsplit Hle].
  pose proof (stripTrailingZeros_all Str.isDigit F0 HallF) as HallF'.
  set (F := Str.stripTrailingZeros F0) in *.
  set (j := (String.length F0 - String.length F)%nat) in *.
  set (integer := if String.eqb I0 EmptyString then "0" else I0).
  assert (HallInt : Str.all Str.isDigit integer = true).
  { unfold integer. destruct (String.eqb I0 EmptyString); [reflexivity | exact HallI]. }
  assert (HneInt : integer <> EmptyString).
  { unfold integer. destruct (String.eqb_spec I0 EmptyString); [discriminate | assumption]. }
  assert (HworthInt : Viem.digitsValue integer = Viem.digitsValue I0).
  { unfold integer. destruct (String.eqb_spec I0 EmptyString) as [->|]; reflexivity. }
  exists integer, (if String.eqb F EmptyString then None else Some F).
  assert (HfractionOf : Spec.fractionOf (if String.eqb F EmptyString then None else Some F)
                        = F).
  { destruct (String.eqb_spec F EmptyString) as [->|]; reflexivity. }
  rewrite HfractionOf.
  split.
  { unfold Spec.decimalText. destruct (String.eqb F EmptyString); reflexivity. }
  split; [exact HallInt|]. split; [exact HneInt|]. split; [exact HallF'|].
  split; [lia|].
  unfold Spec.exactUnits. rewrite HfractionOf.
  rewrite digitsValue_app, HworthInt by assumption.
  assert (Hzeros : Str.all Str.isDigit (Str.repeat "0" j) = true)
    by (apply all_repeat; reflexivity).
  assert (Hz' : Viem.digitsValue digits
                = Viem.digitsValue I0 * 10 ^ Z.of_nat decimals
                  + Viem.digitsValue F * 10 ^ Z.of_nat j).
  { rewrite <- Hworth, Hcut, digitsValue_app, HF0 by assumption.
    f_equal. rewrite Hsplit at 1.
    rewrite digitsValue_app, digitsValue_zeros, repeat_length by assumption. lia. }
  assert (Hd' : decimals = (String.length F + j)%nat) by (unfold j; lia).
  rewrite Hval at 1. rewrite Hz'.
  clearbody j. rewrite Hd', !Nat2Z.inj_add, !Z.pow_add_r by lia.
  ring.
Qed.

(** [parseUnits] reads back what [formatUnits] printed. *)
Lemma parseUnits_formatUnits (z : Z) (decimals : nat) :
  Viem.parseUnits (Viem.formatUnits z decimals) decimals = Normal z.
Proof.
  destruct (formatUnits_text z decimals)
    as (integer & fraction & -> & Hi & Hne & Hf & Hlen & Hexact).
  destruct (parseUnits_exact (z <? 0) integer fraction decimals Hi Hne Hf) as (n & -> & Hn).
  { pose proof (stripTrailingZeros_spec (Spec.fractionOf fraction)) as [_ Hle]. lia. }
  f_equal. unfold Spec.exactUnits in *.
  assert (Hpos : 0 < 10 ^ Z.of_nat (String.length (Spec.fractionOf fraction)))
    by (apply Z.pow_pos_nonneg; lia).
  nia.
Qed.

Lemma formatUnits_zero (decimals : nat) : Viem.formatUnits 0 decimals = "0".
Proof.
  unfold Viem.formatUnits. change (toString 0) with "0". cbv zeta.
  change (String.prefix "-" "0") with false. cbv iota.
  assert (Hdisplay : Str.padStart decimals "0" = Str.repeat "0" (Nat.max 1 decimals)).
  { unfold Str.padStart. simpl String.length.
    destruct decimals as [|d]; [reflexivity|].
    replace (S d - 1)%nat with d by lia.
    replace (Nat.max 1 (S d)) with (S d) by lia.
    clear. induction d as [|d IH]; [reflexivity|]. simpl in *. rewrite IH. reflexivity. }
  rewrite Hdisplay, repeat_length.
  destruct decimals as [|d]; [reflexivity|].
  replace (Nat.max 1 (S d)) with (S d) by lia.
  replace (S d - S d)%nat with 0%nat by lia.
  change (Str.sliceTo 0 (Str.repeat "0" (S d))) with EmptyString.
  change (Str.sliceFrom 0 (Str.repeat "0" (S d)))
    with (Str.sliceFrom (String.length EmptyString) (EmptyString ++ Str.repeat "0" (S d))).
  rewrite sliceFrom_behind, repeat_zero_strips. reflexivity.
Qed.

(** X3: what [fetchTokenBalances] reports for a token whose read gave
    the integer [z] reads back as [z]: [BigInt] of its [balance], and
    [parseUnits] of its [balanceFormatted] at the decimals of the
    token. *)
Theorem reported_balance_reads_back
  (chain : Logic.Chain) (walletAddress : string) (chainId : Z) (token : TokenConfig)
  (z : Z) :
  Spec.reads chain walletAddress chainId token = Normal z ->
  exists entry,
    Logic.resolveBalance chain walletAddress chainId token = ([], Normal entry)
    /\ BigInt (balance entry) = Normal z
    /\ Viem.parseUnits (balanceFormatted entry) (decimals token) = Normal z.
Proof.
  intros Hread. exists (Spec.entryOf token z).
  rewrite resolveBalance_settles. unfold Spec.settled. rewrite Hread.
  split; [reflexivity|]. split.
  - apply BigInt_toString.
  - apply parseUnits_formatUnits.
Qed.

Lemma reported_balance_reads_back_witness :
  exists entry,
    Logic.resolveBalance Sample.chain Sample.account 1 Sample.USDC = ([], Normal entry)
    /\ BigInt (balance entry) = Normal 100
    /\ Viem.parseUnits (balanceFormatted entry) 6 = Normal 100.
Proof.
  apply (reported_balance_reads_back Sample.chain Sample.account 1 Sample.USDC 100).
  reflexivity.
Defined.

(** X4: the entry reported for a token whose read failed is the entry
    of a token that holds nothing: the two differ by the line on the
    console only. *)
Theorem failed_read_is_reported_as_empty
  (chain : Logic.Chain) (walletAddress : string) (chainId : Z) (token : TokenConfig) :
  (forall e,
      Spec.reads chain walletAddress chainId token = Throw e ->
      Logic.resolveBalance chain walletAddress chainId token
      = ([Spec.failureLine token e], Normal (Spec.zeroEntry token)))
  /\ (Spec.reads chain walletAddress chainId token = Normal 0 ->
      Logic.resolveBalance chain walletAddress chainId token
      = ([], Normal (Spec.zeroEntry token))).
Proof.
  split.
  - intros e Hread. rewrite resolveBalance_settles. unfold Spec.settled.
    rewrite Hread. reflexivity.
  - intros Hread. rewrite resolveBalance_settles. unfold Spec.settled.
    rewrite Hread. unfold Spec.entryOf, Spec.zeroEntry.
    rewrite formatUnits_zero. reflexivity.
Qed.

(** X5: the console gets the failure lines of the tokens whose read
    failed, in the order of the tokens, and nothing else: a token that
    is read writes no line. *)
Theorem console_holds_the_failures_only
  (chain : Logic.Chain) (tokens : list TokenConfig) (walletAddress : string) (chainId : Z) :
  fst (Logic.fetchTokenBalances chain tokens walletAddress chainId)
  = flat_map (fun token =>
                match Spec.reads chain walletAddress chainId token with
                | Normal _ => []
                | Throw e => [Spec.failureLine token e]
                end) tokens
  /\ forall line,
       In line (fst (Logic.fetchTokenBalances chain tokens walletAddress chainId)) ->
       exists token e,
         In token tokens
         /\ Spec.reads chain walletAddress chainId token = Throw e
         /\ line = Spec.failureLine token e.
Proof.
  assert (Hlines : fst (Logic.fetchTokenBalances chain tokens walletAddress chainId)
                   = flat_map (fun token =>
                                 match Spec.reads chain walletAddress chainId token with
                                 | Normal _ => []
                                 | Throw e => [Spec.failureLine token e]
                                 end) tokens).
  { unfold Logic.fetchTokenBalances. simpl fst. rewrite map_map, flat_map_concat_map.
    f_equal. apply map_ext. intros token. rewrite resolveBalance_settles. reflexivity. }
  split; [exact Hlines|].
  intros line Hin. rewrite Hlines in Hin. apply in_flat_map in Hin.
  destruct Hin as (token & Htoken & Hline).
  destruct (Spec.reads chain walletAddress chainId token) as [z|e] eqn:Hread; [destruct Hline|].
  destruct Hline as [<-|[]]. exists token, e. repeat split; assumption.
Qed.
(** ** The configuration and the networks *)

(** X6: [getNetwork] answers for the six chains of [NETWORKS] and for
    no other chain id; the record it answers with is the one of the
    chain asked for, and any other chain id throws, with the id in the
    message.  They are the chains the wallet adapter is set up with. *)
Theorem getNetwork_knows_six_chains (chainId : Z) :
  (In chainId [1; 11155111; 137; 80002; 56; 97] ->
   exists network,
     Config.getNetwork chainId = Normal network /\ Config.chainId network = chainId)
  /\ (~ In chainId [1; 11155111; 137; 80002; 56; 97] ->
      Z.abs chainId < 10 ^ 21 ->
      Config.getNetwork chainId
      = Throw (mkError ("DirectCryptoPay: Unsupported network with chainId "
                          ++ toString chainId)%string))
  /\ (In chainId WalletManager.networks <-> exists network,
         Config.getNetwork chainId = Normal network).
Proof.
  assert (Hknown : In chainId [1; 11155111; 137; 80002; 56; 97] ->
                   exists network,
                     Config.getNetwork chainId = Normal network
                     /\ Config.chainId network = chainId).
  { intros Hin. simpl in Hin.
    repeat (destruct Hin as [<-|Hin]; [eexists; split; reflexivity|]). destruct Hin. }
  assert (Hother : ~ In chainId [1; 11155111; 137; 80002; 56; 97] ->
                   Config.getNetwork chainId
                   = Throw (mkError ("DirectCryptoPay: Unsupported network with chainId "
                                       ++ toString chainId)%string)).
  { intros Hout. unfold Config.getNetwork, Config.NETWORKS, Config.lookup.
    repeat match goal with
           | |- context [?k =? chainId] =>
               destruct (Z.eqb_spec k chainId) as [Heq|_];
               [exfalso; apply Hout; rewrite <- Heq; simpl; tauto|]
           end.
    reflexivity. }
  split; [exact Hknown|]. split; [intros Hout _; exact (Hother Hout)|].
  split.
  - intros Hin. destruct (Hknown Hin) as (network & Hn & _). exists network. exact Hn.
  - intros (network & Hn).
    destruct (in_dec Z.eq_dec chainId [1; 11155111; 137; 80002; 56; 97]) as [Hin|Hout];
      [exact Hin|].
    rewrite (Hother Hout) in Hn. discriminate.
Qed.

(** ** The SDK *)

Lemma walletManager_init_kit (lib : WalletManager.Library) (projectId : string) :
  forall manager r,
    WalletManager.init lib projectId WalletManager.fresh = (manager, r) ->
    match r with
    | Normal _ => WalletManager.kit manager <> None
                  /\ WalletManager.wagmiConfig manager <> None
    | Throw _ => WalletManager.kit manager = None
    end.
Proof.
  intros manager r. unfold WalletManager.init. simpl.
  destruct (WalletManager.newWagmiAdapter lib _) as [[]|e].
  - destruct (WalletManager.createAppKit lib _) as [[]|e]; intros [= <- <-]; simpl.
    + split; discriminate.
    + reflexivity.
  - intros [= <- <-]. reflexivity.
Qed.

(** X7: [DCP.init] is done once.  After the first call the
    configuration is the one of that call, with the defaults filled
    in, whether the set-up of the wallet went through or threw; any
    later call leaves the SDK as it is and only warns.  So a wallet
    set-up that threw is not tried again: the kit stays unset and
    [connect] throws. *)
Theorem init_is_done_once (p again : DCP.Platform) (first second : Config.DCPInitConfig) :
  exists sdk events r,
    DCP.init p first DCP.loaded = (sdk, events, r)
    /\ Config.get (DCP.config sdk)
       = Normal {| Config.apiUrl :=
                     Config.orDefault (Config.init_apiUrl first)
                       "https://api.directcryptopay.com";
                   Config.widgetUrl :=
                     Config.orDefault (Config.init_widgetUrl first)
                       "https://pay.directcryptopay.com";
                   Config.projectId := Config.init_projectId first;
                   Config.env := Config.init_env first;
                   Config.defaultChainId := Config.init_defaultChainId first;
                   Config.gasWarningThreshold :=
                     Config.nullish (Config.init_gasWarningThreshold first) 15 |}
    /\ DCP.init again second sdk
       = (sdk, [Ui.console_warn "DirectCryptoPay: SDK already initialized"], Normal tt)
    /\ (forall e, r = Throw e ->
          events = []
          /\ WalletManager.connect (DCP.library again) (DCP.walletManager sdk)
             = Throw WalletManager.notInitialized).
Proof.
  unfold DCP.init at 1. simpl Config.isInitialized. cbv iota.
  destruct (WalletManager.init (DCP.library p) (Config.init_projectId first)
              (DCP.walletManager DCP.loaded)) as [manager r] eqn:Hinit.
  pose proof (walletManager_init_kit _ _ _ _ Hinit) as Hkit.
  destruct r as [[]|e].
  - eexists _, _, _. split; [reflexivity|]. split; [reflexivity|].
    split; [reflexivity|]. intros e [=].
  - eexists _, _, _. split; [reflexivity|]. split; [reflexivity|].
    split; [reflexivity|]. intros e' _. split; [reflexivity|].
    unfold WalletManager.connect. simpl. rewrite Hkit. reflexivity.
Qed.

(** X8: the requests of the modal go to the address of the
    configuration: after [DCP.init], the four calls of the API ask the
    server at the [apiUrl] given to [init], or at
    [https://api.directcryptopay.com] when none or an empty one was
    given. *)
Theorem requests_go_to_the_configured_address
  (p : DCP.Platform) (initConfig : Config.DCPInitConfig) :
  exists sdk events r base,
    DCP.init p initConfig DCP.loaded = (sdk, events, r)
    /\ base = match Config.init_apiUrl initConfig with
              | Some url => if String.eqb url EmptyString
                            then "https://api.directcryptopay.com" else url
              | None => "https://api.directcryptopay.com"
              end
    /\ base <> EmptyString
    /\ (forall toolId,
          Api.fetchTool (Modal.net (DCP.world p sdk)) toolId
          = (response <- Api.fetch_tool (DCP.server p)
                           (base ++ "/payment-tools/public/" ++ toolId)%string ;;
             Api.orFail "Failed to fetch payment tool: " response))
    /\ (forall toolId tokenSymbol,
          Api.createIntent (Modal.net (DCP.world p sdk)) toolId tokenSymbol
          = (response <- Api.fetch_intent (DCP.server p)
                           (base ++ "/payment-tools/public/" ++ toolId
                              ++ "/create-intent")%string tokenSymbol ;;
             Api.orFail "Failed to create intent: " response))
    /\ (forall request toolId,
          Api.submitPayment (Modal.net (DCP.world p sdk)) request toolId
          = (response <- Api.fetch_submit (DCP.server p) (base ++ "/payments")%string
                           (Api.toolHeader toolId) request ;;
             Api.orFail "Failed to submit payment: " response))
    /\ (forall asked paymentId toolId,
          Api.getPaymentStatus (Modal.net (DCP.world p sdk)) asked paymentId toolId
          = (response <- Api.fetch_status (DCP.server p) asked
                           (base ++ "/payments/" ++ paymentId)%string
                           (Api.toolHeader toolId) ;;
             Api.orFail "Failed to get payment status: " response)).
Proof.
  unfold DCP.init. simpl Config.isInitialized. cbv iota.
  destruct (WalletManager.init (DCP.library p) (Config.init_projectId initConfig)
              (DCP.walletManager DCP.loaded)) as [manager [[]|e]];
    eexists _, _, _, _; (split; [reflexivity|]); (split; [reflexivity|]);
    (split; [destruct (Config.init_apiUrl initConfig) as [url|]; [|discriminate];
             destruct (String.eqb_spec url EmptyString); [discriminate | assumption]|]);
    repeat split; reflexivity.
Qed.

(** X9: [DCP.pay] before [DCP.init] throws and mounts nothing.  On an
    initialised SDK whose page has no host element it mounts the modal
    of the tool, which makes its first render; a second [pay] while
    that modal is open throws, because the host has a shadow root
    already, and leaves the open modal as it is; once the modal is
    closed, [pay] mounts a modal again. *)
Theorem pay_mounts_one_modal (p : DCP.Platform) (sdk : DCP.Sdk) (toolId next : string) :
  DCP.document sdk = None ->
  (Config.isInitialized (DCP.config sdk) = false ->
   DCP.pay p toolId sdk
   = (sdk, [], Throw (mkError "DirectCryptoPay: SDK not initialized. Call DCP.init() first")))
  /\ (Config.isInitialized (DCP.config sdk) = true ->
      exists opened,
        DCP.pay p toolId sdk
        = (opened, map Ui.modal (snd (Modal.mount (DCP.world p sdk) toolId)), Normal tt)
        /\ DCP.document opened
           = Some {| Ui.shadowRoot := Some (fst (Modal.mount (DCP.world p sdk) toolId)) |}
        /\ DCP.pay p next opened = (opened, [], Throw Ui.NotSupportedError)
        /\ exists closed reopened,
             DCP.close opened = (closed, [Ui.callback_onClose], Normal tt)
             /\ DCP.pay p next closed
                = (reopened, map Ui.modal (snd (Modal.mount (DCP.world p sdk) next)),
                   Normal tt)
             /\ DCP.document reopened
                = Some {| Ui.shadowRoot :=
                            Some (fst (Modal.mount (DCP.world p sdk) next)) |}).
Proof.
  intros Hdoc. split.
  - intros Hinit. unfold DCP.pay. rewrite Hinit. reflexivity.
  - intros Hinit. unfold DCP.pay at 1. rewrite Hinit. cbn [negb].
    unfold Ui.mountModal. rewrite Hdoc. cbn [Ui.shadowRoot].
    destruct (Modal.mount (DCP.world p sdk) toolId) as [component effects].
    destruct (Modal.mount (DCP.world p sdk) next) as [component' effects'] eqn:Hnext.
    eexists. split; [reflexivity|]. split; [reflexivity|].
    split.
    + unfold DCP.pay. cbn [DCP.config DCP.document DCP.walletManager].
      rewrite Hinit. reflexivity.
    + exists {| DCP.config := DCP.config sdk;
                DCP.walletManager := DCP.walletManager sdk;
                DCP.document := None |},
             {| DCP.config := DCP.config sdk;
                DCP.walletManager := DCP.walletManager sdk;
                DCP.document := Some {| Ui.shadowRoot := Some component' |} |}.
      split; [reflexivity|].
      unfold DCP.pay. cbn [DCP.config DCP.document DCP.walletManager].
      rewrite Hinit. cbn [negb]. unfold Ui.mountModal. cbn [Ui.shadowRoot].
      change (Modal.mount (DCP.world p _) next)
        with (Modal.mount (DCP.world p sdk) next).
      rewrite Hnext. split; reflexivity.
Qed.

Lemma pay_mounts_one_modal_witness :
  exists opened,
    DCP.document opened
    = Some {| Ui.shadowRoot :=
                Some (fst (Modal.mount (DCP.world Sample.platform Sample.ready) "tool_1")) |}
    /\ DCP.pay Sample.platform "tool_2" opened = (opened, [], Throw Ui.NotSupportedError).
Proof.
  destruct (pay_mounts_one_modal Sample.platform Sample.ready "tool_1" "tool_2" eq_refl)
    as [_ Hopen].
  destruct (Hopen eq_refl) as (opened & _ & Hdoc & Hagain & _).
  exists opened. split; assumption.
Defined.

(** ** The wallet manager before [init] *)

(** X10: on a wallet manager that was not initialised, [connect],
    [getAccount], [switchNetwork], [sendTransaction] and
    [waitForReceipt] throw [WalletManager not initialized] whatever the
    libraries would do, and [isConnected] answers [false].  A modal
    opened on it stops at [CONNECT_WALLET] once the tool is loaded, and
    its Connect button and its timer leave it there: the error of
    [connect] is swallowed, nothing is shown and no callback is
    called. *)
Theorem wallet_calls_need_init (lib : WalletManager.Library) (w : Modal.World) :
  Modal.wallet w = WalletManager.provider lib WalletManager.fresh ->
  (WalletManager.connect lib WalletManager.fresh = Throw WalletManager.notInitialized
   /\ WalletManager.getAccount lib WalletManager.fresh = Throw WalletManager.notInitialized
   /\ (forall chainId,
         WalletManager.switchNetwork lib WalletManager.fresh chainId
         = Throw WalletManager.notInitialized)
   /\ (forall tx,
         WalletManager.sendTransaction lib WalletManager.fresh tx
         = Throw WalletManager.notInitialized)
   /\ (forall hash,
         WalletManager.waitForReceipt lib WalletManager.fresh hash
         = Throw WalletManager.notInitialized)
   /\ WalletManager.isConnected lib WalletManager.fresh = false)
  /\ (forall id h data,
        Api.fetchTool (Modal.net w) id = Normal data ->
        Modal.loadTool w id h
        = ({| Modal.state := Modal.CONNECT_WALLET;
              Modal.toolData := Some data;
              Modal.tokens := Modal.tokens h;
              Modal.selectedToken := Modal.selectedToken h;
              Modal.error := Modal.error h;
              Modal.txHash := Modal.txHash h |},
           [Modal.onOpen; Modal.api_fetchTool id], Normal tt))
  /\ (forall h, Modal.connectWallet w h = (h, [Modal.wallet_connect], Normal tt))
  /\ (forall h, Modal.tick w h = (h, [], Normal tt)).
Proof.
  intros Hwallet. split; [repeat split|]. split; [|split].
  - intros id h data Hfetch. unfold Modal.loadTool. run_handler. rewrite Hfetch.
    run_handler. rewrite Hwallet. reflexivity.
  - intros h. unfold Modal.connectWallet. run_handler. rewrite Hwallet. reflexivity.
  - intros h. unfold Modal.tick. rewrite Hwallet.
    destruct (Modal.state h), (Modal.toolData h); reflexivity.
Qed.

Lemma wallet_calls_need_init_witness :
  Modal.connectWallet (DCP.world Sample.platform DCP.loaded) Modal.initial
  = (Modal.initial, [Modal.wallet_connect], Normal tt).
Proof.
  destruct (wallet_calls_need_init Sample.library (DCP.world Sample.platform DCP.loaded)
              eq_refl) as (_ & _ & Hconnect & _).
  apply Hconnect.
Defined.
(** ** A payment, from the click to the last status request *)

Lemma poll_pending (w : Modal.World) (id paymentId : string) (asked : nat)
  (h : Modal.Hooks) (record : Api.PaymentStatusResponse) :
  Api.getPaymentStatus (Modal.net w) asked paymentId id = Normal record ->
  Api.status record = Api.pending ->
  Modal.poll w id paymentId asked h = (h, Spec.pendingRound paymentId id, Normal true).
Proof.
  intros H Hs. unfold Modal.poll. run_handler. rewrite H. run_handler. rewrite Hs.
  reflexivity.
Qed.

Lemma poll_confirmed (w : Modal.World) (id paymentId : string) (asked : nat)
  (h : Modal.Hooks) (record : Api.PaymentStatusResponse) :
  Api.getPaymentStatus (Modal.net w) asked paymentId id = Normal record ->
  Api.status record = Api.confirmed ->
  Modal.poll w id paymentId asked h
  = (Spec.inState h Modal.SUCCESS,
     [Modal.api_getPaymentStatus paymentId id; Modal.onSuccess record], Normal false).
Proof.
  intros H Hs. unfold Modal.poll. run_handler. rewrite H. run_handler. rewrite Hs.
  reflexivity.
Qed.

(** The four ways a status request ends. *)
Lemma poll_cases (w : Modal.World) (id paymentId : string) (asked : nat) (h : Modal.Hooks) :
  Modal.poll w id paymentId asked h = (h, Spec.pendingRound paymentId id, Normal true)
  \/ (exists record,
        Modal.poll w id paymentId asked h
        = (Spec.inState h Modal.SUCCESS,
           [Modal.api_getPaymentStatus paymentId id; Modal.onSuccess record], Normal false))
  \/ (exists msg,
        Modal.poll w id paymentId asked h
        = (Spec.failedWith h msg, [Modal.api_getPaymentStatus paymentId id], Normal false)).
Proof.
  destruct (Api.getPaymentStatus (Modal.net w) asked paymentId id) as [record|e] eqn:Hget.
  - destruct (Api.status record) eqn:Hs.
    + left. apply (poll_pending _ _ _ _ _ _ Hget Hs).
    + right. left. exists record. apply (poll_confirmed _ _ _ _ _ _ Hget Hs).
    + right. right. exists "Payment failed verification".
      apply (polling_rejection_skips_error_callback _ _ _ _ _ _ Hget Hs).
  - right. right. exists (message e).
    apply (polling_failure_skips_error_callback _ _ _ _ _ _ Hget).
Qed.

(** The status requests of a payment: rounds answered [pending], and
    then nothing more, a confirmation or a failure. *)
Lemma polling_cases (w : Modal.World) (id paymentId : string) (polls : nat) :
  forall asked h,
    exists k,
      (k <= polls)%nat
      /\ (Modal.polling w id paymentId asked polls h
          = (h, List.concat (List.repeat (Spec.pendingRound paymentId id) k), Normal tt)
          \/ (exists record,
                Modal.polling w id paymentId asked polls h
                = (Spec.inState h Modal.SUCCESS,
                   List.concat (List.repeat (Spec.pendingRound paymentId id) k)
                     ++ [Modal.api_getPaymentStatus paymentId id; Modal.onSuccess record],
                   Normal tt))
          \/ (exists msg,
                Modal.polling w id paymentId asked polls h
                = (Spec.failedWith h msg,
                   List.concat (List.repeat (Spec.pendingRound paymentId id) k)
                     ++ [Modal.api_getPaymentStatus paymentId id],
                   Normal tt))).
Proof.
  induction polls as [|polls IH]; intros asked h.
  - exists 0%nat. split; [lia|]. left. reflexivity.
  - cbn [Modal.polling]. unfold Modal.bindM.
    destruct (poll_cases w id paymentId asked h) as [Hp|[(record & Hp)|(msg & Hp)]];
      rewrite Hp.
    + destruct (IH (S asked) h) as (k & Hk & [Hr|[(record & Hr)|(msg & Hr)]]);
        exists (S k); (split; [lia|]); rewrite Hr.
      * left. reflexivity.
      * right. left. exists record. reflexivity.
      * right. right. exists msg. reflexivity.
    + exists 0%nat. split; [lia|]. right. left. exists record. reflexivity.
    + exists 0%nat. split; [lia|]. right. right. exists msg. reflexivity.
Qed.

(** As long as the server answers [pending], each request arms the
    timer for the next one. *)
Lemma polling_while_pending (w : Modal.World) (id paymentId : string) (k : nat) :
  forall asked polls h,
    (forall i, (i < k)%nat ->
       exists record,
         Api.getPaymentStatus (Modal.net w) (asked + i) paymentId id = Normal record
         /\ Api.status record = Api.pending) ->
    Modal.polling w id paymentId asked (k + polls) h
    = (fst (fst (Modal.polling w id paymentId (asked + k) polls h)),
       List.concat (List.repeat (Spec.pendingRound paymentId id) k)
         ++ snd (fst (Modal.polling w id paymentId (asked + k) polls h)),
       snd (Modal.polling w id paymentId (asked + k) polls h)).
Proof.
  induction k as [|k IH]; intros asked polls h Hpending.
  - rewrite Nat.add_0_r. simpl.
    destruct (Modal.polling w id paymentId asked polls h) as [[h' effects] r]. reflexivity.
  - destruct (Hpending 0%nat ltac:(lia)) as (record & Hget & Hstatus).
    rewrite Nat.add_0_r in Hget.
    change (S k + polls)%nat with (S (k + polls)). cbn [Modal.polling].
    unfold Modal.bindM. rewrite (poll_pending w id paymentId asked h record Hget Hstatus).
    rewrite (IH (S asked) polls h).
    + replace (S asked + k)%nat with (asked + S k)%nat by lia.
      destruct (Modal.polling w id paymentId (asked + S k) polls h) as [[h' effects] r].
      reflexivity.
    + intros i Hi. destruct (Hpending (S i) ltac:(lia)) as (r & Hr & Hs).
      exists r. split; [|exact Hs]. rewrite <- Hr. f_equal. lia.
Qed.

(** What [handlePay] does once the intent, the conversion, the
    broadcast and the submission went through: the status requests
    follow. *)
Lemma handlePay_submitted (w : Modal.World) (id : string) (polls : nat) (h : Modal.Hooks)
  (tool : ToolData) (token : TokenWithBalance) (intent : BackendIntentResponse)
  (wei : Z) (hash : string) (res : Api.SubmitPaymentResponse) :
  Modal.toolData h = Some tool -> Modal.selectedToken h = Some token ->
  Api.createIntent (Modal.net w) id (symbol token) = Normal intent ->
  Viem.parseUnits (amount intent) (decimals token) = Normal wei ->
  Spec.broadcast w token intent wei tool = Normal hash ->
  Api.submitPayment (Modal.net w) (Spec.submission id tool intent wei hash) id = Normal res ->
  Modal.handlePay w id polls h
  = (fst (fst (Modal.polling w id (Api.payment_id res) 0 polls (Spec.submitted h hash))),
     Modal.api_createIntent id (symbol token)
       :: Spec.broadcastEffects w token intent wei tool
       ++ [Modal.onTxSubmitted hash;
           Modal.api_submitPayment (Spec.submission id tool intent wei hash) id]
       ++ snd (fst (Modal.polling w id (Api.payment_id res) 0 polls (Spec.submitted h hash))),
     Normal tt).
Proof.
  intros Hd Ht Hi Hp Hs Hsub. unfold Modal.handlePay. rewrite Hd, Ht.
  run_handler. rewrite Hi. run_handler. rewrite Hp. run_handler.
  rewrite sendPayment_run, Hs. run_handler.
  unfold Spec.submission in Hsub. rewrite Hsub.
  match goal with
  | |- context [Modal.polling w id (Api.payment_id res) 0 polls ?h0] =>
      change h0 with (Spec.submitted h hash)
  end.
  destruct (polling_cases w id (Api.payment_id res) polls 0%nat (Spec.submitted h hash))
    as (k & _ & [Hr|[(record & Hr)|(msg & Hr)]]); rewrite Hr; reflexivity.
Qed.

(** The broadcast: nothing reaches the wallet when the call cannot be
    encoded; otherwise one transaction does, and the broadcast
    completes as the wallet answers. *)
Lemma broadcast_cases (w : Modal.World) (token : TokenWithBalance)
  (intent : BackendIntentResponse) (wei : Z) (tool : ToolData) :
  (Spec.broadcastEffects w token intent wei tool = []
   /\ exists e, Spec.broadcast w token intent wei tool = Throw e)
  \/ exists tx,
       Spec.broadcastEffects w token intent wei tool = [Modal.wallet_sendTransaction tx]
       /\ Spec.broadcast w token intent wei tool = Wallet.sendTransaction (Modal.wallet w) tx
       /\ Wallet.chainId tx = chain_id tool
       /\ ((isNative token = true
            /\ Wallet.to tx = merchantAddress intent
            /\ Wallet.value tx = Some wei
            /\ Wallet.data tx = None)
           \/ (isNative token = false
               /\ Wallet.to tx = tokenAddress intent
               /\ Wallet.value tx = None
               /\ exists calldata,
                    Wallet.data tx = Some calldata
                    /\ Viem.decodeTransfer calldata
                       = Some (Viem.toLowerCase (merchantAddress intent), wei))).
Proof.
  unfold Spec.broadcastEffects, Spec.broadcast, Modal.sendPayment.
  destruct (isNative token) eqn:Hnative.
  - right. eexists. run_handler.
    match goal with
    | |- context [Wallet.sendTransaction (Modal.wallet w) ?t] =>
        destruct (Wallet.sendTransaction (Modal.wallet w) t) eqn:Hsend
    end; cbn [fst snd]; (split; [reflexivity|]); (split; [symmetry; exact Hsend|]);
      (split; [reflexivity|]); left; repeat split; reflexivity.
  - run_handler.
    destruct (Viem.encodeTransfer (Modal.checksumAddress w) (merchantAddress intent) wei)
      as [calldata|e] eqn:Hdata.
    + right. eexists.
      match goal with
      | |- context [Wallet.sendTransaction (Modal.wallet w) ?t] =>
          destruct (Wallet.sendTransaction (Modal.wallet w) t) eqn:Hsend
      end; cbn [fst snd]; (split; [reflexivity|]); (split; [symmetry; exact Hsend|]);
        (split; [reflexivity|]); right; (split; [reflexivity|]); (split; [reflexivity|]);
        (split; [reflexivity|]); exists calldata; (split; [reflexivity|]);
        apply (encodeTransfer_decodes _ _ _ _ Hdata).
    + left. split; [reflexivity|]. exists e. reflexivity.
Qed.

(** The ways [handlePay] ends. *)
Lemma handlePay_cases (w : Modal.World) (id : string) (polls : nat) (h : Modal.Hooks) :
  Modal.handlePay w id polls h = (h, [], Normal tt)
  \/ exists tool token,
       Modal.toolData h = Some tool /\ Modal.selectedToken h = Some token
       /\ ((exists e,
              Modal.handlePay w id polls h
              = (Spec.failedWith h (message e),
                 [Modal.api_createIntent id (symbol token); Modal.onError e], Normal tt))
           \/ exists intent wei,
                Api.createIntent (Modal.net w) id (symbol token) = Normal intent
                /\ Viem.parseUnits (amount intent) (decimals token) = Normal wei
                /\ ((exists e,
                       Spec.broadcast w token intent wei tool = Throw e
                       /\ Modal.handlePay w id polls h
                          = (Spec.failedWith h (message e),
                             Modal.api_createIntent id (symbol token)
                               :: Spec.broadcastEffects w token intent wei tool
                               ++ [Modal.onError e],
                             Normal tt))
                    \/ exists hash,
                         Spec.broadcast w token intent wei tool = Normal hash
                         /\ ((exists e,
                                Modal.handlePay w id polls h
                                = (Spec.failedWith (Spec.submitted h hash) (message e),
                                   Modal.api_createIntent id (symbol token)
                                     :: Spec.broadcastEffects w token intent wei tool
                                     ++ [Modal.onTxSubmitted hash;
                                         Modal.api_submitPayment
                                           (Spec.submission id tool intent wei hash) id;
                                         Modal.onError e],
                                   Normal tt))
                             \/ exists res,
                                  Api.submitPayment (Modal.net w)
                                    (Spec.submission id tool intent wei hash) id
                                  = Normal res
                                  /\ Modal.handlePay w id polls h
                                     = (fst (fst (Modal.polling w id (Api.payment_id res) 0
                                                    polls (Spec.submitted h hash))),
                                        Modal.api_createIntent id (symbol token)
                                          :: Spec.broadcastEffects w token intent wei tool
                                          ++ [Modal.onTxSubmitted hash;
                                              Modal.api_submitPayment
                                                (Spec.submission id tool intent wei hash) id]
                                          ++ snd (fst (Modal.polling w id (Api.payment_id res)
                                                         0 polls (Spec.submitted h hash))),
                                        Normal tt)))).
Proof.
  destruct (Modal.toolData h) as [tool|] eqn:Hd.
  2: { left. unfold Modal.handlePay. rewrite Hd. reflexivity. }
  destruct (Modal.selectedToken h) as [token|] eqn:Ht.
  2: { left. unfold Modal.handlePay. rewrite Hd, Ht. reflexivity. }
  right. exists tool, token. split; [reflexivity|]. split; [reflexivity|].
  destruct (Api.createIntent (Modal.net w) id (symbol token)) as [intent|e] eqn:Hi.
  2: { left. exists e. apply (handlePay_intent_failure _ _ _ _ tool token e Hd Ht Hi). }
  destruct (Viem.parseUnits (amount intent) (decimals token)) as [wei|e] eqn:Hp.
  2: { left. exists e. unfold Modal.handlePay. rewrite Hd, Ht.
       run_handler. rewrite Hi. run_handler. rewrite Hp. reflexivity. }
  right. exists intent, wei. split; [reflexivity|]. split; [first [reflexivity | assumption]|].
  destruct (Spec.broadcast w token intent wei tool) as [hash|e] eqn:Hs.
  2: { left. exists e. split; [first [reflexivity | assumption]|]. unfold Modal.handlePay. rewrite Hd, Ht.
       run_handler. rewrite Hi. run_handler. rewrite Hp. run_handler.
       rewrite sendPayment_run, Hs. reflexivity. }
  right. exists hash. split; [first [reflexivity | assumption]|].
  destruct (Api.submitPayment (Modal.net w) (Spec.submission id tool intent wei hash) id)
    as [res|e] eqn:Hsub.
  - right. exists res. split; [first [reflexivity | assumption]|].
    apply (handlePay_submitted _ _ _ _ tool token intent wei hash res); assumption.
  - left. exists e. unfold Modal.handlePay. rewrite Hd, Ht.
    run_handler. rewrite Hi. run_handler. rewrite Hp. run_handler.
    rewrite sendPayment_run, Hs. run_handler.
    unfold Spec.submission in Hsub. rewrite Hsub.
    apply f_equal2; [apply f_equal2|]; try reflexivity.
    simpl. rewrite <- app_assoc. reflexivity.
Qed.

(** X11: a payment whose intent, conversion, broadcast and submission
    go through, and whose status is [pending] for [k] requests and then
    [confirmed], ends in [SUCCESS] with the hash of the transaction
    held; what it did, in order: the intent, the broadcast, the
    [onTxSubmitted] callback, the submission, [k] status requests each
    followed by the timer, a last status request and the [onSuccess]
    callback with the confirmed record. *)
Theorem payment_is_confirmed
  (w : Modal.World) (id : string) (polls : nat) (h : Modal.Hooks)
  (tool : ToolData) (token : TokenWithBalance) (intent : BackendIntentResponse)
  (wei : Z) (hash : string) (res : Api.SubmitPaymentResponse) (k : nat)
  (record : Api.PaymentStatusResponse) :
  Modal.toolData h = Some tool -> Modal.selectedToken h = Some token ->
  Api.createIntent (Modal.net w) id (symbol token) = Normal intent ->
  Viem.parseUnits (amount intent) (decimals token) = Normal wei ->
  Spec.broadcast w token intent wei tool = Normal hash ->
  Api.submitPayment (Modal.net w) (Spec.submission id tool intent wei hash) id = Normal res ->
  (forall i, (i < k)%nat ->
     exists waiting,
       Api.getPaymentStatus (Modal.net w) i (Api.payment_id res) id = Normal waiting
       /\ Api.status waiting = Api.pending) ->
  Api.getPaymentStatus (Modal.net w) k (Api.payment_id res) id = Normal record ->
  Api.status record = Api.confirmed ->
  (k < polls)%nat ->
  Modal.handlePay w id polls h
  = ({| Modal.state := Modal.SUCCESS;
        Modal.toolData := Modal.toolData h;
        Modal.tokens := Modal.tokens h;
        Modal.selectedToken := Modal.selectedToken h;
        Modal.error := Modal.error h;
        Modal.txHash := Some hash |},
     Modal.api_createIntent id (symbol token)
       :: Spec.broadcastEffects w token intent wei tool
       ++ [Modal.onTxSubmitted hash;
           Modal.api_submitPayment (Spec.submission id tool intent wei hash) id]
       ++ List.concat (List.repeat (Spec.pendingRound (Api.payment_id res) id) k)
       ++ [Modal.api_getPaymentStatus (Api.payment_id res) id; Modal.onSuccess record],
     Normal tt).
Proof.
  intros Hd Ht Hi Hp Hs Hsub Hpending Hlast Hconfirmed Hk.
  rewrite (handlePay_submitted w id polls h tool token intent wei hash res Hd Ht Hi Hp Hs Hsub).
  replace polls with (k + S (polls - S k))%nat by lia.
  rewrite (polling_while_pending w id (Api.payment_id res) k 0%nat (S (polls - S k))
             (Spec.submitted h hash) Hpending).
  cbn [Modal.polling plus]. unfold Modal.bindM.
  rewrite (poll_confirmed w id (Api.payment_id res) k (Spec.submitted h hash) record
             Hlast Hconfirmed).
  reflexivity.
Qed.

Lemma payment_is_confirmed_witness :
  Modal.state (fst (fst (Modal.handlePay
                           (Sample.world (Sample.server
                                            (Sample.answer (Sample.statusRecord Api.confirmed))))
                           "tool_1" 5 (Modal.hooks Sample.opened))))
  = Modal.SUCCESS.
Proof.
  rewrite (payment_is_confirmed
             (Sample.world (Sample.server (Sample.answer (Sample.statusRecord Api.confirmed))))
             "tool_1" 5 (Modal.hooks Sample.opened)
             Sample.tool (Spec.entryOf Sample.USDT 100) Sample.intent 49990000 "0xabc"
             {| Api.payment_id := "pay_1"; Api.submitted_tx_hash := "0xabc";
                Api.submitted_status := Api.pending;
                Api.submitted_message := "received" |}
             2 (Sample.statusRecord Api.confirmed)).
  - reflexivity.
  - reflexivity.
  - reflexivity.
  - reflexivity.
  - vm_compute. reflexivity.
  - vm_compute. reflexivity.
  - vm_compute. reflexivity.
  - intros i Hi. exists (Sample.statusRecord Api.pending).
    destruct i as [|[|i]]; [split; reflexivity | split; reflexivity | lia].
  - reflexivity.
  - reflexivity.
  - lia.
Defined.

(** X12: the modal asks for the status as long as the server answers
    [pending]: however many requests are followed, each one arms the
    timer for the next, the state stays [POLLING] and neither
    [onSuccess] nor [onError] is called. *)
Theorem polling_goes_on_while_pending
  (w : Modal.World) (id : string) (polls : nat) (h : Modal.Hooks)
  (tool : ToolData) (token : TokenWithBalance) (intent : BackendIntentResponse)
  (wei : Z) (hash : string) (res : Api.SubmitPaymentResponse) :
  Modal.toolData h = Some tool -> Modal.selectedToken h = Some token ->
  Api.createIntent (Modal.net w) id (symbol token) = Normal intent ->
  Viem.parseUnits (amount intent) (decimals token) = Normal wei ->
  Spec.broadcast w token intent wei tool = Normal hash ->
  Api.submitPayment (Modal.net w) (Spec.submission id tool intent wei hash) id = Normal res ->
  (forall i, (i < polls)%nat ->
     exists waiting,
       Api.getPaymentStatus (Modal.net w) i (Api.payment_id res) id = Normal waiting
       /\ Api.status waiting = Api.pending) ->
  Modal.handlePay w id polls h
  = (Spec.submitted h hash,
     Modal.api_createIntent id (symbol token)
       :: Spec.broadcastEffects w token intent wei tool
       ++ [Modal.onTxSubmitted hash;
           Modal.api_submitPayment (Spec.submission id tool intent wei hash) id]
       ++ List.concat (List.repeat (Spec.pendingRound (Api.payment_id res) id) polls),
     Normal tt).
Proof.
  intros Hd Ht Hi Hp Hs Hsub Hpending.
  rewrite (handlePay_submitted w id polls h tool token intent wei hash res Hd Ht Hi Hp Hs Hsub).
  pose proof (polling_while_pending w id (Api.payment_id res) polls 0%nat 0%nat
                (Spec.submitted h hash) Hpending) as Hpoll.
  rewrite Nat.add_0_r in Hpoll. rewrite Hpoll.
  cbn [Modal.polling Modal.ret fst snd]. rewrite app_nil_r. reflexivity.
Qed.

Lemma polling_goes_on_while_pending_witness :
  Modal.state (fst (fst (Modal.handlePay
                           (Sample.world (Sample.server
                                            (Sample.answer (Sample.statusRecord Api.confirmed))))
                           "tool_1" 2 (Modal.hooks Sample.opened))))
  = Modal.POLLING.
Proof.
  rewrite (polling_goes_on_while_pending
             (Sample.world (Sample.server (Sample.answer (Sample.statusRecord Api.confirmed))))
             "tool_1" 2 (Modal.hooks Sample.opened)
             Sample.tool (Spec.entryOf Sample.USDT 100) Sample.intent 49990000 "0xabc"
             {| Api.payment_id := "pay_1"; Api.submitted_tx_hash := "0xabc";
                Api.submitted_status := Api.pending;
                Api.submitted_message := "received" |}).
  - reflexivity.
  - reflexivity.
  - reflexivity.
  - reflexivity.
  - vm_compute. reflexivity.
  - vm_compute. reflexivity.
  - vm_compute. reflexivity.
  - intros i Hi. exists (Sample.statusRecord Api.pending).
    destruct i as [|[|i]]; [split; reflexivity | split; reflexivity | lia].
Defined.

(** ** What a payment reports *)


Lemma occurrences_cons (kind : Modal.Effect -> bool) (e : Modal.Effect)
  (l : list Modal.Effect) :
  Spec.occurrences kind (e :: l)
  = ((if kind e then 1 else 0) + Spec.occurrences kind l)%nat.
Proof. unfold Spec.occurrences. simpl. destruct (kind e); reflexivity. Qed.


Lemma in_rounds (paymentId id : string) (k : nat) (e : Modal.Effect) :
  In e (List.concat (List.repeat (Spec.pendingRound paymentId id) k)) ->
  e = Modal.api_getPaymentStatus paymentId id \/ e = Modal.setTimeout_poll.
Proof.
  induction k as [|k IH]; simpl; [intros []|].
  intros [<-|[<-|Hin]]; auto.
Qed.



(** X14: what is submitted to the server describes the transaction
    that was given to the wallet: a submission among the effects of
    [handlePay] comes with a transaction that the wallet answered with
    the submitted hash, on the submitted chain, and that carries the
    submitted amount to the submitted recipient, as its value for a
    native token, as a [transfer] call on the submitted token address
    otherwise. *)
Theorem submission_describes_the_transaction
  (w : Modal.World) (id : string) (polls : nat) (h : Modal.Hooks)
  (request : Api.SubmitPaymentRequest) (toolId : string) :
  In (Modal.api_submitPayment request toolId) (snd (fst (Modal.handlePay w id polls h))) ->
  exists tx wei,
    In (Modal.wallet_sendTransaction tx) (snd (fst (Modal.handlePay w id polls h)))
    /\ Wallet.sendTransaction (Modal.wallet w) tx = Normal (Api.tx_hash request)
    /\ BigInt (Api.amount_wei request) = Normal wei
    /\ Api.req_chain_id request = Wallet.chainId tx
    /\ Api.metadata_toolId request = id
    /\ toolId = id
    /\ ((Wallet.value tx = Some wei
         /\ Wallet.to tx = Api.recipient request
         /\ Wallet.data tx = None)
        \/ (Wallet.value tx = None
            /\ Wallet.to tx = Api.token_address request
            /\ exists calldata,
                 Wallet.data tx = Some calldata
                 /\ Viem.decodeTransfer calldata
                    = Some (Viem.toLowerCase (Api.recipient request), wei))).
Proof.
  destruct (handlePay_cases w id polls h)
    as [Hrun|(tool & token & _ & _ &
              [(e & Hrun)
              |(intent & wei & _ & _ &
                [(e & Hs & Hrun)
                |(hash & Hs & Hsubmitted)])])].
  - rewrite Hrun. intros [].
  - rewrite Hrun. cbn [fst snd]. intros [Hin|[Hin|[]]]; discriminate.
  - rewrite Hrun. cbn [fst snd].
    destruct (broadcast_cases w token intent wei tool) as [[-> _]|(tx & -> & _)];
      simpl; intros Hin; repeat (destruct Hin as [Hin|Hin]; [discriminate|]); destruct Hin.
  - destruct (broadcast_cases w token intent wei tool)
      as [[_ (e' & He')]|(tx & Heffects & Hsend & Hchain & Hshape)]; [congruence|].
    assert (Hfound : forall rest,
               In (Modal.api_submitPayment request toolId)
                  (Modal.api_createIntent id (symbol token)
                     :: [Modal.wallet_sendTransaction tx]
                     ++ [Modal.onTxSubmitted hash;
                         Modal.api_submitPayment
                           (Spec.submission id tool intent wei hash) id]
                     ++ rest) ->
               (forall x, In x rest -> x <> Modal.api_submitPayment request toolId) ->
               request = Spec.submission id tool intent wei hash /\ toolId = id).
    { intros rest Hin Hrest. simpl in Hin.
      destruct Hin as [Hin|[Hin|[Hin|[Hin|Hin]]]]; try discriminate.
      - injection Hin as <- <-. split; reflexivity.
      - exfalso. apply (Hrest _ Hin). reflexivity. }
    assert (Hanswer : forall effects,
               In (Modal.wallet_sendTransaction tx)
                  (Modal.api_createIntent id (symbol token)
                     :: [Modal.wallet_sendTransaction tx] ++ effects)).
    { intros effects. right. left. reflexivity. }
    assert (Hdone : request = Spec.submission id tool intent wei hash /\ toolId = id ->
                    Wallet.sendTransaction (Modal.wallet w) tx = Normal (Api.tx_hash request)
                    /\ BigInt (Api.amount_wei request) = Normal wei
                    /\ Api.req_chain_id request = Wallet.chainId tx
                    /\ Api.metadata_toolId request = id
                    /\ toolId = id
                    /\ ((Wallet.value tx = Some wei
                         /\ Wallet.to tx = Api.recipient request
                         /\ Wallet.data tx = None)
                        \/ (Wallet.value tx = None
                            /\ Wallet.to tx = Api.token_address request
                            /\ exists calldata,
                                 Wallet.data tx = Some calldata
                                 /\ Viem.decodeTransfer calldata
                                    = Some (Viem.toLowerCase (Api.recipient request), wei)))).
    { intros [-> ->]. cbn [Spec.submission Api.tx_hash Api.amount_wei Api.req_chain_id
                            Api.metadata_toolId Api.recipient Api.token_address].
      split; [rewrite <- Hsend; exact Hs|]. split; [apply BigInt_toString|].
      split; [symmetry; exact Hchain|]. split; [reflexivity|]. split; [reflexivity|].
      destruct Hshape as [(_ & Hto & Hvalue & Hdata)|(_ & Hto & Hvalue & Hdata)].
      - left. repeat split; assumption.
      - right. repeat split; assumption. }
    destruct Hsubmitted as [(e & Hrun)|(res & _ & Hrun)];
      rewrite Hrun; cbn [fst snd]; rewrite Heffects; intros Hin.
    + exists tx, wei. split; [apply Hanswer|]. apply Hdone.
      apply (Hfound [Modal.onError e]).
      * simpl in *. tauto.
      * intros x [<-|[]]. discriminate.
    + exists tx, wei. split; [apply Hanswer|]. apply Hdone.
      apply (Hfound _ Hin).
      intros x Hx.
      destruct (polling_cases w id (Api.payment_id res) polls 0%nat (Spec.submitted h hash))
        as (k & _ & [Hr|[(record & Hr)|(msg & Hr)]]); rewrite Hr in Hx; cbn [fst snd] in Hx.
      * apply in_rounds in Hx. destruct Hx as [->| ->]; discriminate.
      * apply in_app_or in Hx. destruct Hx as [Hx|[<-|[<-|[]]]]; try discriminate.
        apply in_rounds in Hx. destruct Hx as [->| ->]; discriminate.
      * apply in_app_or in Hx. destruct Hx as [Hx|[<-|[]]]; try discriminate.
        apply in_rounds in Hx. destruct Hx as [->| ->]; discriminate.
Qed.

Lemma submission_describes_the_transaction_witness :
  exists tx,
    Wallet.sendTransaction Sample.connected tx = Normal "0xabc"
    /\ Wallet.chainId tx = 1.
Proof.
  destruct (submission_describes_the_transaction
              (Sample.world (Sample.server (Sample.answer (Sample.statusRecord Api.confirmed))))
              "tool_1" 3 (Modal.hooks Sample.opened)
              (Spec.submission "tool_1" Sample.tool Sample.intent 49990000 "0xabc") "tool_1")
    as (tx & wei & _ & Hsend & _ & Hchain & _).
  - vm_compute. auto 10.
  - exists tx. split; [exact Hsend|]. symmetry. exact Hchain.
Defined.

(** ** The states the modal goes through *)

Lemma checkBalances_cases (w : Modal.World) (data : ToolData) (h : Modal.Hooks) :
  exists effects,
    (exists e,
       Modal.checkBalances w data h = (Spec.failedWith h (message e), effects, Normal tt))
    \/ (exists balances,
          Modal.checkBalances w data h = (Spec.offered h balances, effects, Normal tt)
          /\ Spec.occurrences Spec.isOnError effects = 0%nat).
Proof.
  destruct (Wallet.getAccount (Modal.wallet w)) as [account|e] eqn:Hacc.
  2: { eexists. left. exists e. apply checkBalances_account_failure. exact Hacc. }
  destruct (fetchTokenBalances_ranked (Modal.chain w) (available_tokens data)
              (Wallet.account_address account) (chain_id data)) as (balances & Hbal & _).
  assert (Hok : Wallet.account_chainId account = chain_id data
                \/ Wallet.switchNetwork (Modal.wallet w) (chain_id data) = Normal tt ->
                exists effects ranked,
                  Modal.checkBalances w data h = (Spec.offered h ranked, effects, Normal tt)
                  /\ Spec.occurrences Spec.isOnError effects = 0%nat).
  { intros Hchain.
    destruct (checkBalances_success w data h account balances Hacc Hchain Hbal)
      as (effects & Hrun & _ & Hnone).
    exists effects, balances. split; [exact Hrun|].
    clear Hrun. induction effects as [|x effects IH]; [reflexivity|].
    rewrite occurrences_cons. rewrite IH.
    - destruct x; try reflexivity. exfalso. apply (Hnone e). left. reflexivity.
    - intros e Hin. apply (Hnone e). right. exact Hin. }
  destruct (Z.eq_dec (Wallet.account_chainId account) (chain_id data)) as [Heq|Hne].
  { destruct (Hok (or_introl Heq)) as (effects & ranked & Hrun).
    exists effects. right. exists ranked. exact Hrun. }
  destruct (Wallet.switchNetwork (Modal.wallet w) (chain_id data)) as [[]|e] eqn:Hsw.
  - destruct (Hok (or_intror eq_refl)) as (effects & ranked & Hrun).
    exists effects. right. exists ranked. exact Hrun.
  - eexists. left. exists e. apply (checkBalances_switch_failure _ _ _ account); assumption.
Qed.

Lemma loadTool_cases (w : Modal.World) (id : string) (h : Modal.Hooks) :
  (exists e,
     Modal.loadTool w id h
     = (Spec.failedWith h (message e),
        [Modal.onOpen; Modal.api_fetchTool id; Modal.onError e], Normal tt))
  \/ exists data,
       Api.fetchTool (Modal.net w) id = Normal data
       /\ ((Wallet.isConnected (Modal.wallet w) = false
            /\ Modal.loadTool w id h
               = (Spec.loadedTool h data Modal.CONNECT_WALLET,
                  [Modal.onOpen; Modal.api_fetchTool id], Normal tt))
           \/ (Wallet.isConnected (Modal.wallet w) = true
               /\ Modal.loadTool w id h
                  = (fst (fst (Modal.checkBalances w data
                                 (Spec.loadedTool h data Modal.FETCHING_TOOL))),
                     Modal.onOpen :: Modal.api_fetchTool id
                       :: snd (fst (Modal.checkBalances w data
                                      (Spec.loadedTool h data Modal.FETCHING_TOOL))),
                     Normal tt))).
Proof.
  destruct (Api.fetchTool (Modal.net w) id) as [data|e] eqn:Hfetch.
  2: { left. exists e. apply loadTool_failure. exact Hfetch. }
  right. exists data. split; [reflexivity|].
  unfold Modal.loadTool. run_handler. rewrite Hfetch. run_handler.
  destruct (Wallet.isConnected (Modal.wallet w)).
  - right. split; [reflexivity|].
    match goal with
    | |- context [Modal.checkBalances w data ?h0] =>
        change h0 with (Spec.loadedTool h data Modal.FETCHING_TOOL)
    end.
    destruct (checkBalances_total w data (Spec.loadedTool h data Modal.FETCHING_TOOL))
      as (h' & effects & ->). reflexivity.
  - left. split; reflexivity.
Qed.

Lemma connectWallet_cases (w : Modal.World) (h : Modal.Hooks) :
  Modal.connectWallet w h = (h, [Modal.wallet_connect], Normal tt)
  \/ exists data,
       Modal.toolData h = Some data
       /\ Modal.connectWallet w h
          = (fst (fst (Modal.checkBalances w data h)),
             Modal.wallet_connect :: snd (fst (Modal.checkBalances w data h)),
             Normal tt).
Proof.
  unfold Modal.connectWallet. run_handler.
  destruct (Wallet.connect (Modal.wallet w)) as [[]|e]; [|left; reflexivity].
  destruct (Modal.toolData h) as [data|] eqn:Hd; [|left; reflexivity].
  destruct (Wallet.isConnected (Modal.wallet w)); [|left; reflexivity].
  right. exists data. split; [reflexivity|].
  destruct (checkBalances_total w data h) as (h' & effects & ->). reflexivity.
Qed.

Lemma tick_cases (w : Modal.World) (h : Modal.Hooks) :
  Modal.tick w h = (h, [], Normal tt)
  \/ exists data,
       Modal.state h = Modal.CONNECT_WALLET
       /\ Modal.toolData h = Some data
       /\ Wallet.isConnected (Modal.wallet w) = true
       /\ Modal.tick w h = Modal.checkBalances w data h.
Proof.
  unfold Modal.tick.
  destruct (Modal.state h) eqn:Hs; try (left; reflexivity).
  destruct (Modal.toolData h) as [data|]; [|left; reflexivity].
  destruct (Wallet.isConnected (Modal.wallet w)); [|left; reflexivity].
  right. exists data. repeat split.
Qed.

(** The conjuncts of [Spec.consistent] on hooks that are written out. *)
Ltac consistency :=
  unfold Spec.consistent; simpl;
  repeat match goal with
         | |- _ /\ _ => split
         | |- _ -> _ => intro
         | |- _ <> _ => intro
         end;
  repeat match goal with
         | H : _ \/ _ |- _ => destruct H
         end;
  try discriminate; try contradiction; try congruence; auto.

Lemma consistent_failedWith (h : Modal.Hooks) (msg : string) :
  Spec.consistent (Spec.failedWith h msg).
Proof.
  consistency.
Qed.

Lemma consistent_offered (h : Modal.Hooks) (balances : list TokenWithBalance) :
  Modal.toolData h <> None -> Spec.consistent (Spec.offered h balances).
Proof.
  intros Hd. consistency.
Qed.

Lemma consistent_checkBalances (w : Modal.World) (data : ToolData) (h : Modal.Hooks) :
  Modal.toolData h <> None ->
  Spec.consistent (fst (fst (Modal.checkBalances w data h))).
Proof.
  intros Hd.
  destruct (checkBalances_cases w data h) as (effects & [(e & ->)|(balances & -> & _)]).
  - apply consistent_failedWith.
  - apply consistent_offered. exact Hd.
Qed.

Lemma consistent_polling (w : Modal.World) (id paymentId : string) (asked polls : nat)
  (h : Modal.Hooks) (hash : string) :
  Modal.toolData h <> None -> Modal.selectedToken h <> None ->
  Spec.consistent (fst (fst (Modal.polling w id paymentId asked polls
                               (Spec.submitted h hash)))).
Proof.
  intros Hd Ht.
  destruct (polling_cases w id paymentId polls asked (Spec.submitted h hash))
    as (k & _ & [Hr|[(record & Hr)|(msg & Hr)]]); rewrite Hr; cbn [fst].
  - consistency.
  - consistency.
  - apply consistent_failedWith.
Qed.

(** One action keeps the hooks consistent. *)
Lemma consistent_step (w : Modal.World) (id : string) (a : Spec.Action) (h : Modal.Hooks) :
  Spec.consistent h -> Spec.consistent (fst (fst (Spec.handler w id a h))).
Proof.
  intros Hh. destruct a as [| | |polls|t|]; cbn [Spec.handler].
  - destruct (loadTool_cases w id h)
      as [(e & ->)|(data & _ & [[_ ->]|[_ ->]])]; cbn [fst].
    + apply consistent_failedWith.
    + consistency.
    + apply consistent_checkBalances. discriminate.
  - destruct (connectWallet_cases w h) as [->|(data & Hd & ->)]; cbn [fst].
    + exact Hh.
    + apply consistent_checkBalances. rewrite Hd. discriminate.
  - destruct (tick_cases w h) as [->|(data & _ & Hd & _ & ->)]; cbn [fst].
    + exact Hh.
    + apply consistent_checkBalances. rewrite Hd. discriminate.
  - destruct (handlePay_cases w id polls h)
      as [->|(tool & token & Hd & Ht &
              [(e & ->)
              |(intent & wei & _ & _ &
                [(e & _ & ->)
                |(hash & _ & [(e & ->)|(res & _ & ->)])])])]; cbn [fst].
    + exact Hh.
    + apply consistent_failedWith.
    + apply consistent_failedWith.
    + apply consistent_failedWith.
    + apply consistent_polling; [rewrite Hd | rewrite Ht]; discriminate.
  - destruct Hh as (H1 & H2 & H3 & H4).
    unfold Modal.selectToken, Modal.setSelectedToken.
    unfold Spec.consistent. simpl.
    split; [exact H1|]. split; [exact H2|]. split; [exact H3|].
    intros Hs. split; [apply (H4 Hs) | discriminate].
  - unfold Modal.retry, Modal.setState. consistency.
Qed.

(** X15: however the modal is driven from its first render on, each
    action run to its end before the next, its hooks stay consistent:
    the state is never [REVIEW]; in [ERROR] a message is held; in every
    state but [FETCHING_TOOL] and [ERROR] the tool is loaded; in
    [POLLING] and [SUCCESS] a token is selected and the hash of the
    transaction is held. *)
Theorem modal_stays_consistent (id : string) (steps : list (Modal.World * Spec.Action)) :
  let h := Spec.after id steps Modal.initial in
  Modal.state h <> Modal.REVIEW
  /\ (Modal.state h = Modal.ERROR -> exists msg, Modal.error h = Some msg)
  /\ (Modal.state h <> Modal.FETCHING_TOOL -> Modal.state h <> Modal.ERROR ->
      exists data, Modal.toolData h = Some data)
  /\ (Modal.state h = Modal.POLLING \/ Modal.state h = Modal.SUCCESS ->
      exists token hash,
        Modal.selectedToken h = Some token /\ Modal.txHash h = Some hash).
Proof.
  cbv zeta.
  assert (Hall : forall h, Spec.consistent h -> Spec.consistent (Spec.after id steps h)).
  { induction steps as [|[w a] steps IH]; intros h Hh; [exact Hh|].
    cbn [Spec.after]. apply IH. apply consistent_step. exact Hh. }
  assert (Hinitial : Spec.consistent Modal.initial).
  { consistency. }
  destruct (Hall _ Hinitial) as (H1 & H2 & H3 & H4).
  split; [exact H1|]. split; [|split].
  - intros Hs. destruct (Modal.error _) as [msg|]; [eauto | exfalso; apply (H2 Hs); reflexivity].
  - intros Hs Hs'. destruct (Modal.toolData _) as [data|]; [eauto|].
    exfalso. apply (H3 Hs Hs'). reflexivity.
  - intros Hs. destruct (H4 Hs) as [Hx Ht].
    destruct (Modal.selectedToken _) as [token|]; [|contradiction].
    destruct (Modal.txHash _) as [hash|]; [eauto | contradiction].
Qed.

(** ** The timer of the Connect screen, an empty offer, a refused request *)

(** X16: the interval checks the balances once.  A tick does nothing
    unless the state is [CONNECT_WALLET], the tool is loaded and the
    wallet is connected; then it runs [checkBalances], which leaves the
    modal in [SELECT_TOKEN] or in [ERROR], where no later tick does
    anything. *)
Theorem tick_checks_the_balances_once (w : Modal.World) (h : Modal.Hooks) :
  exists h' effects,
    Modal.tick w h = (h', effects, Normal tt)
    /\ ((h' = h /\ effects = []
         /\ (Modal.state h <> Modal.CONNECT_WALLET
             \/ Modal.toolData h = None
             \/ Wallet.isConnected (Modal.wallet w) = false))
        \/ (exists data,
              Modal.state h = Modal.CONNECT_WALLET
              /\ Modal.toolData h = Some data
              /\ Wallet.isConnected (Modal.wallet w) = true
              /\ Modal.checkBalances w data h = (h', effects, Normal tt)
              /\ (Modal.state h' = Modal.SELECT_TOKEN \/ Modal.state h' = Modal.ERROR)
              /\ forall later, Modal.tick later h' = (h', [], Normal tt))).
Proof.
  unfold Modal.tick at 1.
  destruct (Modal.state h) eqn:Hs;
    try (exists h, []; split; [reflexivity|]; left;
         split; [reflexivity|]; split; [reflexivity|]; left; discriminate).
  destruct (Modal.toolData h) as [data|] eqn:Hd.
  2: { exists h, []. split; [reflexivity|]. left. auto. }
  destruct (Wallet.isConnected (Modal.wallet w)) eqn:Hc.
  2: { exists h, []. split; [reflexivity|]. left. auto. }
  destruct (checkBalances_cases w data h) as (effects & [(e & Hrun)|(balances & Hrun & _)]);
    rewrite Hrun; eexists _, effects; (split; [reflexivity|]); right; exists data;
    (split; [reflexivity|]); (split; [reflexivity|]); (split; [reflexivity|]);
    (split; [exact Hrun|]).
  - split; [right; reflexivity|]. intros later. reflexivity.
  - split; [left; reflexivity|]. intros later. reflexivity.
Qed.

(** X17: a tool that offers no token leads to [SELECT_TOKEN] with an
    empty list and no token selected, and there the Pay button does
    nothing: no state change, no request, no callback. *)
Theorem empty_offer_cannot_be_paid
  (w : Modal.World) (data : ToolData) (h : Modal.Hooks) (account : Wallet.Account) :
  Wallet.getAccount (Modal.wallet w) = Normal account ->
  (Wallet.account_chainId account = chain_id data
   \/ Wallet.switchNetwork (Modal.wallet w) (chain_id data) = Normal tt) ->
  available_tokens data = [] ->
  exists h' effects,
    Modal.checkBalances w data h = (h', effects, Normal tt)
    /\ Modal.state h' = Modal.SELECT_TOKEN
    /\ Modal.tokens h' = []
    /\ Modal.selectedToken h' = None
    /\ forall later id polls, Modal.handlePay later id polls h' = (h', [], Normal tt).
Proof.
  intros Hacc Hchain Hnone.
  destruct (checkBalances_success w data h account [] Hacc Hchain) as (effects & Hrun & _).
  { rewrite Hnone. reflexivity. }
  eexists _, effects. split; [exact Hrun|].
  split; [reflexivity|]. split; [reflexivity|]. split; [reflexivity|].
  intros later id polls. unfold Modal.handlePay. cbn [Modal.toolData Modal.selectedToken].
  destruct (Modal.toolData h); reflexivity.
Qed.

Lemma empty_offer_cannot_be_paid_witness :
  exists h',
    Modal.state h' = Modal.SELECT_TOKEN
    /\ Modal.handlePay (Sample.world Sample.serverDown) "tool_3" 3 h'
       = (h', [], Normal tt).
Proof.
  destruct (empty_offer_cannot_be_paid (Sample.world Sample.serverDown)
              Sample.toolWithoutTokens Modal.initial
              {| Wallet.account_address := Sample.account; Wallet.account_chainId := 137 |})
    as (h' & effects & _ & Hstate & _ & _ & Hpay).
  - reflexivity.
  - left. reflexivity.
  - reflexivity.
  - exists h'. split; [exact Hstate | apply Hpay].
Defined.

(** X18: what the Error screen shows when the tool cannot be loaded.
    An answer of the server that is not [ok] is shown as
    [Failed to fetch payment tool: ] and the status text, whatever its
    body holds; a request that fails is shown by its own message; in
    both cases the error callback gets the same error, and no wallet is
    asked for. *)
Theorem refused_tool_request_is_shown
  (w : Modal.World) (id : string) (h : Modal.Hooks) (url : string) :
  Api.apiUrl (Modal.net w) = Some url ->
  (forall response,
      Api.fetch_tool (Modal.net w) (url ++ "/payment-tools/public/" ++ id)%string
      = Normal response ->
      Api.ok response = false ->
      Modal.loadTool w id h
      = (Spec.failedWith h ("Failed to fetch payment tool: " ++ Api.statusText response),
         [Modal.onOpen; Modal.api_fetchTool id;
          Modal.onError
            (mkError ("Failed to fetch payment tool: " ++ Api.statusText response))],
         Normal tt))
  /\ (forall e,
        Api.fetch_tool (Modal.net w) (url ++ "/payment-tools/public/" ++ id)%string
        = Throw e ->
        Modal.loadTool w id h
        = (Spec.failedWith h (message e),
           [Modal.onOpen; Modal.api_fetchTool id; Modal.onError e], Normal tt)).
Proof.
  intros Hurl. split.
  - intros response Hfetch Hok.
    apply (loadTool_failure w id h
             (mkError ("Failed to fetch payment tool: " ++ Api.statusText response))).
    unfold Api.fetchTool, Api.config_get. rewrite Hurl. cbn [Js.bind].
    rewrite Hfetch. cbn [Js.bind]. unfold Api.orFail. rewrite Hok. reflexivity.
  - intros e Hfetch. apply loadTool_failure.
    unfold Api.fetchTool, Api.config_get. rewrite Hurl. cbn [Js.bind].
    rewrite Hfetch. reflexivity.
Qed.

Lemma refused_tool_request_is_shown_witness :
  Modal.loadTool (Sample.world Sample.serverDown) "tool_1" Modal.initial
  = (Spec.failedWith Modal.initial "Failed to fetch",
     [Modal.onOpen; Modal.api_fetchTool "tool_1"; Modal.onError (mkError "Failed to fetch")],
     Normal tt).
Proof.
  destruct (refused_tool_request_is_shown (Sample.world Sample.serverDown) "tool_1"
              Modal.initial "https://api.directcryptopay.com" eq_refl) as [_ Hfail].
  apply (Hfail (mkError "Failed to fetch")). reflexivity.
Defined.

(** X19: [checkBalances] asks the wallet to change network exactly
    when the account is on another chain than the tool, before any
    balance is read, and the balances it then shows are those of the
    account on the chain of the tool. *)
Theorem network_is_switched_when_needed
  (w : Modal.World) (data : ToolData) (h : Modal.Hooks) (account : Wallet.Account) :
  Wallet.getAccount (Modal.wallet w) = Normal account ->
  exists h' effects,
    Modal.checkBalances w data h = (h', effects, Normal tt)
    /\ (Wallet.account_chainId account = chain_id data ->
        ~ In (Modal.wallet_switchNetwork (chain_id data)) effects
        /\ Modal.state h' = Modal.SELECT_TOKEN)
    /\ (Wallet.account_chainId account <> chain_id data ->
        exists rest,
          effects = Modal.wallet_switchNetwork (chain_id data) :: rest
          /\ forall chainId, ~ In (Modal.wallet_switchNetwork chainId) rest)
    /\ (Modal.state h' = Modal.SELECT_TOKEN ->
        snd (Logic.fetchTokenBalances (Modal.chain w) (available_tokens data)
               (Wallet.account_address account) (chain_id data))
        = Normal (Modal.tokens h')).
Proof.
  intros Hacc.
  destruct (fetchTokenBalances_ranked (Modal.chain w) (available_tokens data)
              (Wallet.account_address account) (chain_id data)) as (balances & Hbal & _).
  assert (Hlines : forall (lines : list Logic.ConsoleError) chainId,
             ~ In (Modal.wallet_switchNetwork chainId) (map Modal.console_error lines)).
  { intros lines chainId Hin. apply in_map_iff in Hin.
    destruct Hin as (x & Hx & _). discriminate. }
  unfold Modal.checkBalances, Modal.bindM, Modal.tryCatch, Modal.setState, Modal.await.
  rewrite Hacc. cbv beta iota.
  destruct (Z.eqb_spec (Wallet.account_chainId account) (chain_id data)) as [Heq|Hne].
  - unfold Modal.ret. rewrite emitAll_run, Hbal. simpl.
    eexists _, _. split; [reflexivity|]. split; [|split].
    + intros _. split; [|reflexivity]. rewrite app_nil_r. apply Hlines.
    + intros Hne. contradiction.
    + intros _. reflexivity.
  - unfold Modal.emit.
    destruct (Wallet.switchNetwork (Modal.wallet w) (chain_id data)) as [[]|e].
    + rewrite emitAll_run, Hbal. simpl.
      eexists _, _. split; [reflexivity|]. split; [|split].
      * intros Heq. contradiction.
      * intros _. eexists. split; [reflexivity|].
        intros chainId. rewrite app_nil_r. apply Hlines.
      * intros _. reflexivity.
    + simpl. eexists _, _. split; [reflexivity|]. split; [|split].
      * intros Heq. contradiction.
      * intros _. eexists. split; [reflexivity|].
        intros chainId [Hin|[]]. discriminate.
      * intros Hs. discriminate.
Qed.

Lemma network_is_switched_when_needed_witness :
  exists rest,
    snd (fst (Modal.checkBalances (Sample.world Sample.serverDown) Sample.tool Modal.initial))
    = Modal.wallet_switchNetwork 1 :: rest.
Proof.
  destruct (network_is_switched_when_needed (Sample.world Sample.serverDown) Sample.tool
              Modal.initial
              {| Wallet.account_address := Sample.account; Wallet.account_chainId := 137 |}
              eq_refl)
    as (h' & effects & Hrun & _ & Hswitch & _).
  destruct Hswitch as (rest & Heffects & _); [discriminate|].
  exists rest. rewrite Hrun. exact Heffects.
Defined.


(** X20: the Connect button.  A [connect()] that rejects is swallowed:
    the hooks stay as they are, the state is not [ERROR] for it and no
    callback is called.  After a [connect()] that is fulfilled the
    balances are checked when the wallet is connected and the tool is
    loaded, and nothing more happens otherwise. *)
Theorem rejected_connect_is_silent (w : Modal.World) (h : Modal.Hooks) :
  (forall e,
      Wallet.connect (Modal.wallet w) = Throw e ->
      Modal.connectWallet w h = (h, [Modal.wallet_connect], Normal tt))
  /\ (Wallet.connect (Modal.wallet w) = Normal tt ->
      (forall data,
          Modal.toolData h = Some data ->
          Wallet.isConnected (Modal.wallet w) = true ->
          exists h' effects,
            Modal.checkBalances w data h = (h', effects, Normal tt)
            /\ Modal.connectWallet w h = (h', Modal.wallet_connect :: effects, Normal tt))
      /\ (Modal.toolData h = None \/ Wallet.isConnected (Modal.wallet w) = false ->
          Modal.connectWallet w h = (h, [Modal.wallet_connect], Normal tt))).
Proof.
  split.
  - intros e Hconnect. unfold Modal.connectWallet. run_handler. rewrite Hconnect.
    reflexivity.
  - intros Hconnect. split.
    + intros data Hd Hc.
      destruct (checkBalances_total w data h) as (h' & effects & Hrun).
      exists h', effects. split; [exact Hrun|].
      unfold Modal.connectWallet. run_handler. rewrite Hconnect, Hd, Hc, Hrun.
      reflexivity.
    + intros Hnot. unfold Modal.connectWallet. run_handler. rewrite Hconnect.
      destruct Hnot as [Hd|Hc].
      * rewrite Hd. reflexivity.
      * rewrite Hc. destruct (Modal.toolData h); reflexivity.
Qed.

(** ** The rounding of parseUnits *)

Lemma digitsValue_bound (s : string) :
  Str.all Str.isDigit s = true ->
  0 <= Viem.digitsValue s < 10 ^ Z.of_nat (String.length s).
Proof.
  induction s as [|ch s IH]; intros Hs.
  - change (Viem.digitsValue EmptyString) with 0. simpl. lia.
  - simpl in Hs. apply andb_prop in Hs. destruct Hs as [Hc Hs].
    rewrite digitsValue_cons by assumption.
    specialize (IH Hs).
    assert (Hdigit : 0 <= Z.of_nat (nat_of_ascii ch) - 48 <= 9).
    { unfold Str.isDigit in Hc. apply andb_prop in Hc. destruct Hc as [H1 H2].
      apply Nat.leb_le in H1, H2. lia. }
    simpl String.length. rewrite Nat2Z.inj_succ, Z.pow_succ_r by lia.
    remember (10 ^ Z.of_nat (String.length s)) as p. nia.
Qed.

(** [Math.round(Number(text))] of a number between [u] and [u + 1] is
    [u] or [u + 1], whatever the binary64 nearest to it is. *)
Lemma MathRound_between (num den u : Z) :
  0 < den -> 0 <= u <= 9 -> u * den <= num < (u + 1) * den ->
  Viem.MathRound (Viem.nearestDouble num den) = u
  \/ Viem.MathRound (Viem.nearestDouble num den) = u + 1.
Proof.
  intros Hden Hu Hnum. unfold Viem.nearestDouble.
  destruct (Z.eqb_spec num 0) as [->|Hnz].
  { left. simpl. nia. }
  assert (Hpos : 0 < num) by nia.
  cbv zeta.
  set (t := Z.log2 num - Z.log2 den).
  assert (Ht : t <= 4).
  { unfold t.
    assert (Hle : Z.log2 num <= Z.log2 (den * 2 ^ 4)).
    { apply Z.log2_le_mono. change (2 ^ 4) with 16. nia. }
    rewrite Z.log2_mul_pow2 in Hle by lia. lia. }
  match goal with
  | |- context [Z.max ?e0 (-1022) - 52] => set (e := Z.max e0 (-1022) - 52);
                                           assert (He : e <= -48)
  end.
  { unfold e. destruct (0 <=? t);
      match goal with |- context [if ?b then _ else _] => destruct b end; lia. }
  destruct (Z.leb_spec 0 e) as [Hge|_]; [lia|].
  set (P := 2 ^ (- e)).
  assert (HP : 0 < P) by (apply Z.pow_pos_nonneg; lia).
  set (q := num * P / den). set (r := (num * P) mod den).
  assert (Hq : u * P <= q < (u + 1) * P).
  { unfold q. split.
    - apply Z.div_le_lower_bound; [lia | nia].
    - apply Z.div_lt_upper_bound; [lia | nia]. }
  assert (Hround : forall m, q <= m <= q + 1 ->
                     Viem.MathRound (m, e) = u \/ Viem.MathRound (m, e) = u + 1).
  { intros m Hm. unfold Viem.MathRound.
    destruct (Z.leb_spec 0 e) as [Hge|_]; [lia|].
    fold P. replace (2 ^ (1 - e)) with (2 * P).
    2: { unfold P. replace (1 - e) with (Z.succ (- e)) by lia.
         rewrite Z.pow_succ_r by lia. reflexivity. }
    assert (Hlow : u <= (2 * m + P) / (2 * P)).
    { apply Z.div_le_lower_bound; nia. }
    assert (Hhigh : (2 * m + P) / (2 * P) < u + 2).
    { apply Z.div_lt_upper_bound; nia. }
    lia. }
  destruct (2 * r <? den); [apply Hround; lia|].
  destruct (den <? 2 * r); [apply Hround; lia|].
  destruct (Z.even q); apply Hround; lia.
Qed.

Lemma roundNumber_between (unit right : string) :
  Str.all Str.isDigit unit = true -> Str.all Str.isDigit right = true ->
  (String.length unit <= 1)%nat ->
  (unit ++ right)%string <> EmptyString ->
  exists r,
    Viem.roundNumber unit right = Some r
    /\ (r = Viem.digitsValue unit \/ r = Viem.digitsValue unit + 1).
Proof.
  intros Hu Hr Hlen Hne. unfold Viem.roundNumber.
  assert (Hempty : andb (String.eqb unit EmptyString) (String.eqb right EmptyString) = false).
  { destruct (String.eqb_spec unit EmptyString) as [->|]; [|reflexivity].
    destruct (String.eqb_spec right EmptyString) as [->|]; [|reflexivity].
    contradiction. }
  rewrite Hempty. eexists. split; [reflexivity|].
  rewrite digitsValue_app by assumption.
  pose proof (digitsValue_bound unit Hu) as Hub.
  pose proof (digitsValue_bound right Hr) as Hrb.
  assert (Hu9 : 0 <= Viem.digitsValue unit <= 9).
  { destruct unit as [|ch [|ch' rest]]; simpl in Hlen; try lia.
    - change (Viem.digitsValue EmptyString) with 0. lia.
    - simpl in Hub. lia. }
  apply MathRound_between; [apply Z.pow_pos_nonneg; lia | exact Hu9 | nia].
Qed.

(** The decimal text of a positive integer starts with a digit that is
    not zero. *)
Lemma toString_first (x : Z) :
  0 < x ->
  exists ch rest,
    toString x = String ch rest
    /\ Str.isDigit ch = true
    /\ 1 <= Z.of_nat (nat_of_ascii ch) - 48
    /\ Str.all Str.isDigit rest = true.
Proof.
  intros Hx. destruct x as [|p|p]; try lia. clear Hx.
  unfold toString. simpl Z.to_int. unfold DecimalString.NilZero.string_of_int.
  pose proof (DecimalPos.Unsigned.to_uint_nonzero p) as Hnz.
  assert (Hnorm : Pos.to_uint p = Decimal.unorm (Pos.to_uint p)).
  { pose proof (DecimalPos.Unsigned.to_of (Pos.to_uint p)) as H.
    rewrite DecimalPos.Unsigned.of_to in H. exact H. }
  destruct (Pos.to_uint p) as [|d|d|d|d|d|d|d|d|d|d] eqn:E.
  - discriminate Hnorm.
  - exfalso. rewrite DecimalFacts.unorm_D0 in Hnorm.
    unfold Decimal.unorm in Hnorm.
    destruct (Decimal.nzhead d) eqn:Hh; try discriminate Hnorm.
    + injection Hnorm as ->. apply Hnz. reflexivity.
    + apply (DecimalFacts.nzhead_nonzero d d). rewrite Hh. congruence.
  - eexists _, _. split; [reflexivity|]. split; [reflexivity|]. split; [apply Z.leb_le; reflexivity|].
    apply string_of_uint_digits.
  - eexists _, _. split; [reflexivity|]. split; [reflexivity|]. split; [apply Z.leb_le; reflexivity|].
    apply string_of_uint_digits.
  - eexists _, _. split; [reflexivity|]. split; [reflexivity|]. split; [apply Z.leb_le; reflexivity|].
    apply string_of_uint_digits.
  - eexists _, _. split; [reflexivity|]. split; [reflexivity|]. split; [apply Z.leb_le; reflexivity|].
    apply string_of_uint_digits.
  - eexists _, _. split; [reflexivity|]. split; [reflexivity|]. split; [apply Z.leb_le; reflexivity|].
    apply string_of_uint_digits.
  - eexists _, _. split; [reflexivity|]. split; [reflexivity|]. split; [apply Z.leb_le; reflexivity|].
    apply string_of_uint_digits.
  - eexists _, _. split; [reflexivity|]. split; [reflexivity|]. split; [apply Z.leb_le; reflexivity|].
    apply string_of_uint_digits.
  - eexists _, _. split; [reflexivity|]. split; [reflexivity|]. split; [apply Z.leb_le; reflexivity|].
    apply string_of_uint_digits.
  - eexists _, _. split; [reflexivity|]. split; [reflexivity|]. split; [apply Z.leb_le; reflexivity|].
    apply string_of_uint_digits.
Qed.

(** The decimal text of a natural number: digits, worth the number. *)
Lemma toString_natural (x : Z) :
  0 <= x ->
  Str.all Str.isDigit (toString x) = true
  /\ toString x <> EmptyString
  /\ Viem.digitsValue (toString x) = x.
Proof.
  intros Hx. destruct (toString_digits x) as (digits & Hd & Hne & Hz & Hval).
  destruct (Z.ltb_spec x 0) as [Hneg|_]; [lia|].
  change (EmptyString ++ digits)%string with digits in Hz. rewrite Hz.
  repeat split; try assumption. lia.
Qed.

Lemma toString_length (x : Z) (k : nat) :
  0 <= x < 10 ^ Z.of_nat k -> (1 <= k)%nat -> (String.length (toString x) <= k)%nat.
Proof.
  intros Hx Hk. destruct (Z.eq_dec x 0) as [->|Hnz]; [simpl; lia|].
  destruct (toString_first x ltac:(lia)) as (ch & rest & Hs & Hc & Hlead & Hrest).
  destruct (toString_natural x ltac:(lia)) as (_ & _ & Hval).
  rewrite Hs in Hval |- *. rewrite digitsValue_cons in Hval by assumption.
  pose proof (digitsValue_bound rest Hrest) as Hb.
  assert (Hlt : 10 ^ Z.of_nat (String.length rest) < 10 ^ Z.of_nat k).
  { remember (10 ^ Z.of_nat (String.length rest)) as q. nia. }
  apply Z.pow_lt_mono_r_iff in Hlt; [|lia|lia]. simpl String.length. lia.
Qed.

Lemma zeros_of_value (s : string) :
  Str.all Str.isDigit s = true -> Viem.digitsValue s = 0 ->
  s = Str.repeat "0" (String.length s).
Proof.
  induction s as [|ch s IH]; intros Hs Hv; [reflexivity|].
  simpl in Hs. apply andb_prop in Hs. destruct Hs as [Hc Hs].
  rewrite digitsValue_cons in Hv by assumption.
  pose proof (digitsValue_bound s Hs) as Hb.
  assert (Hdigit : 0 <= Z.of_nat (nat_of_ascii ch) - 48).
  { unfold Str.isDigit in Hc. apply andb_prop in Hc. destruct Hc as [H1 _].
    apply Nat.leb_le in H1. lia. }
  assert (Hp : 0 < 10 ^ Z.of_nat (String.length s)) by (apply Z.pow_pos_nonneg; lia).
  assert (Hzero : Z.of_nat (nat_of_ascii ch) - 48 = 0 /\ Viem.digitsValue s = 0) by nia.
  destruct Hzero as [Hch Hs0].
  simpl. rewrite <- (IH Hs Hs0). f_equal.
  rewrite <- (ascii_nat_embedding ch). replace (nat_of_ascii ch) with 48%nat by lia.
  reflexivity.
Qed.

Lemma toString_pow10 (k : nat) :
  toString (10 ^ Z.of_nat k) = String "1" (Str.repeat "0" k).
Proof.
  assert (Hpos : 0 < 10 ^ Z.of_nat k) by (apply Z.pow_pos_nonneg; lia).
  destruct (toString_first _ Hpos) as (ch & rest & Hs & Hc & Hlead & Hrest).
  destruct (toString_natural (10 ^ Z.of_nat k) ltac:(lia)) as (_ & _ & Hval).
  rewrite Hs in Hval |- *. rewrite digitsValue_cons in Hval by assumption.
  pose proof (digitsValue_bound rest Hrest) as Hb.
  assert (Hdigit : Z.of_nat (nat_of_ascii ch) - 48 <= 9).
  { unfold Str.isDigit in Hc. apply andb_prop in Hc. destruct Hc as [_ H2].
    apply Nat.leb_le in H2. lia. }
  assert (Hq : 0 < 10 ^ Z.of_nat (String.length rest)) by (apply Z.pow_pos_nonneg; lia).
  assert (HL : String.length rest = k).
  { assert (H1 : 10 ^ Z.of_nat (String.length rest) <= 10 ^ Z.of_nat k) by nia.
    assert (H2 : 10 ^ Z.of_nat k < 10 ^ Z.of_nat (S (String.length rest))).
    { rewrite Nat2Z.inj_succ, Z.pow_succ_r by lia. nia. }
    apply Z.pow_le_mono_r_iff in H1; [|lia|lia].
    apply Z.pow_lt_mono_r_iff in H2; [|lia|lia]. lia. }
  rewrite HL in *.
  assert (Hone : Z.of_nat (nat_of_ascii ch) - 48 = 1 /\ Viem.digitsValue rest = 0) by nia.
  destruct Hone as [Hch Hzero].
  pose proof (zeros_of_value rest Hrest Hzero) as Hz. rewrite HL in Hz.
  rewrite Hz. f_equal.
  rewrite <- (ascii_nat_embedding ch). replace (nat_of_ascii ch) with 49%nat by lia.
  reflexivity.
Qed.

(** [parseUnits] on a text with a point, at the place where it looks
    at the length of the fraction. *)
Lemma parseUnits_at_fraction (negative : bool) (integer digits : string) (decimals : nat) :
  Str.all Str.isDigit integer = true -> integer <> EmptyString ->
  Str.all Str.isDigit digits = true ->
  Viem.parseUnits (Spec.decimalText negative integer (Some digits)) decimals
  = ('(whole, fraction) <-
       (if (decimals =? 0)%nat then
          match Viem.roundNumber EmptyString (Str.stripTrailingZeros digits) with
          | Some 1 => i <- BigInt integer ;; Normal (toString (i + 1), EmptyString)
          | _ => Normal (integer, EmptyString)
          end
        else if (decimals <? String.length (Str.stripTrailingZeros digits))%nat then
          let left := Str.sliceTo (decimals - 1) (Str.stripTrailingZeros digits) in
          let unit := String.substring (decimals - 1) 1 (Str.stripTrailingZeros digits) in
          let right := Str.sliceFrom decimals (Str.stripTrailingZeros digits) in
          let rounded := match Viem.roundNumber unit right with Some r => r | None => 0 end in
          fraction <-
            (if 9 <? rounded then
               l <- BigInt left ;;
               Normal (Str.padStart (String.length left + 1) (toString (l + 1) ++ "0")%string)
             else Normal (left ++ toString rounded)%string) ;;
          '(integer, fraction) <-
            (if (decimals <? String.length fraction)%nat then
               i <- BigInt integer ;; Normal (toString (i + 1), Str.sliceFrom 1 fraction)
             else Normal (integer, fraction)) ;;
          Normal (integer, Str.sliceTo decimals fraction)
        else Normal (integer, Str.padEnd decimals (Str.stripTrailingZeros digits))) ;;
     BigInt ((if negative then "-" else EmptyString) ++ whole ++ fraction)%string).
Proof.
  intros Hi Hne Hd.
  set (sign := if negative then "-" else EmptyString).
  assert (Htext : Spec.decimalText negative integer (Some digits)
                  = ((sign ++ integer) ++ String "." digits)%string).
  { unfold Spec.decimalText, sign. rewrite append_assoc. reflexivity. }
  assert (Hprefix : forall rest, String.prefix "-" ((sign ++ integer) ++ rest) = negative).
  { intros rest. unfold sign. destruct negative.
    - apply prefix_minus.
    - apply prefix_minus_digits; assumption. }
  assert (Hunsigned : forall rest,
             (if negative then Str.sliceFrom 1 ((sign ++ integer) ++ rest)
              else ((sign ++ integer) ++ rest)%string) = (integer ++ rest)%string).
  { intros rest. unfold sign. destruct negative; [apply sliceFrom_sign | reflexivity]. }
  assert (Hplain : Str.all (fun ch => negb (Ascii.eqb ch ".")) (sign ++ integer) = true).
  { rewrite all_app, (digits_without_point _ Hi). unfold sign.
    destruct negative; reflexivity. }
  assert (Hdecimal : Viem.isDecimalNumber (Spec.decimalText negative integer (Some digits))
                     = true).
  { unfold Viem.isDecimalNumber. rewrite Htext, Hprefix, Hunsigned.
    rewrite split_at, split_without by (apply digits_without_point; assumption).
    rewrite Hi, Hd. reflexivity. }
  unfold Viem.parseUnits. rewrite Hdecimal. cbn [negb].
  rewrite Htext, split_at, split_without
    by (try assumption; apply digits_without_point; assumption).
  cbv beta iota zeta.
  rewrite <- (append_empty (sign ++ integer)), Hprefix, Hunsigned, !append_empty.
  reflexivity.
Qed.

(** The fraction without the zeros at its end, when some of it is
    left, ends with a digit that is not zero. *)
Lemma stripped_ends_nonzero (s : string) :
  Str.all Str.isDigit s = true -> Str.stripTrailingZeros s <> EmptyString ->
  Viem.digitsValue (Str.stripTrailingZeros s) mod 10 <> 0.
Proof.
  induction s as [|ch s IH]; intros Hs Hne; [contradiction|].
  simpl in Hs. apply andb_prop in Hs. destruct Hs as [Hc Hs].
  assert (Hdigit : 0 <= Z.of_nat (nat_of_ascii ch) - 48 <= 9).
  { unfold Str.isDigit in Hc. apply andb_prop in Hc. destruct Hc as [H1 H2].
    apply Nat.leb_le in H1, H2. lia. }
  simpl in Hne |- *.
  pose proof (stripTrailingZeros_all Str.isDigit s Hs) as Hs'.
  destruct (Str.stripTrailingZeros s) as [|c' s'] eqn:E.
  - destruct (Ascii.eqb_spec ch "0") as [->|Hch]; [contradiction|].
    rewrite digitsValue_cons by (try assumption; reflexivity).
    change (Viem.digitsValue EmptyString) with 0. simpl String.length.
    rewrite Z.pow_0_r, Z.mul_1_r, Z.add_0_r.
    assert (Hnz : Z.of_nat (nat_of_ascii ch) - 48 <> 0).
    { intros H0. apply Hch. rewrite <- (ascii_nat_embedding ch).
      replace (nat_of_ascii ch) with 48%nat by lia. reflexivity. }
    rewrite Z.mod_small by lia. exact Hnz.
  - rewrite digitsValue_cons by assumption.
    specialize (IH Hs ltac:(discriminate)).
    simpl String.length. rewrite Nat2Z.inj_succ, Z.pow_succ_r by lia.
    replace ((Z.of_nat (nat_of_ascii ch) - 48) * (10 * 10 ^ Z.of_nat (String.length s'))
             + Viem.digitsValue (String c' s'))
      with (Viem.digitsValue (String c' s')
            + (Z.of_nat (nat_of_ascii ch) - 48) * 10 ^ Z.of_nat (String.length s') * 10)
      by ring.
    rewrite Z.mod_add by lia. exact IH.
Qed.

Lemma toString_small (r : Z) :
  0 <= r <= 9 ->
  String.length (toString r) = 1%nat.
Proof.
  intros Hr.
  assert (Hin : In r [0; 1; 2; 3; 4; 5; 6; 7; 8; 9]) by (simpl; lia).
  simpl in Hin. repeat (destruct Hin as [<-|Hin]; [reflexivity|]). contradiction.
Qed.

(** With no decimals, a fraction that is not zero is rounded: the
    result is the integer part or the next integer. *)
Lemma parseUnits_rounds_to_integer (negative : bool) (integer digits : string) :
  Str.all Str.isDigit integer = true -> integer <> EmptyString ->
  Str.all Str.isDigit digits = true ->
  Str.stripTrailingZeros digits <> EmptyString ->
  exists r,
    (r = 0 \/ r = 1)
    /\ Viem.parseUnits (Spec.decimalText negative integer (Some digits)) 0
       = Normal ((if negative then -1 else 1) * (Viem.digitsValue integer + r)).
Proof.
  intros Hi Hne Hd Hlong.
  rewrite parseUnits_at_fraction by assumption.
  change (0 =? 0)%nat with true. cbv iota.
  pose proof (stripTrailingZeros_all Str.isDigit digits Hd) as Hd'.
  destruct (roundNumber_between EmptyString (Str.stripTrailingZeros digits)
              eq_refl Hd' ltac:(simpl; lia) Hlong) as (r & Hr & Hcase).
  change (Viem.digitsValue EmptyString) with 0 in Hcase.
  rewrite Hr. exists r. split; [lia|].
  destruct Hcase as [->| ->].
  - cbn [Js.bind]. rewrite append_empty, BigInt_signed by assumption.
    f_equal. lia.
  - change (0 + 1) with 1. cbv iota.
    rewrite BigInt_digits by assumption. cbn [Js.bind].
    destruct (toString_natural (Viem.digitsValue integer + 1)) as (Hall & Hnonempty & Hval).
    { pose proof (digitsValue_bound integer Hi). lia. }
    rewrite append_empty, BigInt_signed, Hval by assumption. reflexivity.
Qed.

(** With decimals, a fraction that has more digits is rounded at its
    last digit kept: that digit stays or goes up by one, with the carry
    that this may take. *)
Lemma parseUnits_rounds_last_digit (negative : bool) (integer digits : string)
  (decimals : nat) (left unit right : string) :
  Str.all Str.isDigit integer = true -> integer <> EmptyString ->
  Str.all Str.isDigit digits = true ->
  Str.stripTrailingZeros digits = (left ++ unit ++ right)%string ->
  S (String.length left) = decimals -> String.length unit = 1%nat ->
  right <> EmptyString ->
  exists r,
    (r = Viem.digitsValue unit \/ r = Viem.digitsValue unit + 1)
    /\ Viem.parseUnits (Spec.decimalText negative integer (Some digits)) decimals
       = Normal ((if negative then -1 else 1)
                 * (Viem.digitsValue (integer ++ left) * 10 + r)).
Proof.
  intros Hi Hne Hd Hcut Hleft Hunit Hright.
  rewrite parseUnits_at_fraction by assumption.
  pose proof (stripTrailingZeros_all Str.isDigit digits Hd) as Hd'.
  rewrite Hcut in *. clear Hcut.
  rewrite !all_app in Hd'. apply andb_prop in Hd'. destruct Hd' as [Hl Hd'].
  apply andb_prop in Hd'. destruct Hd' as [Hu Hr].
  assert (Hrlen : (1 <= String.length right)%nat).
  { destruct right; [contradiction | simpl; lia]. }
  destruct (Nat.eqb_spec decimals 0) as [Hz|_]; [lia|].
  destruct (Nat.ltb_spec decimals (String.length (left ++ unit ++ right)))
    as [_|Hshort]; [|rewrite !append_length in Hshort; lia].
  cbv zeta.
  assert (Hsl : Str.sliceTo (decimals - 1) (left ++ unit ++ right) = left).
  { unfold Str.sliceTo. apply substring_first. lia. }
  assert (Hsu : String.substring (decimals - 1) 1 (left ++ unit ++ right) = unit).
  { replace (decimals - 1)%nat with (String.length left) by lia.
    rewrite substring_behind. apply substring_first. exact Hunit. }
  assert (Hsr : Str.sliceFrom decimals (left ++ unit ++ right) = right).
  { rewrite <- append_assoc.
    replace decimals with (String.length (left ++ unit))
      by (rewrite append_length; lia).
    apply sliceFrom_behind. }
  rewrite Hsl, Hsu, Hsr.
  destruct (roundNumber_between unit right Hu Hr ltac:(lia)) as (r & Hround & Hcase).
  { destruct unit; [discriminate Hunit | discriminate]. }
  rewrite Hround. exists r. split; [exact Hcase|].
  pose proof (digitsValue_bound unit Hu) as Hub. rewrite Hunit in Hub.
  change (10 ^ Z.of_nat 1) with 10 in Hub.
  pose proof (digitsValue_bound left Hl) as Hlb.
  pose proof (digitsValue_bound integer Hi) as Hib.
  assert (Hwhole : Viem.digitsValue (integer ++ left)
                   = Viem.digitsValue integer * 10 ^ Z.of_nat (String.length left)
                     + Viem.digitsValue left).
  { apply digitsValue_app; assumption. }
  assert (Hintne : forall rest, (integer ++ rest)%string <> EmptyString).
  { intros rest. destruct integer; [contradiction | discriminate]. }
  destruct (Z.ltb_spec 9 r) as [Hten|Hdigit].
  - (* the digit was nine and goes up: a carry into [left] *)
    assert (Hr10 : r = 10) by lia. subst r.
    rewrite BigInt_digits by assumption. cbn [Js.bind].
    destruct (toString_natural (Viem.digitsValue left + 1) ltac:(lia))
      as (Hall & Hnonempty & Hval).
    set (carried := (toString (Viem.digitsValue left + 1) ++ "0")%string).
    assert (Hcall : Str.all Str.isDigit carried = true).
    { unfold carried. rewrite all_app, Hall. reflexivity. }
    assert (Hcval : Viem.digitsValue carried = (Viem.digitsValue left + 1) * 10).
    { unfold carried. rewrite digitsValue_app, Hval by (try assumption; reflexivity).
      change (Viem.digitsValue "0") with 0.
      change (Z.of_nat (String.length "0")) with 1. lia. }
    assert (Hclen : String.length carried
                    = S (String.length (toString (Viem.digitsValue left + 1)))).
    { unfold carried. rewrite append_length. simpl. lia. }
    replace (String.length left + 1)%nat with decimals by lia.
    destruct (Z.eq_dec (Viem.digitsValue left + 1) (10 ^ Z.of_nat (String.length left)))
      as [Hfull|Hroom].
    + (* [left] was all nines: the carry goes into the integer part *)
      assert (Hcarried : carried = String "1" (Str.repeat "0" decimals)).
      { unfold carried. rewrite Hfull, toString_pow10. simpl. f_equal.
        rewrite <- Hleft. clear. induction (String.length left) as [|n IH]; [reflexivity|].
        simpl. rewrite IH. reflexivity. }
      assert (Hpad : Str.padStart decimals carried = carried).
      { unfold Str.padStart. rewrite Hcarried. simpl String.length.
        rewrite repeat_length. replace (decimals - S decimals)%nat with 0%nat by lia.
        reflexivity. }
      rewrite Hpad, Hcarried. cbn [Js.bind]. simpl String.length. rewrite repeat_length.
      destruct (Nat.ltb_spec decimals (S decimals)) as [_|Hno]; [|lia].
      rewrite BigInt_digits by assumption. cbn [Js.bind].
      change (Str.sliceFrom 1 (String "1" (Str.repeat "0" decimals)))
        with (Str.sliceFrom (String.length "1") ("1" ++ Str.repeat "0" decimals)).
      rewrite sliceFrom_behind.
      unfold Str.sliceTo.
      rewrite <- (repeat_length "0" decimals) at 1. rewrite substring_whole.
      destruct (toString_natural (Viem.digitsValue integer + 1) ltac:(lia))
        as (Hall' & Hnonempty' & Hval').
      rewrite BigInt_signed.
      * rewrite digitsValue_app, digitsValue_zeros, repeat_length, Hval'
          by (try assumption; apply all_repeat; reflexivity).
        f_equal. rewrite Hwhole. rewrite <- Hleft.
        rewrite Nat2Z.inj_succ, Z.pow_succ_r by lia.
        remember (10 ^ Z.of_nat (String.length left)) as q. nia.
      * rewrite all_app, Hall', all_repeat; reflexivity.
      * destruct (toString (Viem.digitsValue integer + 1)); [contradiction | discriminate].
    + (* the carry stays in the fraction *)
      assert (Hk : (1 <= String.length left)%nat).
      { destruct left; [|simpl; lia]. exfalso. apply Hroom. reflexivity. }
      assert (Hfit : (String.length carried <= decimals)%nat).
      { rewrite Hclen.
        assert (String.length (toString (Viem.digitsValue left + 1))
                <= String.length left)%nat; [|lia].
        apply toString_length; [lia | exact Hk]. }
      assert (Hplen : String.length (Str.padStart decimals carried) = decimals).
      { apply padStart_length. exact Hfit. }
      cbn [Js.bind]. rewrite Hplen.
      destruct (Nat.ltb_spec decimals decimals) as [Hno|_]; [lia|].
      cbn [Js.bind]. unfold Str.sliceTo.
      rewrite <- Hplen at 1. rewrite substring_whole.
      assert (Hpall : Str.all Str.isDigit (Str.padStart decimals carried) = true).
      { unfold Str.padStart. rewrite all_app, Hcall, all_repeat; reflexivity. }
      assert (Hpval : Viem.digitsValue (Str.padStart decimals carried)
                      = (Viem.digitsValue left + 1) * 10).
      { unfold Str.padStart.
        rewrite digitsValue_app, digitsValue_zeros, Hcval
          by (try assumption; apply all_repeat; reflexivity). lia. }
      rewrite BigInt_signed.
      * rewrite digitsValue_app, Hpval, Hplen by assumption.
        f_equal. rewrite Hwhole, <- Hleft.
        rewrite Nat2Z.inj_succ, Z.pow_succ_r by lia.
        remember (10 ^ Z.of_nat (String.length left)) as q. nia.
      * rewrite all_app, Hi, Hpall. reflexivity.
      * apply Hintne.
  - (* the digit stays a digit *)
    assert (Hr9 : 0 <= r <= 9) by lia.
    cbn [Js.bind].
    assert (Hflen : String.length (left ++ toString r) = decimals).
    { rewrite append_length, (toString_small r Hr9). lia. }
    rewrite Hflen.
    destruct (Nat.ltb_spec decimals decimals) as [Hno|_]; [lia|].
    cbn [Js.bind]. unfold Str.sliceTo.
    rewrite <- Hflen at 1. rewrite substring_whole.
    destruct (toString_natural r ltac:(lia)) as (Hall & Hnonempty & Hval).
    rewrite BigInt_signed.
    + rewrite <- append_assoc.
      rewrite (digitsValue_app (integer ++ left)), Hval, (toString_small r Hr9)
        by (try assumption; rewrite all_app, Hi, Hl; reflexivity).
      reflexivity.
    + rewrite !all_app, Hi, Hl, Hall. reflexivity.
    + apply Hintne.
Qed.

(** X21: [parseUnits] is never off by a whole base unit.  For an
    amount written with an integer part and any number of fraction
    digits, at any number of decimals, it answers with an integer [n]
    whose distance to the amount times [10^decimals] is less than one:
    exact when the fraction fits, rounded at the last digit
    otherwise. *)
Theorem parseUnits_is_off_by_less_than_one_unit
  (negative : bool) (integer : string) (fraction : option string) (decimals : nat) :
  Str.all Str.isDigit integer = true -> integer <> EmptyString ->
  Str.all Str.isDigit (Spec.fractionOf fraction) = true ->
  exists n,
    Viem.parseUnits (Spec.decimalText negative integer fraction) decimals = Normal n
    /\ Z.abs (n * 10 ^ Z.of_nat (String.length (Spec.fractionOf fraction))
              - (if negative then -1 else 1)
                * Viem.digitsValue (integer ++ Spec.fractionOf fraction)
                * 10 ^ Z.of_nat decimals)
       < 10 ^ Z.of_nat (String.length (Spec.fractionOf fraction)).
Proof.
  intros Hi Hne Hf.
  set (F := Spec.fractionOf fraction) in *.
  assert (Hp : 0 < 10 ^ Z.of_nat (String.length F)) by (apply Z.pow_pos_nonneg; lia).
  destruct (Nat.leb_spec (String.length (Str.stripTrailingZeros F)) decimals) as [Hfit|Hlong].
  { destruct (parseUnits_exact negative integer fraction decimals Hi Hne Hf Hfit)
      as (n & Hn & Hexact).
    exists n. split; [exact Hn|]. unfold Spec.exactUnits in Hexact. fold F in Hexact.
    rewrite Hexact, Z.sub_diag. simpl. exact Hp. }
  destruct fraction as [digits|]; [|simpl in Hlong; lia].
  change (Spec.fractionOf (Some digits)) with digits in *. subst F.
  destruct (stripTrailingZeros_spec digits) as [Hsplit _].
  pose proof (stripTrailingZeros_all Str.isDigit digits Hf) as Hf'.
  assert (Hstripped : Str.stripTrailingZeros digits <> EmptyString).
  { destruct (Str.stripTrailingZeros digits); [simpl in Hlong; lia | discriminate]. }
  pose proof (stripped_ends_nonzero digits Hf Hstripped) as Hlast.
  set (F' := Str.stripTrailingZeros digits) in *.
  set (j := (String.length digits - String.length F')%nat) in *.
  assert (Hzeros : Str.all Str.isDigit (Str.repeat "0" j) = true)
    by (apply all_repeat; reflexivity).
  assert (Hlen : String.length digits = (String.length F' + j)%nat).
  { rewrite Hsplit at 1. rewrite append_length, repeat_length. reflexivity. }
  assert (Hvalue : Viem.digitsValue (integer ++ digits)
                   = (Viem.digitsValue integer * 10 ^ Z.of_nat (String.length F')
                      + Viem.digitsValue F') * 10 ^ Z.of_nat j).
  { rewrite Hsplit at 1.
    rewrite digitsValue_app by (try assumption; rewrite all_app, Hf', Hzeros; reflexivity).
    rewrite (digitsValue_app F'), digitsValue_zeros, append_length, !repeat_length
      by assumption.
    rewrite Nat2Z.inj_add, Z.pow_add_r by lia. ring. }
  assert (Hj : 0 < 10 ^ Z.of_nat j) by (apply Z.pow_pos_nonneg; lia).
  rewrite Hvalue, Hlen, Nat2Z.inj_add, Z.pow_add_r by lia.
  destruct decimals as [|d].
  - destruct (parseUnits_rounds_to_integer negative integer digits Hi Hne Hf Hstripped)
      as (r & Hr & Hn).
    eexists. split; [exact Hn|].
    pose proof (digitsValue_bound F' Hf') as Hb.
    assert (Hpos : 0 < Viem.digitsValue F').
    { destruct (Z.eq_dec (Viem.digitsValue F') 0) as [H0|]; [|lia].
      rewrite H0 in Hlast. contradiction Hlast. reflexivity. }
    change (10 ^ Z.of_nat 0) with 1.
    remember (10 ^ Z.of_nat (String.length F')) as q.
    remember (10 ^ Z.of_nat j) as t.
    remember (Viem.digitsValue integer) as I. remember (Viem.digitsValue F') as V.
    assert (Hq : 0 < q) by (subst q; apply Z.pow_pos_nonneg; lia).
    assert (Hgoal : Z.abs ((I + r) * q - (I * q + V)) < q).
    { destruct Hr as [->| ->]; lia. }
    match goal with
    | |- Z.abs ?X < ?B =>
        replace X with ((if negative then -1 else 1) * (((I + r) * q - (I * q + V)) * t))
          by (destruct negative; ring);
        replace B with (q * t) by ring
    end.
    assert (Hsign : Z.abs (if negative then -1 else 1) = 1) by (destruct negative; reflexivity).
    rewrite Z.abs_mul, Hsign, Z.mul_1_l, Z.abs_mul, (Z.abs_eq t) by lia. nia.
  - destruct (string_cut F' d ltac:(lia)) as (left & behind & Hcut & Hleft).
    assert (Hbehind : (2 <= String.length behind)%nat).
    { pose proof (f_equal String.length Hcut) as Hl. rewrite append_length in Hl. lia. }
    destruct (string_cut behind 1 ltac:(lia)) as (unit & right & Hcut' & Hunit).
    assert (Hright : right <> EmptyString).
    { pose proof (f_equal String.length Hcut') as Hl. rewrite append_length in Hl.
      destruct right; [simpl in Hl; lia | discriminate]. }
    rewrite Hcut' in Hcut. clear Hcut' Hbehind behind.
    destruct (parseUnits_rounds_last_digit negative integer digits (S d) left unit right
                Hi Hne Hf Hcut ltac:(lia) Hunit Hright) as (r & Hr & Hn).
    eexists. split; [exact Hn|].
    fold F' in Hcut. rewrite Hcut in Hf', Hlast |- *.
    rewrite !all_app in Hf'. apply andb_prop in Hf'. destruct Hf' as [Hl Hf'].
    apply andb_prop in Hf'. destruct Hf' as [Hu Hrd].
    rewrite (digitsValue_app integer left) by assumption.
    assert (Hur : Str.all Str.isDigit (unit ++ right) = true)
      by (rewrite all_app, Hu, Hrd; reflexivity).
    rewrite (digitsValue_app left (unit ++ right) Hl Hur) in Hlast |- *.
    rewrite (digitsValue_app unit right Hu Hrd) in Hlast |- *.
    rewrite !append_length in Hlast. rewrite !append_length.
    rewrite Hunit in Hlast. rewrite Hunit, Hleft.
    pose proof (digitsValue_bound right Hrd) as Hb.
    assert (Hrl : (1 <= String.length right)%nat).
    { destruct right; [contradiction | simpl; lia]. }
    rewrite !Nat2Z.inj_add, ?Nat2Z.inj_succ, !Z.pow_add_r, ?Z.pow_succ_r in Hlast |- * by lia.
    change (Z.of_nat 1) with 1 in Hlast |- *. rewrite ?Z.pow_1_r in Hlast |- *.
    change (10 ^ Z.of_nat 0) with 1 in Hlast |- *.
    remember (10 ^ Z.of_nat (String.length right)) as q.
    remember (10 ^ Z.of_nat d) as s.
    remember (10 ^ Z.of_nat j) as t.
    remember (Viem.digitsValue integer) as I. remember (Viem.digitsValue left) as L.
    remember (Viem.digitsValue unit) as U. remember (Viem.digitsValue right) as R.
    assert (Hq : 0 < q) by (subst q; apply Z.pow_pos_nonneg; lia).
    assert (Hs : 0 < s) by (subst s; apply Z.pow_pos_nonneg; lia).
    assert (Hq10 : exists q', q = 10 * q').
    { exists (10 ^ Z.of_nat (String.length right - 1)). subst q.
      replace (Z.of_nat (String.length right))
        with (Z.succ (Z.of_nat (String.length right - 1))) by lia.
      rewrite Z.pow_succ_r by lia. reflexivity. }
    assert (Hpos : 0 < R).
    { destruct (Z.eq_dec R 0) as [H0|]; [|lia]. exfalso. apply Hlast.
      destruct Hq10 as (q' & Hq').
      match goal with
      | |- ?X mod 10 = 0 =>
          replace X with (0 + (L * 10 * q' + U * q') * 10) by (rewrite H0, Hq'; ring)
      end.
      rewrite Z.mod_add by lia. reflexivity. }
    assert (Hgoal : Z.abs ((r - U) * q - R) < q).
    { destruct Hr as [->| ->].
      - replace ((U - U) * q - R) with (- R) by ring. rewrite Z.abs_opp, Z.abs_eq; lia.
      - replace ((U + 1 - U) * q - R) with (q - R) by ring. rewrite Z.abs_eq; lia. }
    replace (10 ^ Z.of_nat (S d)) with (10 * s)
      by (subst s; rewrite Nat2Z.inj_succ, Z.pow_succ_r by lia; reflexivity).
    match goal with
    | |- Z.abs ?X < ?B =>
        replace X with ((if negative then -1 else 1) * (((r - U) * q - R) * (10 * s * t)))
          by (destruct negative; ring);
        replace B with (q * (10 * s * t)) by ring
    end.
    assert (Hsign : Z.abs (if negative then -1 else 1) = 1) by (destruct negative; reflexivity).
    rewrite Z.abs_mul, Hsign, Z.mul_1_l, Z.abs_mul, (Z.abs_eq (10 * s * t)) by nia. nia.
Qed.

Lemma parseUnits_is_off_by_less_than_one_unit_witness :
  exists n,
    Viem.parseUnits (Spec.decimalText true "49" (Some "9950")) 2 = Normal n
    /\ Z.abs (n * 10 ^ 4 - -1 * 499950 * 10 ^ 2) < 10 ^ 4.
Proof.
  destruct (parseUnits_is_off_by_less_than_one_unit true "49" (Some "9950") 2)
    as (n & Hn & Hnear).
  - reflexivity.
  - discriminate.
  - reflexivity.
  - exists n. split; [exact Hn | exact Hnear].
Defined.
